(** * Federation synchronisation engine of cannect-pwa: a shallow embedding

    The development follows the repository's sources, one module for each:
    - [TID]: [generate_tid()], PL/pgSQL, of
      supabase/migrations_archive/20251221160000_add_generate_tid_function.sql;
    - [Outbox]: the trigger functions that stage local mutations into
      [federation_queue], of the comprehensive-fix migration, and
      [queue_unrepost_for_federation] of
      supabase/migrations/20251221164000_fix_unrepost_trigger_with_logging.sql;
    - [SyncWorker]: the worker that drains the queue, after the
      specification (its code is not among the sources);
    - [Ingester]: supabase/functions/process-jetstream-event/index.ts;
    - [FeedLogic]: [shouldIncludePost] of the feed generator's feed-logic.js;
    - [FeedSkeleton]: the [getFeedSkeleton] endpoint of
      scripts/feed-vps/index.js;
    - [TidStaging]: the like and repost triggers that call [generate_tid()],
      of supabase/migrations_archive/
      20251221171000_fix_federation_queue_columns.sql;
    - [Indexer]: [getPostText] of feed-logic.js with [handleJetstreamEvent]
      and [handleNewPost] of scripts/feed-vps/index.js;
    - [Reconnect]: [scheduleReconnect] of scripts/feed-vps/index.js;
    - [TIDKeys], [OutboxFacts], [IngesterFacts], [FeedLogicFacts] and
      [FeedSkeletonFacts]: further properties of the modules above.

    Tables are lists of records, SQL NULL and JavaScript [undefined] are
    [None], PL/pgSQL code runs in a state-and-error monad over the tables,
    and what the code takes from outside (the clock, random bytes, the
    answers of remote services, the failure of a statement) is an input.
    JavaScript numbers are integer-valued doubles, NaN and the infinities,
    with the rounding of integers that do not fit 53 bits. *)

From Stdlib Require Import ZArith List String Ascii Bool Lia Permutation.
From Stdlib Require Import Sorting.Sorted.
Import ListNotations.

(* ================================================================== *)
(** ** TID record keys ([generate_tid], PL/pgSQL) *)
(* ================================================================== *)
Module TID.
Local Open Scope Z_scope.
Local Open Scope string_scope.

(** [b32_chars TEXT := '234567abcdefghijklmnopqrstuvwxyz'] *)
Definition b32_chars : string := "234567abcdefghijklmnopqrstuvwxyz".

(** A PostgreSQL BIGINT is a 64-bit two's complement integer; [<<] on it
    does not check for overflow, the result wraps. *)
Definition wrap64 (z : Z) : Z := (z + 2 ^ 63) mod 2 ^ 64 - 2 ^ 63.

Definition bigint_shl (a n : Z) : Z := wrap64 (Z.shiftl a n).

(** [substr(s, pos, len)] of PostgreSQL counts positions from 1. *)
Definition substr (s : string) (pos : Z) (len : nat) : string :=
  String.substring (Z.to_nat (pos - 1)) len s.

(** The body of [FOR i IN 1..13 LOOP ... END LOOP], run [n] times:
    [result := substr(b32_chars, (combined & 31)::INTEGER + 1, 1) || result;
     combined := combined >> 5]. *)
Fixpoint tid_loop (n : nat) (combined : Z) (result : string) : string :=
  match n with
  | O => result
  | S n' =>
      tid_loop n' (Z.shiftr combined 5)
               (substr b32_chars (Z.land combined 31 + 1) 1 ++ result)
  end.

(** [combined := (timestamp_us << 10) | clock_id], then the loop.
    [timestamp_us] is the reading of [clock_timestamp()] in microseconds and
    [clock_id] the draw [floor(random() * 1024)]; both are inputs here. *)
Definition generate_tid (timestamp_us clock_id : Z) : string :=
  let combined := Z.lor (bigint_shl timestamp_us 10) clock_id in
  tid_loop 13 combined "".

(** Membership of a character in the sortable alphabet, as the migration's
    own test checks it with [!~ '^[234567abcdefghijklmnopqrstuvwxyz]+$']. *)
Fixpoint in_string (c : ascii) (s : string) : bool :=
  match s with
  | EmptyString => false
  | String d s' => Ascii.eqb c d || in_string c s'
  end.

Fixpoint all_chars (p : ascii -> bool) (s : string) : bool :=
  match s with
  | EmptyString => true
  | String c s' => p c && all_chars p s'
  end.

Definition valid_tid (s : string) : bool :=
  Nat.eqb (String.length s) 13 && all_chars (fun c => in_string c b32_chars) s.

(** Lexicographic order on strings by character code: [String.compare]. *)
Definition tid_lt (s1 s2 : string) : Prop := String.compare s1 s2 = Lt.

(** The character for a five-bit value. *)
Definition digit (k : Z) : string := substr b32_chars (k + 1) 1.

(** Most significant digit first, [n] digits. *)
Fixpoint enc (n : nat) (v : Z) : string :=
  match n with
  | O => ""
  | S n' => enc n' (Z.shiftr v 5) ++ digit (Z.land v 31)
  end.

(** The 32 digits, checked one by one. *)
Definition digits_ok : bool :=
  forallb (fun k => let d := digit (Z.of_nat k) in
                    Nat.eqb (String.length d) 1
                    && all_chars (fun c => in_string c b32_chars) d)
          (seq 0 32).

(** The alphabet is listed in increasing character order. *)
Definition digits_sorted : bool :=
  forallb (fun i =>
    forallb (fun j =>
      if (i <? j)%nat
      then match String.compare (digit (Z.of_nat i)) (digit (Z.of_nat j)) with
           | Lt => true | _ => false end
      else true) (seq 0 32)) (seq 0 32).

(** *** Proofs *)

Lemma append_assoc (a b c : string) : (a ++ b) ++ c = a ++ (b ++ c).
Proof. induction a as [|x a IH]; simpl; [reflexivity | now rewrite IH]. Qed.

Lemma append_nil_r (a : string) : a ++ "" = a.
Proof. induction a as [|x a IH]; simpl; [reflexivity | now rewrite IH]. Qed.

Lemma length_append (a b : string) :
  String.length (a ++ b) = (String.length a + String.length b)%nat.
Proof. induction a as [|x a IH]; simpl; [reflexivity | now rewrite IH]. Qed.

Lemma all_chars_append p (a b : string) :
  all_chars p (a ++ b) = all_chars p a && all_chars p b.
Proof.
  induction a as [|x a IH]; simpl; [reflexivity|].
  now rewrite IH, andb_assoc.
Qed.

Lemma tid_loop_enc (n : nat) : forall v acc, tid_loop n v acc = enc n v ++ acc.
Proof.
  induction n as [|n IH]; intros v acc; simpl; [reflexivity|].
  rewrite IH. fold (digit (Z.land v 31)). now rewrite append_assoc.
Qed.

Lemma land31_range (v : Z) : 0 <= Z.land v 31 < 32.
Proof.
  change 31 with (Z.ones 5). rewrite Z.land_ones by lia.
  apply Z.mod_pos_bound. reflexivity.
Qed.

Lemma digits_ok_true : digits_ok = true.
Proof. vm_compute. reflexivity. Qed.

Lemma digit_ok (k : Z) :
  0 <= k < 32 ->
  String.length (digit k) = 1%nat /\
  all_chars (fun c => in_string c b32_chars) (digit k) = true.
Proof.
  intros Hk. pose proof digits_ok_true as H. unfold digits_ok in H.
  rewrite forallb_forall in H.
  specialize (H (Z.to_nat k)). rewrite Z2Nat.id in H by lia.
  assert (Hin : In (Z.to_nat k) (seq 0 32)) by (apply in_seq; lia).
  apply H in Hin. apply andb_prop in Hin as [H1 H2].
  split; [now apply Nat.eqb_eq | exact H2].
Qed.

Lemma enc_length (n : nat) : forall v, String.length (enc n v) = n.
Proof.
  induction n as [|n IH]; intros v; cbn [enc]; [reflexivity|].
  rewrite length_append, IH.
  destruct (digit_ok (Z.land v 31) (land31_range v)) as [-> _]. lia.
Qed.

Lemma enc_alphabet (n : nat) :
  forall v, all_chars (fun c => in_string c b32_chars) (enc n v) = true.
Proof.
  induction n as [|n IH]; intros v; cbn [enc]; [reflexivity|].
  rewrite all_chars_append, IH.
  now destruct (digit_ok (Z.land v 31) (land31_range v)) as [_ ->].
Qed.

Lemma ascii_compare_refl (c : ascii) : Ascii.compare c c = Eq.
Proof. unfold Ascii.compare. apply N.compare_refl. Qed.

Lemma compare_append_same (a x y : string) :
  String.compare (a ++ x) (a ++ y) = String.compare x y.
Proof.
  induction a as [|c a IH]; simpl; [reflexivity|].
  now rewrite ascii_compare_refl.
Qed.

Lemma compare_append_lt (a : string) :
  forall b x y, String.length a = String.length b ->
    String.compare a b = Lt -> String.compare (a ++ x) (b ++ y) = Lt.
Proof.
  induction a as [|c a IH]; intros [|d b] x y Hlen Hlt; simpl in *;
    try discriminate.
  destruct (Ascii.compare c d); try discriminate; [|reflexivity].
  apply IH; [now injection Hlen | exact Hlt].
Qed.

Lemma digits_sorted_true : digits_sorted = true.
Proof. vm_compute. reflexivity. Qed.

Lemma digit_lt (i j : Z) :
  0 <= i < j -> j < 32 -> String.compare (digit i) (digit j) = Lt.
Proof.
  intros Hi Hj. pose proof digits_sorted_true as H. unfold digits_sorted in H.
  rewrite forallb_forall in H.
  specialize (H (Z.to_nat i) ltac:(apply in_seq; lia)).
  rewrite forallb_forall in H.
  specialize (H (Z.to_nat j) ltac:(apply in_seq; lia)).
  rewrite !Z2Nat.id in H by lia.
  replace (Z.to_nat i <? Z.to_nat j)%nat with true in H
    by (symmetry; apply Nat.ltb_lt; lia).
  now destruct (String.compare (digit i) (digit j)).
Qed.

Lemma land31_mod (v : Z) : Z.land v 31 = v mod 32.
Proof. change 31 with (Z.ones 5). now rewrite Z.land_ones by lia. Qed.

Lemma shiftr5_div (v : Z) : Z.shiftr v 5 = v / 32.
Proof. now rewrite Z.shiftr_div_pow2 by lia. Qed.

(** Big-endian base-32 digits order numbers as the numbers are ordered. *)
Lemma enc_lt (n : nat) :
  forall v1 v2, 0 <= v1 < v2 -> v2 < 32 ^ Z.of_nat n ->
    String.compare (enc n v1) (enc n v2) = Lt.
Proof.
  induction n as [|n IH]; intros v1 v2 H12 Hb.
  - simpl in Hb. lia.
  - cbn [enc]. rewrite !land31_mod, !shiftr5_div.
    rewrite Nat2Z.inj_succ, Z.pow_succ_r in Hb by lia.
    pose proof (Z.div_mod v1 32 ltac:(lia)) as E1.
    pose proof (Z.div_mod v2 32 ltac:(lia)) as E2.
    pose proof (Z.mod_pos_bound v1 32 ltac:(lia)) as M1.
    pose proof (Z.mod_pos_bound v2 32 ltac:(lia)) as M2.
    assert (Hq : v1 / 32 < v2 / 32 \/ v1 / 32 = v2 / 32) by lia.
    destruct Hq as [Hq | Hq].
    + apply compare_append_lt.
      * now rewrite !enc_length.
      * apply IH; [split; [apply Z.div_pos; lia | exact Hq] | lia].
    + rewrite Hq, compare_append_same. apply digit_lt; lia.
Qed.

Lemma wrap64_small (z : Z) : - 2 ^ 63 <= z < 2 ^ 63 -> wrap64 z = z.
Proof. intros H. unfold wrap64. rewrite Z.mod_small; lia. Qed.

(** Within the 53-bit timestamp range the shift does not overflow and the
    [|] with a 10-bit clock fills the ten low bits that the shift cleared. *)
Lemma combined_value (t c : Z) :
  0 <= t < 2 ^ 53 -> 0 <= c < 2 ^ 10 ->
  Z.lor (bigint_shl t 10) c = t * 1024 + c.
Proof.
  intros Ht Hc. unfold bigint_shl.
  rewrite Z.shiftl_mul_pow2 by lia. change (2 ^ 10) with 1024 in *.
  rewrite wrap64_small by lia.
  rewrite <- Z.lxor_lor, <- Z.add_nocarry_lxor; try reflexivity.
  - apply Z.bits_inj'. intros k Hk. rewrite Z.land_spec, Z.bits_0.
    destruct (Z.lt_ge_cases k 10) as [Hlt | Hge].
    + change 1024 with (2 ^ 10). rewrite Z.mul_pow2_bits_low by lia. reflexivity.
    + rewrite (Z.bits_above_log2 c k), andb_false_r; [reflexivity | lia |].
      destruct (Z.eq_dec c 0) as [-> | Hnz]; [simpl; lia|].
      apply Z.lt_le_trans with 10; [|exact Hge].
      apply Z.log2_lt_pow2; lia.
  - apply Z.bits_inj'. intros k Hk. rewrite Z.land_spec, Z.bits_0.
    destruct (Z.lt_ge_cases k 10) as [Hlt | Hge].
    + change 1024 with (2 ^ 10). rewrite Z.mul_pow2_bits_low by lia. reflexivity.
    + rewrite (Z.bits_above_log2 c k), andb_false_r; [reflexivity | lia |].
      destruct (Z.eq_dec c 0) as [-> | Hnz]; [simpl; lia|].
      apply Z.lt_le_trans with 10; [|exact Hge].
      apply Z.log2_lt_pow2; lia.
Qed.

Lemma generate_tid_valid (timestamp_us clock_id : Z) :
  valid_tid (generate_tid timestamp_us clock_id) = true.
Proof.
  unfold valid_tid, generate_tid. rewrite tid_loop_enc, append_nil_r.
  rewrite enc_length, enc_alphabet. reflexivity.
Qed.

Lemma generate_tid_increasing (t1 t2 c1 c2 : Z) :
  0 <= t1 < t2 -> t2 < 2 ^ 53 ->
  0 <= c1 < 2 ^ 10 -> 0 <= c2 < 2 ^ 10 ->
  tid_lt (generate_tid t1 c1) (generate_tid t2 c2).
Proof.
  intros Ht Ht2 Hc1 Hc2. unfold tid_lt, generate_tid.
  rewrite !tid_loop_enc, !append_nil_r, !combined_value by lia.
  change (2 ^ 10) with 1024 in *.
  apply enc_lt; [lia|].
  change (32 ^ Z.of_nat 13) with (2 ^ 65).
  assert (2 ^ 53 * 1024 = 2 ^ 63) by reflexivity.
  assert (2 ^ 63 < 2 ^ 65) by reflexivity. lia.
Qed.

(** C3: every string [generate_tid] returns, whatever the clock reading and
    the random draw, has exactly 13 characters, each of them from the
    alphabet [234567abcdefghijklmnopqrstuvwxyz]; and for two microsecond
    timestamps [t1 < t2] of the 53-bit range the TID format gives them and any
    two 10-bit clock values, the encoding of [(t1 << 10) | c1] is
    lexicographically smaller than that of [(t2 << 10) | c2]. *)
Theorem generate_tid_sortable :
  (forall timestamp_us clock_id,
      valid_tid (generate_tid timestamp_us clock_id) = true) /\
  (forall t1 t2 c1 c2,
      0 <= t1 < t2 -> t2 < 2 ^ 53 ->
      0 <= c1 < 2 ^ 10 -> 0 <= c2 < 2 ^ 10 ->
      tid_lt (generate_tid t1 c1) (generate_tid t2 c2)).
Proof.
  split; [exact generate_tid_valid | exact generate_tid_increasing].
Qed.

Lemma generate_tid_sortable_witness :
  valid_tid (generate_tid 1766332800000000 517) = true /\
  tid_lt (generate_tid 1766332800000000 1023)
         (generate_tid 1766332800000001 0).
Proof.
  split.
  - apply (proj1 generate_tid_sortable).
  - apply (proj2 generate_tid_sortable); lia.
Defined.

(** A TID of 21 December 2025, 16:00 UTC. *)
Example generate_tid_sample :
  generate_tid 1766332800000000 517 = "3maj3nlms22k7".
Proof. vm_compute. reflexivity. Qed.

(** Past the 53 bits the shift overflows the BIGINT and the order is lost. *)
Remark generate_tid_order_past_53_bits :
  generate_tid 1 0 = "2222222222322" /\
  generate_tid (2 ^ 54) 0 = "2222222222222".
Proof. split; vm_compute; reflexivity. Qed.

End TID.

(* ================================================================== *)
(** ** The outbox: staging triggers on [federation_queue] (PL/pgSQL) *)
(* ================================================================== *)
Module Outbox.
Local Open Scope string_scope.

Definition uuid := string.
Definition text := string.
Definition timestamptz := Z.

(** *** JSONB values *)

(** [JTime t] stands for the TEXT that
    [to_char(t AT TIME ZONE 'UTC', 'YYYY-MM-DD"T"HH24:MI:SS.MS"Z"')] yields;
    the rendering is kept symbolic. *)
#[warnings="-register-all"] Inductive jsonb : Type :=
| JNull
| JString (s : text)
| JNumber (n : Z)
| JTime (t : timestamptz)
| JArray (l : list jsonb)
| JObject (fields : list (text * jsonb)).

(** A nullable TEXT argument of [jsonb_build_object] becomes JSON [null]. *)
Definition of_text (v : option text) : jsonb :=
  match v with Some s => JString s | None => JNull end.

Definition jsonb_build_object (fields : list (text * jsonb)) : jsonb :=
  JObject fields.

Fixpoint set_field (k : text) (v : jsonb) (fields : list (text * jsonb))
  : list (text * jsonb) :=
  match fields with
  | [] => [(k, v)]
  | (k', v') :: rest =>
      if String.eqb k k' then (k, v) :: rest
      else (k', v') :: set_field k v rest
  end.

(** [a || b] on two JSONB objects: the fields of [b] are added to [a], a
    field of [b] replacing one of the same name.  On two non-objects
    PostgreSQL builds an array of the two. *)
Definition jsonb_concat (a b : jsonb) : jsonb :=
  match a, b with
  | JObject fa, JObject fb =>
      JObject (fold_left (fun acc kv => set_field (fst kv) (snd kv) acc) fb fa)
  | JArray la, JArray lb => JArray (la ++ lb)
  | JArray la, _ => JArray (la ++ [b])
  | _, JArray lb => JArray (a :: lb)
  | _, _ => JArray [a; b]
  end.

(** [j -> k]: the field [k] of an object; SQL NULL when there is none. *)
Definition jsonb_get (j : jsonb) (k : text) : option jsonb :=
  match j with
  | JObject fields =>
      match find (fun kv => String.eqb (fst kv) k) fields with
      | Some kv => Some (snd kv)
      | None => None
      end
  | _ => None
  end.

(** *** Tables *)

Record profiles_row := {
  profiles_id : uuid;
  profiles_did : option text;
  profiles_handle : option text }.

Record posts_row := {
  posts_id : uuid;
  posts_user_id : uuid;
  posts_content : option text;
  posts_created_at : option timestamptz;
  posts_langs : option (list text);
  posts_facets : option jsonb;
  posts_thread_parent_id : option uuid;
  posts_thread_root_id : option uuid;
  posts_media_urls : option (list text);
  posts_rkey : option text;
  posts_at_uri : option text;
  posts_at_cid : option text }.

(** A row of [likes]; [reposts] has the same columns. *)
Record likes_row := {
  likes_id : uuid;
  likes_user_id : uuid;
  likes_post_id : option uuid;
  likes_subject_uri : option text;
  likes_subject_cid : option text;
  likes_rkey : option text;
  likes_at_uri : option text;
  likes_created_at : option timestamptz }.

Definition reposts_row := likes_row.

Record follows_row := {
  follows_id : uuid;
  follows_follower_id : uuid;
  follows_following_id : option uuid;
  follows_subject_did : option text;
  follows_rkey : option text;
  follows_at_uri : option text;
  follows_created_at : option timestamptz }.

Inductive record_type := rt_post | rt_reply | rt_like | rt_repost | rt_follow.
Inductive operation := op_create | op_update | op_delete.
Inductive status := st_pending | st_done | st_failed.

Record queue_row := {
  q_record_type : record_type;
  q_record_id : uuid;
  q_user_did : option text;
  q_collection : text;
  q_rkey : option text;
  q_at_uri : option text;
  q_record_data : option jsonb;
  q_operation : operation;
  q_status : status;
  q_attempts : Z;
  q_last_error : option text;
  q_created_at : timestamptz }.

Record DB := {
  profiles : list profiles_row;
  posts : list posts_row;
  likes : list likes_row;
  reposts : list reposts_row;
  follows : list follows_row;
  federation_queue : list queue_row }.

(** An error a statement raises: its SQLSTATE code and its message. *)
Record error := {
  sqlstate : text;
  sqlerrm : text }.

(** What a trigger run takes from outside the tables: [NOW()], the text
    [encode(gen_random_bytes(10), 'base64')], and the error, if any, that the
    [INSERT INTO federation_queue] statement raises (a constraint of the
    table, whose DDL is not among the migrations, a lock timeout, a
    statement timeout, ...).  The other statements of a trigger are taken
    to run without error. *)
Record Env := {
  now : timestamptz;
  random_base64 : text;
  queue_insert_error : option error }.

(** *** The unique key of the queue *)

Definition queue_key : Type := record_type * uuid * operation.

Definition key_of (r : queue_row) : queue_key :=
  (q_record_type r, q_record_id r, q_operation r).

Definition record_type_eqb (a b : record_type) : bool :=
  match a, b with
  | rt_post, rt_post | rt_reply, rt_reply | rt_like, rt_like
  | rt_repost, rt_repost | rt_follow, rt_follow => true
  | _, _ => false
  end.

Definition operation_eqb (a b : operation) : bool :=
  match a, b with
  | op_create, op_create | op_update, op_update | op_delete, op_delete => true
  | _, _ => false
  end.

Definition key_eqb (a b : queue_key) : bool :=
  let '(t1, i1, o1) := a in
  let '(t2, i2, o2) := b in
  record_type_eqb t1 t2 && String.eqb i1 i2 && operation_eqb o1 o2.

(** *** Statements *)

Inductive result (A : Type) : Type :=
| Ok (a : A)
| Raised (e : error).
Arguments Ok {A} a.
Arguments Raised {A} e.

(** A PL/pgSQL computation: reads and writes the tables, may raise. *)
Definition M (A : Type) : Type := DB -> result (A * DB).

Definition ret {A} (a : A) : M A := fun db => Ok (a, db).

Definition bind {A B} (m : M A) (k : A -> M B) : M B :=
  fun db => match m db with
            | Ok (a, db') => k a db'
            | Raised e => Raised e
            end.

Definition get_db : M DB := fun db => Ok (db, db).
Definition put_db (db : DB) : M unit := fun _ => Ok (tt, db).
Definition raise {A} (e : error) : M A := fun _ => Raised e.

(** The condition name [OTHERS] matches every error but two: QUERY_CANCELED
    (SQLSTATE 57014: a statement timeout, a cancel request) and
    ASSERT_FAILURE (P0004). *)
Definition matches_others (e : error) : bool :=
  negb (String.eqb (sqlstate e) "57014")
  && negb (String.eqb (sqlstate e) "P0004").

(** [BEGIN body EXCEPTION WHEN OTHERS THEN handler END]: an error in the body
    that [OTHERS] matches undoes the body's writes and runs the handler,
    which is given SQLERRM; any other error leaves the block. *)
Definition begin_exception {A} (body : M A) (handler : text -> M A) : M A :=
  fun db => match body db with
            | Ok r => Ok r
            | Raised e =>
                if matches_others e then handler (sqlerrm e) db else Raised e
            end.

Notation "x <- m ;; k" := (bind m (fun x => k))
  (at level 61, m at next level, right associativity).
Notation "m ;;; k" := (bind m (fun _ => k))
  (at level 61, right associativity).

(** [REPLACE(s, from, to)] for a one-character [from]. *)
Fixpoint REPLACE (s : text) (from : ascii) (to : text) : text :=
  match s with
  | EmptyString => EmptyString
  | String c s' =>
      if Ascii.eqb c from then to ++ REPLACE s' from to
      else String c (REPLACE s' from to)
  end.

Definition COALESCE {A} (a : option A) (b : A) : A :=
  match a with Some x => x | None => b end.

(** [SELECT did, handle INTO ... FROM profiles WHERE id = i]: the first
    matching row, NULLs when there is none. *)
Definition select_profile (db : DB) (i : uuid) : option text * option text :=
  match find (fun p => String.eqb (profiles_id p) i) (profiles db) with
  | Some p => (profiles_did p, profiles_handle p)
  | None => (None, None)
  end.

(** [SELECT at_uri, at_cid INTO ... FROM posts WHERE id = i]. *)
Definition select_post_ref (db : DB) (i : option uuid)
  : option text * option text :=
  match i with
  | None => (None, None)
  | Some i =>
      match find (fun p => String.eqb (posts_id p) i) (posts db) with
      | Some p => (posts_at_uri p, posts_at_cid p)
      | None => (None, None)
      end
  end.

Definition is_null {A} (a : option A) : bool :=
  match a with None => true | Some _ => false end.

Definition set_queue (db : DB) (q : list queue_row) : DB :=
  {| profiles := profiles db; posts := posts db; likes := likes db;
     reposts := reposts db; follows := follows db; federation_queue := q |}.

(** [ON CONFLICT (record_type, record_id, operation) DO UPDATE SET ...]:
    the row of the table that has the key of the proposed row [r] is replaced
    by [upd old r]; without such a row, [r] is inserted. *)
Fixpoint on_conflict_do_update (upd : queue_row -> queue_row -> queue_row)
         (r : queue_row) (q : list queue_row) : list queue_row :=
  match q with
  | [] => [r]
  | old :: rest =>
      if key_eqb (key_of old) (key_of r) then upd old r :: rest
      else old :: on_conflict_do_update upd r rest
  end.

(** [DO UPDATE SET record_data = EXCLUDED.record_data, status = 'pending',
    attempts = 0, last_error = NULL, created_at = NOW()] *)
Definition update_create (t : timestamptz) (old excluded : queue_row)
  : queue_row :=
  {| q_record_type := q_record_type old; q_record_id := q_record_id old;
     q_user_did := q_user_did old; q_collection := q_collection old;
     q_rkey := q_rkey old; q_at_uri := q_at_uri old;
     q_record_data := q_record_data excluded;
     q_operation := q_operation old;
     q_status := st_pending; q_attempts := 0; q_last_error := None;
     q_created_at := t |}.

(** [DO UPDATE SET status = 'pending', attempts = 0, last_error = NULL,
    created_at = NOW()] *)
Definition update_delete (t : timestamptz) (old excluded : queue_row)
  : queue_row :=
  {| q_record_type := q_record_type old; q_record_id := q_record_id old;
     q_user_did := q_user_did old; q_collection := q_collection old;
     q_rkey := q_rkey old; q_at_uri := q_at_uri old;
     q_record_data := q_record_data old;
     q_operation := q_operation old;
     q_status := st_pending; q_attempts := 0; q_last_error := None;
     q_created_at := t |}.

(** The row an [INSERT INTO federation_queue (record_type, record_id,
    user_did, collection, rkey, at_uri, record_data, operation, status)]
    proposes; the columns it does not list take the table's defaults
    ([attempts] 0, [last_error] NULL, [created_at] now). *)
Definition proposed_row (env : Env) (rt : record_type) (id : uuid)
    (did : option text) (coll : text) (rkey at_uri : option text)
    (data : option jsonb) (op : operation) : queue_row :=
  {| q_record_type := rt; q_record_id := id; q_user_did := did;
     q_collection := coll; q_rkey := rkey; q_at_uri := at_uri;
     q_record_data := data; q_operation := op; q_status := st_pending;
     q_attempts := 0; q_last_error := None; q_created_at := now env |}.

(** The proposed rows go in one after the other. *)
Definition upsert_all (upd : queue_row -> queue_row -> queue_row)
    (rows : list queue_row) (q : list queue_row) : list queue_row :=
  fold_left (fun q r => on_conflict_do_update upd r q) rows q.

(** The [INSERT ... ON CONFLICT ... DO UPDATE] statement on the queue. *)
Definition insert_into_federation_queue (env : Env)
    (upd : queue_row -> queue_row -> queue_row) (rows : list queue_row)
  : M unit :=
  match queue_insert_error env with
  | Some e => raise e
  | None =>
      db <- get_db ;;
      put_db (set_queue db (upsert_all upd rows (federation_queue db)))
  end.

(** [UPDATE posts SET rkey = .., at_uri = .. WHERE id = i AND (rkey IS NULL
    OR at_uri IS NULL)] *)
Definition update_posts_keys (i : uuid) (rkey at_uri : text) : M unit :=
  db <- get_db ;;
  put_db
    {| profiles := profiles db;
       posts := map (fun p =>
         if String.eqb (posts_id p) i
            && (is_null (posts_rkey p) || is_null (posts_at_uri p))
         then {| posts_id := posts_id p; posts_user_id := posts_user_id p;
                 posts_content := posts_content p;
                 posts_created_at := posts_created_at p;
                 posts_langs := posts_langs p; posts_facets := posts_facets p;
                 posts_thread_parent_id := posts_thread_parent_id p;
                 posts_thread_root_id := posts_thread_root_id p;
                 posts_media_urls := posts_media_urls p;
                 posts_rkey := Some rkey; posts_at_uri := Some at_uri;
                 posts_at_cid := posts_at_cid p |}
         else p) (posts db);
       likes := likes db; reposts := reposts db; follows := follows db;
       federation_queue := federation_queue db |}.

(** [SET rkey = .., at_uri = .., subject_uri = .., subject_cid = ..] on the
    rows with [id = i] of a likes-shaped table. *)
Definition set_like_keys (i : uuid) (rkey at_uri : text)
    (subject_uri subject_cid : text) (rows : list likes_row)
  : list likes_row :=
  map (fun l =>
    if String.eqb (likes_id l) i
    then {| likes_id := likes_id l; likes_user_id := likes_user_id l;
            likes_post_id := likes_post_id l;
            likes_subject_uri := Some subject_uri;
            likes_subject_cid := Some subject_cid;
            likes_rkey := Some rkey; likes_at_uri := Some at_uri;
            likes_created_at := likes_created_at l |}
    else l) rows.

Definition update_likes_keys (i : uuid) (rkey at_uri su sc : text) : M unit :=
  db <- get_db ;;
  put_db {| profiles := profiles db; posts := posts db;
            likes := set_like_keys i rkey at_uri su sc (likes db);
            reposts := reposts db; follows := follows db;
            federation_queue := federation_queue db |}.

Definition update_reposts_keys (i : uuid) (rkey at_uri su sc : text)
  : M unit :=
  db <- get_db ;;
  put_db {| profiles := profiles db; posts := posts db; likes := likes db;
            reposts := set_like_keys i rkey at_uri su sc (reposts db);
            follows := follows db;
            federation_queue := federation_queue db |}.

Definition update_follows_keys (i : uuid) (rkey at_uri subject_did : text)
  : M unit :=
  db <- get_db ;;
  put_db {| profiles := profiles db; posts := posts db; likes := likes db;
            reposts := reposts db;
            follows := map (fun f =>
              if String.eqb (follows_id f) i
              then {| follows_id := follows_id f;
                      follows_follower_id := follows_follower_id f;
                      follows_following_id := follows_following_id f;
                      follows_subject_did := Some subject_did;
                      follows_rkey := Some rkey; follows_at_uri := Some at_uri;
                      follows_created_at := follows_created_at f |}
              else f) (follows db);
            federation_queue := federation_queue db |}.

(** [REPLACE(REPLACE(REPLACE(encode(gen_random_bytes(10), 'base64'),
    '/', '_'), '+', '-'), '=', '')] *)
Definition random_rkey (env : Env) : text :=
  REPLACE (REPLACE (REPLACE (random_base64 env) "/" "_") "+" "-") "=" "".

Definition created_at_text (env : Env) (c : option timestamptz) : jsonb :=
  JTime (COALESCE c (now env)).

(** *** The trigger functions of the comprehensive-fix migration *)

Definition queue_post_for_federation (env : Env) (NEW : posts_row)
  : M posts_row :=
  db <- get_db ;;
  let '(v_user_did, v_user_handle) := select_profile db (posts_user_id NEW) in
  match v_user_did with
  | None => ret NEW
  | Some v_user_did =>
    let v_rkey :=
      COALESCE (posts_rkey NEW)
               (REPLACE (REPLACE (random_base64 env) "/" "_") "+" "-") in
    let v_rkey := REPLACE v_rkey "=" "" in
    let v_at_uri := "at://" ++ v_user_did ++ "/app.bsky.feed.post/" ++ v_rkey in
    update_posts_keys (posts_id NEW) v_rkey v_at_uri ;;;
    db <- get_db ;;
    let v_record_data := jsonb_build_object
      [("$type", JString "app.bsky.feed.post");
       ("text", JString (COALESCE (posts_content NEW) ""));
       ("createdAt", created_at_text env (posts_created_at NEW));
       ("langs", JArray (map JString (COALESCE (posts_langs NEW) ["en"])))] in
    let v_record_data :=
      match posts_facets NEW with
      | Some f => jsonb_concat v_record_data (jsonb_build_object [("facets", f)])
      | None => v_record_data
      end in
    let v_record_data :=
      match posts_thread_parent_id NEW with
      | Some parent_id =>
        let '(v_parent_uri, v_parent_cid) := select_post_ref db (Some parent_id) in
        let '(v_root_uri, v_root_cid) :=
          match posts_thread_root_id NEW with
          | Some root_id =>
              if negb (String.eqb root_id parent_id)
              then select_post_ref db (Some root_id)
              else (v_parent_uri, v_parent_cid)
          | None => (v_parent_uri, v_parent_cid)
          end in
        match v_parent_uri, v_parent_cid with
        | Some pu, Some pc =>
            jsonb_concat v_record_data (jsonb_build_object
              [("reply", jsonb_build_object
                 [("parent", jsonb_build_object
                     [("uri", JString pu); ("cid", JString pc)]);
                  ("root", jsonb_build_object
                     [("uri", JString (COALESCE v_root_uri pu));
                      ("cid", JString (COALESCE v_root_cid pc))])])])
        | _, _ => v_record_data
        end
      | None => v_record_data
      end in
    let v_record_data :=
      match posts_media_urls NEW with
      | Some (u :: urls) =>
          jsonb_concat v_record_data (jsonb_build_object
            [("embed", jsonb_build_object
               [("$type", JString "app.bsky.embed.images");
                ("images", JArray (map (fun url => jsonb_build_object
                   [("image", jsonb_build_object
                       [("$type", JString "blob");
                        ("ref", jsonb_build_object [("$link", JString url)]);
                        ("mimeType", JString "image/jpeg");
                        ("size", JNumber 0)]);
                    ("alt", JString "")]) (u :: urls)))])])
      | _ => v_record_data
      end in
    insert_into_federation_queue env (update_create (now env))
      [proposed_row env
         (if is_null (posts_thread_parent_id NEW) then rt_post else rt_reply)
         (posts_id NEW) (Some v_user_did) "app.bsky.feed.post"
         (Some v_rkey) (Some v_at_uri) (Some v_record_data) op_create] ;;;
    ret NEW
  end.

(** The rows of [SELECT ..., p.did, ... FROM profiles p WHERE p.id = i AND
    p.did IS NOT NULL], one proposed queue row for each. *)
Definition delete_rows (env : Env) (db : DB) (rt : record_type) (id : uuid)
    (owner : uuid) (coll : text) (rkey at_uri : option text)
  : list queue_row :=
  map (fun p => proposed_row env rt id (profiles_did p) coll rkey at_uri
                             None op_delete)
      (filter (fun p => String.eqb (profiles_id p) owner
                        && negb (is_null (profiles_did p)))
              (profiles db)).

Definition queue_post_deletion_for_federation (env : Env) (OLD : posts_row)
  : M posts_row :=
  match posts_at_uri OLD with
  | Some _ =>
      db <- get_db ;;
      insert_into_federation_queue env (update_delete (now env))
        (delete_rows env db
           (if is_null (posts_thread_parent_id OLD) then rt_post else rt_reply)
           (posts_id OLD) (posts_user_id OLD) "app.bsky.feed.post"
           (posts_rkey OLD) (posts_at_uri OLD)) ;;;
      ret OLD
  | None => ret OLD
  end.

(** The subject reference of a like or repost: the row's own
    [subject_uri]/[subject_cid], looked up again from [posts] when either is
    missing. *)
Definition resolve_subject (db : DB) (NEW : likes_row)
  : option text * option text :=
  if is_null (likes_subject_uri NEW) || is_null (likes_subject_cid NEW)
  then select_post_ref db (likes_post_id NEW)
  else (likes_subject_uri NEW, likes_subject_cid NEW).

Definition queue_like_for_federation (env : Env) (NEW : likes_row)
  : M likes_row :=
  db <- get_db ;;
  match fst (select_profile db (likes_user_id NEW)) with
  | None => ret NEW
  | Some v_user_did =>
    let '(v_post_at_uri, v_post_at_cid) := resolve_subject db NEW in
    match v_post_at_uri with
    | None => ret NEW
    | Some v_post_at_uri =>
      match v_post_at_cid with
      | None => ret NEW
      | Some v_post_at_cid =>
        let v_rkey := COALESCE (likes_rkey NEW) (random_rkey env) in
        let v_at_uri :=
          "at://" ++ v_user_did ++ "/app.bsky.feed.like/" ++ v_rkey in
        update_likes_keys (likes_id NEW) v_rkey v_at_uri
                          v_post_at_uri v_post_at_cid ;;;
        let v_record_data := jsonb_build_object
          [("$type", JString "app.bsky.feed.like");
           ("subject", jsonb_build_object
              [("uri", JString v_post_at_uri); ("cid", JString v_post_at_cid)]);
           ("createdAt", created_at_text env (likes_created_at NEW))] in
        insert_into_federation_queue env (update_create (now env))
          [proposed_row env rt_like (likes_id NEW) (Some v_user_did)
             "app.bsky.feed.like" (Some v_rkey) (Some v_at_uri)
             (Some v_record_data) op_create] ;;;
        ret NEW
      end
    end
  end.

Definition queue_unlike_for_federation (env : Env) (OLD : likes_row)
  : M likes_row :=
  match likes_at_uri OLD with
  | Some _ =>
      db <- get_db ;;
      insert_into_federation_queue env (update_delete (now env))
        (delete_rows env db rt_like (likes_id OLD) (likes_user_id OLD)
           "app.bsky.feed.like" (likes_rkey OLD) (likes_at_uri OLD)) ;;;
      ret OLD
  | None => ret OLD
  end.

Definition queue_repost_for_federation (env : Env) (NEW : reposts_row)
  : M reposts_row :=
  db <- get_db ;;
  match fst (select_profile db (likes_user_id NEW)) with
  | None => ret NEW
  | Some v_user_did =>
    let '(v_post_at_uri, v_post_at_cid) := resolve_subject db NEW in
    match v_post_at_uri with
    | None => ret NEW
    | Some v_post_at_uri =>
      match v_post_at_cid with
      | None => ret NEW
      | Some v_post_at_cid =>
        let v_rkey := COALESCE (likes_rkey NEW) (random_rkey env) in
        let v_at_uri :=
          "at://" ++ v_user_did ++ "/app.bsky.feed.repost/" ++ v_rkey in
        update_reposts_keys (likes_id NEW) v_rkey v_at_uri
                            v_post_at_uri v_post_at_cid ;;;
        let v_record_data := jsonb_build_object
          [("$type", JString "app.bsky.feed.repost");
           ("subject", jsonb_build_object
              [("uri", JString v_post_at_uri); ("cid", JString v_post_at_cid)]);
           ("createdAt", created_at_text env (likes_created_at NEW))] in
        insert_into_federation_queue env (update_create (now env))
          [proposed_row env rt_repost (likes_id NEW) (Some v_user_did)
             "app.bsky.feed.repost" (Some v_rkey) (Some v_at_uri)
             (Some v_record_data) op_create] ;;;
        ret NEW
      end
    end
  end.

Definition queue_unrepost_for_federation (env : Env) (OLD : reposts_row)
  : M reposts_row :=
  match likes_at_uri OLD with
  | Some _ =>
      db <- get_db ;;
      insert_into_federation_queue env (update_delete (now env))
        (delete_rows env db rt_repost (likes_id OLD) (likes_user_id OLD)
           "app.bsky.feed.repost" (likes_rkey OLD) (likes_at_uri OLD)) ;;;
      ret OLD
  | None => ret OLD
  end.

Definition queue_follow_for_federation (env : Env) (NEW : follows_row)
  : M follows_row :=
  db <- get_db ;;
  match fst (select_profile db (follows_follower_id NEW)) with
  | None => ret NEW
  | Some v_follower_did =>
    let v_following_did :=
      match follows_subject_did NEW with
      | Some d => Some d
      | None =>
          match follows_following_id NEW with
          | Some i => fst (select_profile db i)
          | None => None
          end
      end in
    match v_following_did with
    | None => ret NEW
    | Some v_following_did =>
      let v_rkey := COALESCE (follows_rkey NEW) (random_rkey env) in
      let v_at_uri :=
        "at://" ++ v_follower_did ++ "/app.bsky.graph.follow/" ++ v_rkey in
      update_follows_keys (follows_id NEW) v_rkey v_at_uri v_following_did ;;;
      let v_record_data := jsonb_build_object
        [("$type", JString "app.bsky.graph.follow");
         ("subject", JString v_following_did);
         ("createdAt", created_at_text env (follows_created_at NEW))] in
      insert_into_federation_queue env (update_create (now env))
        [proposed_row env rt_follow (follows_id NEW) (Some v_follower_did)
           "app.bsky.graph.follow" (Some v_rkey) (Some v_at_uri)
           (Some v_record_data) op_create] ;;;
      ret NEW
    end
  end.

Definition queue_unfollow_for_federation (env : Env) (OLD : follows_row)
  : M follows_row :=
  match follows_at_uri OLD with
  | Some _ =>
      db <- get_db ;;
      insert_into_federation_queue env (update_delete (now env))
        (delete_rows env db rt_follow (follows_id OLD) (follows_follower_id OLD)
           "app.bsky.graph.follow" (follows_rkey OLD) (follows_at_uri OLD)) ;;;
      ret OLD
  | None => ret OLD
  end.

(** *** The unrepost trigger of the with-logging migration
    (20251221164000_fix_unrepost_trigger_with_logging.sql) *)
Module Logging.

Definition queue_unrepost_for_federation (env : Env) (OLD : reposts_row)
  : M reposts_row :=
  begin_exception
    (match likes_at_uri OLD with
     | None => ret OLD
     | Some _ =>
         db <- get_db ;;
         match fst (select_profile db (likes_user_id OLD)) with
         | None => ret OLD
         | Some v_user_did =>
             insert_into_federation_queue env (update_delete (now env))
               [proposed_row env rt_repost (likes_id OLD) (Some v_user_did)
                  "app.bsky.feed.repost" (likes_rkey OLD) (likes_at_uri OLD)
                  None op_delete] ;;;
             ret OLD
         end
     end)
    (fun _sqlerrm =>
       (* Don't fail the delete, just log the error *)
       ret OLD).

End Logging.

(** *** Local mutations and the triggers they fire *)

(** The outcome of the statement that fired a trigger: an error that leaves
    the trigger function aborts the statement and undoes its writes; the
    client is given the message. *)
Inductive txn_result : Type :=
| Committed (db : DB)
| Aborted (sqlerrm : text).

Definition with_trigger {A} (mutation : DB -> DB) (trigger : M A) (db : DB)
  : txn_result :=
  match trigger (mutation db) with
  | Ok (_, db') => Committed db'
  | Raised e => Aborted (sqlerrm e)
  end.

Definition add_post (NEW : posts_row) (db : DB) : DB :=
  {| profiles := profiles db; posts := posts db ++ [NEW]; likes := likes db;
     reposts := reposts db; follows := follows db;
     federation_queue := federation_queue db |}.

Definition remove_repost (OLD : reposts_row) (db : DB) : DB :=
  {| profiles := profiles db; posts := posts db; likes := likes db;
     reposts := filter (fun r => negb (String.eqb (likes_id r) (likes_id OLD)))
                       (reposts db);
     follows := follows db; federation_queue := federation_queue db |}.

(** [INSERT INTO posts] with [queue_post_for_federation] on it. *)
Definition insert_post (env : Env) (NEW : posts_row) : DB -> txn_result :=
  with_trigger (add_post NEW) (queue_post_for_federation env NEW).

(** [DELETE FROM reposts] with the logging [queue_unrepost_for_federation]. *)
Definition delete_repost (env : Env) (OLD : reposts_row) : DB -> txn_result :=
  with_trigger (remove_repost OLD) (Logging.queue_unrepost_for_federation env OLD).

(** *** Staging operations *)

Inductive staging_op : Type :=
| StagePost (NEW : posts_row)
| StagePostDeletion (OLD : posts_row)
| StageLike (NEW : likes_row)
| StageUnlike (OLD : likes_row)
| StageRepost (NEW : reposts_row)
| StageUnrepost (OLD : reposts_row)
| StageUnrepostLogging (OLD : reposts_row)
| StageFollow (NEW : follows_row)
| StageUnfollow (OLD : follows_row).

(** The tables after a trigger function ran; after an error, as before. *)
Definition run {A} (m : M A) (db : DB) : DB :=
  match m db with
  | Ok (_, db') => db'
  | Raised _ => db
  end.

Definition stage (env : Env) (op : staging_op) : DB -> DB :=
  match op with
  | StagePost NEW => run (queue_post_for_federation env NEW)
  | StagePostDeletion OLD => run (queue_post_deletion_for_federation env OLD)
  | StageLike NEW => run (queue_like_for_federation env NEW)
  | StageUnlike OLD => run (queue_unlike_for_federation env OLD)
  | StageRepost NEW => run (queue_repost_for_federation env NEW)
  | StageUnrepost OLD => run (queue_unrepost_for_federation env OLD)
  | StageUnrepostLogging OLD =>
      run (Logging.queue_unrepost_for_federation env OLD)
  | StageFollow NEW => run (queue_follow_for_federation env NEW)
  | StageUnfollow OLD => run (queue_unfollow_for_federation env OLD)
  end.

Definition stage_all (ops : list (Env * staging_op)) (db : DB) : DB :=
  fold_left (fun d eo => stage (fst eo) (snd eo) d) ops db.

(** The logical mutation an operation stands for, as a queue key. *)
Definition op_key (op : staging_op) : queue_key :=
  match op with
  | StagePost NEW =>
      (if is_null (posts_thread_parent_id NEW) then rt_post else rt_reply,
       posts_id NEW, op_create)
  | StagePostDeletion OLD =>
      (if is_null (posts_thread_parent_id OLD) then rt_post else rt_reply,
       posts_id OLD, op_delete)
  | StageLike NEW => (rt_like, likes_id NEW, op_create)
  | StageUnlike OLD => (rt_like, likes_id OLD, op_delete)
  | StageRepost NEW => (rt_repost, likes_id NEW, op_create)
  | StageUnrepost OLD | StageUnrepostLogging OLD =>
      (rt_repost, likes_id OLD, op_delete)
  | StageFollow NEW => (rt_follow, follows_id NEW, op_create)
  | StageUnfollow OLD => (rt_follow, follows_id OLD, op_delete)
  end.

Definition unique_keys (q : list queue_row) : Prop := NoDup (map key_of q).

(** A freshly reset row: [status = 'pending', attempts = 0,
    last_error = NULL]. *)
Definition is_reset (r : queue_row) : Prop :=
  q_status r = st_pending /\ q_attempts r = 0%Z /\ q_last_error r = None.

(** [record_data -> 'subject' -> 'cid'] *)
Definition subject_cid (r : queue_row) : option jsonb :=
  match q_record_data r with
  | Some d =>
      match jsonb_get d "subject" with
      | Some s => jsonb_get s "cid"
      | None => None
      end
  | None => None
  end.

(** A like or repost [create] row carries a subject content hash. *)
Definition carries_subject_cid (r : queue_row) : bool :=
  match q_record_type r, q_operation r with
  | rt_like, op_create | rt_repost, op_create =>
      match subject_cid r with
      | Some (JString _) => true
      | _ => false
      end
  | _, _ => true
  end.

Definition is_create (op : staging_op) : bool :=
  match op with
  | StagePost _ | StageLike _ | StageRepost _ | StageFollow _ => true
  | _ => false
  end.

(** The [DO UPDATE SET] list an operation's [INSERT] carries. *)
Definition upd_of (env : Env) (op : staging_op)
  : queue_row -> queue_row -> queue_row :=
  if is_create op then update_create (now env) else update_delete (now env).

(** What the triggers propose for insertion on behalf of [op]. *)
Definition staged_row (op : staging_op) (r : queue_row) : Prop :=
  key_of r = op_key op /\ is_reset r /\ carries_subject_cid r = true.

(** A profile row with [id = owner] and a DID exists. *)
Definition has_did (db : DB) (owner : uuid) : bool :=
  existsb (fun p => String.eqb (profiles_id p) owner
                    && negb (is_null (profiles_did p))) (profiles db).

(** The guards of the trigger function pass: control reaches the INSERT
    with a row to propose. *)
Definition reaches_insert (op : staging_op) (db : DB) : bool :=
  match op with
  | StagePost NEW =>
      negb (is_null (fst (select_profile db (posts_user_id NEW))))
  | StagePostDeletion OLD =>
      negb (is_null (posts_at_uri OLD)) && has_did db (posts_user_id OLD)
  | StageLike NEW | StageRepost NEW =>
      negb (is_null (fst (select_profile db (likes_user_id NEW))))
      && negb (is_null (fst (resolve_subject db NEW)))
      && negb (is_null (snd (resolve_subject db NEW)))
  | StageUnlike OLD | StageUnrepost OLD =>
      negb (is_null (likes_at_uri OLD)) && has_did db (likes_user_id OLD)
  | StageUnrepostLogging OLD =>
      negb (is_null (likes_at_uri OLD))
      && negb (is_null (fst (select_profile db (likes_user_id OLD))))
  | StageFollow NEW =>
      negb (is_null (fst (select_profile db (follows_follower_id NEW))))
      && negb (is_null
           (match follows_subject_did NEW with
            | Some d => Some d
            | None =>
                match follows_following_id NEW with
                | Some i => fst (select_profile db i)
                | None => None
                end
            end))
  | StageUnfollow OLD =>
      negb (is_null (follows_at_uri OLD)) && has_did db (follows_follower_id OLD)
  end.

(** The trigger function of an operation, its return value dropped. *)
Definition outcome {A} (m : M A) (db : DB) : result DB :=
  match m db with
  | Ok (_, db') => Ok db'
  | Raised e => Raised e
  end.

Definition trigger (env : Env) (op : staging_op) : DB -> result DB :=
  match op with
  | StagePost NEW => outcome (queue_post_for_federation env NEW)
  | StagePostDeletion OLD => outcome (queue_post_deletion_for_federation env OLD)
  | StageLike NEW => outcome (queue_like_for_federation env NEW)
  | StageUnlike OLD => outcome (queue_unlike_for_federation env OLD)
  | StageRepost NEW => outcome (queue_repost_for_federation env NEW)
  | StageUnrepost OLD => outcome (queue_unrepost_for_federation env OLD)
  | StageUnrepostLogging OLD =>
      outcome (Logging.queue_unrepost_for_federation env OLD)
  | StageFollow NEW => outcome (queue_follow_for_federation env NEW)
  | StageUnfollow OLD => outcome (queue_unfollow_for_federation env OLD)
  end.

Definition has_handler (op : staging_op) : bool :=
  match op with StageUnrepostLogging _ => true | _ => false end.

(** A subject reference is unconfirmed when, after the fall-back to the
    [posts] table, its URI or its content hash is NULL. *)
Definition subject_unconfirmed (db : DB) (NEW : likes_row) : Prop :=
  fst (resolve_subject db NEW) = None \/ snd (resolve_subject db NEW) = None.

(** *** Sample data *)
Module Sample.

Definition alice : profiles_row :=
  {| profiles_id := "u-alice"; profiles_did := Some "did:plc:alice";
     profiles_handle := Some "alice.cannect.space" |}.

Definition bob : profiles_row :=
  {| profiles_id := "u-bob"; profiles_did := Some "did:plc:bob";
     profiles_handle := Some "bob.cannect.space" |}.

(** A post of alice that the Sync Worker has not delivered yet. *)
Definition hello : posts_row :=
  {| posts_id := "p-hello"; posts_user_id := "u-alice";
     posts_content := Some "Hello"; posts_created_at := Some 900%Z;
     posts_langs := None; posts_facets := None;
     posts_thread_parent_id := None; posts_thread_root_id := None;
     posts_media_urls := None; posts_rkey := None; posts_at_uri := None;
     posts_at_cid := None |}.

(** The same post with its keys written, the content hash still missing. *)
Definition hello_keyed : posts_row :=
  {| posts_id := "p-hello"; posts_user_id := "u-alice";
     posts_content := Some "Hello"; posts_created_at := Some 900%Z;
     posts_langs := None; posts_facets := None;
     posts_thread_parent_id := None; posts_thread_root_id := None;
     posts_media_urls := None; posts_rkey := Some "q83vEjRWeJCrzQ";
     posts_at_uri := Some "at://did:plc:alice/app.bsky.feed.post/q83vEjRWeJCrzQ";
     posts_at_cid := None |}.

(** The same post after delivery: the content hash is known. *)
Definition hello_confirmed : posts_row :=
  {| posts_id := "p-hello"; posts_user_id := "u-alice";
     posts_content := Some "Hello"; posts_created_at := Some 900%Z;
     posts_langs := None; posts_facets := None;
     posts_thread_parent_id := None; posts_thread_root_id := None;
     posts_media_urls := None; posts_rkey := Some "q83vEjRWeJCrzQ";
     posts_at_uri := Some "at://did:plc:alice/app.bsky.feed.post/q83vEjRWeJCrzQ";
     posts_at_cid := Some "bafyreihello" |}.

(** Bob likes alice's post. *)
Definition like1 : likes_row :=
  {| likes_id := "l-1"; likes_user_id := "u-bob";
     likes_post_id := Some "p-hello"; likes_subject_uri := None;
     likes_subject_cid := None; likes_rkey := None; likes_at_uri := None;
     likes_created_at := Some 950%Z |}.

(** A repost of bob's that was federated, about to be deleted. *)
Definition repost1 : reposts_row :=
  {| likes_id := "r-1"; likes_user_id := "u-bob";
     likes_post_id := Some "p-hello";
     likes_subject_uri := Some "at://did:plc:alice/app.bsky.feed.post/q83vEjRWeJCrzQ";
     likes_subject_cid := Some "bafyreihello";
     likes_rkey := Some "3kabcdefghijk";
     likes_at_uri := Some "at://did:plc:bob/app.bsky.feed.repost/3kabcdefghijk";
     likes_created_at := Some 960%Z |}.

Definition env0 : Env :=
  {| now := 1000%Z; random_base64 := "q83vEjRWeJCrzQ==";
     queue_insert_error := None |}.

Definition env1 : Env :=
  {| now := 2000%Z; random_base64 := "AAECAwQFBgcICQ==";
     queue_insert_error := None |}.

(** The error of a [lock_timeout] that ran out (lock_not_available), and
    the one of a [statement_timeout] (query_canceled). *)
Definition lock_timeout : error :=
  {| sqlstate := "55P03";
     sqlerrm := "canceling statement due to lock timeout" |}.

Definition statement_timeout : error :=
  {| sqlstate := "57014";
     sqlerrm := "canceling statement due to statement timeout" |}.

(** An environment in which the INSERT into the queue raises. *)
Definition env_failing : Env :=
  {| now := 1000%Z; random_base64 := "q83vEjRWeJCrzQ==";
     queue_insert_error := Some lock_timeout |}.

(** One in which the INSERT runs into the statement timeout. *)
Definition env_timed_out : Env :=
  {| now := 1000%Z; random_base64 := "q83vEjRWeJCrzQ==";
     queue_insert_error := Some statement_timeout |}.

Definition db_empty : DB :=
  {| profiles := [alice; bob]; posts := []; likes := []; reposts := [];
     follows := []; federation_queue := [] |}.

(** Alice's post is stored but not delivered; bob's like row is stored. *)
Definition db_unconfirmed : DB :=
  {| profiles := [alice; bob]; posts := [hello_keyed]; likes := [like1];
     reposts := []; follows := []; federation_queue := [] |}.

Definition db_confirmed : DB :=
  {| profiles := [alice; bob]; posts := [hello_confirmed]; likes := [like1];
     reposts := [repost1]; follows := []; federation_queue := [] |}.

(** The queue row of bob's like after the Sync Worker gave up on it. *)
Definition like1_failed : queue_row :=
  {| q_record_type := rt_like; q_record_id := "l-1";
     q_user_did := Some "did:plc:bob"; q_collection := "app.bsky.feed.like";
     q_rkey := Some "q83vEjRWeJCrzQ";
     q_at_uri := Some "at://did:plc:bob/app.bsky.feed.like/q83vEjRWeJCrzQ";
     q_record_data := None; q_operation := op_create; q_status := st_failed;
     q_attempts := 5%Z; q_last_error := Some "fetch failed";
     q_created_at := 1000%Z |}.

Definition db_failed : DB :=
  {| profiles := [alice; bob]; posts := [hello_confirmed]; likes := [like1];
     reposts := [repost1]; follows := []; federation_queue := [like1_failed] |}.

End Sample.

(** *** Proofs *)

Lemma record_type_eqb_eq a b : record_type_eqb a b = true <-> a = b.
Proof. destruct a, b; simpl; split; intros H; congruence. Qed.

Lemma operation_eqb_eq a b : operation_eqb a b = true <-> a = b.
Proof. destruct a, b; simpl; split; intros H; congruence. Qed.

Lemma key_eqb_eq (a b : queue_key) : key_eqb a b = true <-> a = b.
Proof.
  destruct a as [[t1 i1] o1], b as [[t2 i2] o2]. unfold key_eqb.
  rewrite !andb_true_iff, record_type_eqb_eq, String.eqb_eq, operation_eqb_eq.
  split; [intros [[-> ->] ->]; reflexivity | intros H; inversion H; auto].
Qed.

Lemma key_eqb_neq (a b : queue_key) : key_eqb a b = false <-> a <> b.
Proof.
  rewrite <- key_eqb_eq. destruct (key_eqb a b); split; congruence.
Qed.

Definition key_eq_dec (a b : queue_key) : {a = b} + {a <> b}.
Proof.
  destruct (key_eqb a b) eqn:E.
  - left. now apply key_eqb_eq.
  - right. now apply key_eqb_neq.
Defined.

Section OnConflict.
Variable upd : queue_row -> queue_row -> queue_row.
Hypothesis upd_key : forall old r, key_of (upd old r) = key_of old.

Lemma on_conflict_keys_present r q :
  In (key_of r) (map key_of q) ->
  map key_of (on_conflict_do_update upd r q) = map key_of q.
Proof.
  induction q as [|old q IH]; cbn [on_conflict_do_update map];
    [intros []|].
  intros Hin.
  destruct (key_eqb (key_of old) (key_of r)) eqn:E; cbn [map].
  - now rewrite upd_key.
  - f_equal. apply IH. destruct Hin as [Hin | Hin]; [|exact Hin].
    apply key_eqb_neq in E. congruence.
Qed.

Lemma on_conflict_keys_absent r q :
  ~ In (key_of r) (map key_of q) ->
  on_conflict_do_update upd r q = (q ++ [r])%list.
Proof.
  induction q as [|old q IH]; cbn [on_conflict_do_update map app];
    [reflexivity|].
  intros Hin.
  destruct (key_eqb (key_of old) (key_of r)) eqn:E.
  - apply key_eqb_eq in E. exfalso. apply Hin. now left.
  - f_equal. apply IH. intros H. apply Hin. now right.
Qed.

Lemma on_conflict_unique r q :
  unique_keys q -> unique_keys (on_conflict_do_update upd r q).
Proof.
  unfold unique_keys. intros Hq.
  destruct (in_dec (fun a b => match Bool.bool_dec (key_eqb a b) true with
                               | left e => left (proj1 (key_eqb_eq a b) e)
                               | right n => right (fun e => n (proj2 (key_eqb_eq a b) e))
                               end)
                   (key_of r) (map key_of q)) as [Hin | Hout].
  - now rewrite on_conflict_keys_present.
  - rewrite on_conflict_keys_absent by exact Hout.
    rewrite map_app. cbn [map].
    apply NoDup_app; [exact Hq | repeat constructor; simpl; tauto |].
    intros k Hk [<- | []]. tauto.
Qed.

Lemma on_conflict_length_present r q :
  In (key_of r) (map key_of q) ->
  List.length (on_conflict_do_update upd r q) = List.length q.
Proof.
  intros Hin.
  rewrite <- (length_map key_of), on_conflict_keys_present by exact Hin.
  apply length_map.
Qed.

Lemma on_conflict_key_stays r q :
  In (key_of r) (map key_of (on_conflict_do_update upd r q)).
Proof.
  induction q as [|old q IH]; cbn [on_conflict_do_update map In];
    [now left|].
  destruct (key_eqb (key_of old) (key_of r)) eqn:E; cbn [map In].
  - left. rewrite upd_key. now apply key_eqb_eq.
  - now right.
Qed.

Lemma on_conflict_Forall (P : queue_row -> Prop) r q :
  Forall P q -> P r ->
  (forall old, P old -> key_of old = key_of r -> P (upd old r)) ->
  Forall P (on_conflict_do_update upd r q).
Proof.
  intros Hq Hr Hupd.
  induction Hq as [|old q Hold Hq IH]; cbn [on_conflict_do_update].
  - now constructor.
  - destruct (key_eqb (key_of old) (key_of r)) eqn:E.
    + constructor; [|exact Hq]. apply Hupd; [exact Hold | now apply key_eqb_eq].
    + now constructor.
Qed.

Lemma on_conflict_others r q x :
  In x (on_conflict_do_update upd r q) -> key_of x <> key_of r -> In x q.
Proof.
  induction q as [|old q IH]; cbn [on_conflict_do_update].
  - intros [<- | []] Hk. congruence.
  - destruct (key_eqb (key_of old) (key_of r)) eqn:E.
    + intros [<- | Hin] Hk; [|now right].
      rewrite upd_key in Hk. apply key_eqb_eq in E. congruence.
    + intros [<- | Hin] Hk; [now left | right; auto].
Qed.

Hypothesis upd_reset : forall old r, is_reset (upd old r).

Lemma on_conflict_reset r q x :
  unique_keys q -> is_reset r ->
  In x (on_conflict_do_update upd r q) -> key_of x = key_of r -> is_reset x.
Proof.
  unfold unique_keys. intros Hq Hr.
  induction q as [|old q IH]; cbn [on_conflict_do_update].
  - intros [<- | []] _. exact Hr.
  - cbn [map] in Hq. inversion Hq as [|k ks Hnotin Hq']; subst.
    destruct (key_eqb (key_of old) (key_of r)) eqn:E.
    + intros [<- | Hin] Hk; [apply upd_reset|].
      apply key_eqb_eq in E. exfalso. apply Hnotin.
      rewrite E, <- Hk. now apply in_map.
    + intros [<- | Hin] Hk.
      * apply key_eqb_neq in E. congruence.
      * now apply IH.
Qed.

End OnConflict.

Lemma update_create_key t old r : key_of (update_create t old r) = key_of old.
Proof. reflexivity. Qed.

Lemma update_delete_key t old r : key_of (update_delete t old r) = key_of old.
Proof. reflexivity. Qed.

Lemma upd_of_key env op old r : key_of (upd_of env op old r) = key_of old.
Proof. unfold upd_of. now destruct (is_create op). Qed.

Lemma upd_of_reset env op old r : is_reset (upd_of env op old r).
Proof. unfold upd_of, is_reset. now destruct (is_create op). Qed.

Lemma upd_of_carries env op old r :
  carries_subject_cid old = true -> carries_subject_cid r = true ->
  key_of old = key_of r ->
  carries_subject_cid (upd_of env op old r) = true.
Proof.
  intros Hold Hr Hk. unfold key_of in Hk. injection Hk as Ht _ Ho.
  unfold upd_of. destruct (is_create op).
  - unfold carries_subject_cid, subject_cid in *. cbn. now rewrite Ht, Ho.
  - exact Hold.
Qed.

Ltac unfold_trigger :=
  unfold stage, run, queue_post_for_federation,
    queue_post_deletion_for_federation, queue_like_for_federation,
    queue_unlike_for_federation, queue_repost_for_federation,
    queue_unrepost_for_federation, Logging.queue_unrepost_for_federation,
    queue_follow_for_federation, queue_unfollow_for_federation,
    begin_exception, bind, get_db, put_db, ret, raise,
    update_posts_keys, update_likes_keys, update_reposts_keys,
    update_follows_keys, insert_into_federation_queue;
  cbn -[upsert_all delete_rows resolve_subject select_profile].

Ltac no_rows := exists []; split; [constructor | reflexivity].

Ltac one_row :=
  eexists [_]; split; cycle 1;
  [ reflexivity
  | constructor; [|constructor];
    unfold staged_row, is_reset; repeat split; try reflexivity ].

Lemma delete_rows_staged env db rt id owner coll rkey at_uri op :
  op_key op = (rt, id, op_delete) ->
  Forall (staged_row op) (delete_rows env db rt id owner coll rkey at_uri).
Proof.
  intros Hk. unfold delete_rows. apply Forall_forall. intros r Hr.
  apply in_map_iff in Hr as [p [<- _]].
  unfold staged_row, is_reset, carries_subject_cid. cbn. rewrite Hk.
  destruct rt; auto.
Qed.

Lemma stage_spec env op db :
  exists rows, Forall (staged_row op) rows /\
    federation_queue (stage env op db)
    = upsert_all (upd_of env op) rows (federation_queue db).
Proof.
  destruct op; unfold_trigger.
  - destruct (select_profile db (posts_user_id NEW)) as [[d|] h];
      cbn -[upsert_all]; [|no_rows].
    destruct (queue_insert_error env); cbn -[upsert_all]; [no_rows|].
    one_row; destruct (posts_thread_parent_id NEW); reflexivity.
  - destruct (posts_at_uri OLD); cbn -[upsert_all delete_rows]; [|no_rows].
    destruct (queue_insert_error env); cbn -[upsert_all delete_rows]; [no_rows|].
    eexists. split; [|reflexivity]. now apply delete_rows_staged.
  - destruct (fst (select_profile db (likes_user_id NEW)));
      cbn -[upsert_all resolve_subject]; [|no_rows].
    destruct (resolve_subject db NEW) as [[u|] [c|]];
      cbn -[upsert_all]; try no_rows.
    destruct (queue_insert_error env); cbn -[upsert_all]; [no_rows|].
    one_row.
  - destruct (likes_at_uri OLD); cbn -[upsert_all delete_rows]; [|no_rows].
    destruct (queue_insert_error env); cbn -[upsert_all delete_rows]; [no_rows|].
    eexists. split; [|reflexivity]. now apply delete_rows_staged.
  - destruct (fst (select_profile db (likes_user_id NEW)));
      cbn -[upsert_all resolve_subject]; [|no_rows].
    destruct (resolve_subject db NEW) as [[u|] [c|]];
      cbn -[upsert_all]; try no_rows.
    destruct (queue_insert_error env); cbn -[upsert_all]; [no_rows|].
    one_row.
  - destruct (likes_at_uri OLD); cbn -[upsert_all delete_rows]; [|no_rows].
    destruct (queue_insert_error env); cbn -[upsert_all delete_rows]; [no_rows|].
    eexists. split; [|reflexivity]. now apply delete_rows_staged.
  - destruct (likes_at_uri OLD); cbn -[upsert_all]; [|no_rows].
    destruct (fst (select_profile db (likes_user_id OLD)));
      cbn -[upsert_all]; [|no_rows].
    destruct (queue_insert_error env); cbn -[upsert_all];
      [destruct (matches_others _); no_rows|].
    one_row.
  - destruct (fst (select_profile db (follows_follower_id NEW)));
      cbn -[upsert_all select_profile]; [|no_rows].
    destruct (follows_subject_did NEW) as [d|]; cbn -[upsert_all select_profile].
    + destruct (queue_insert_error env); cbn -[upsert_all]; [no_rows|]. one_row.
    + destruct (follows_following_id NEW) as [i|]; cbn -[upsert_all select_profile];
        [|no_rows].
      destruct (fst (select_profile db i)); cbn -[upsert_all]; [|no_rows].
      destruct (queue_insert_error env); cbn -[upsert_all]; [no_rows|]. one_row.
  - destruct (follows_at_uri OLD); cbn -[upsert_all delete_rows]; [|no_rows].
    destruct (queue_insert_error env); cbn -[upsert_all delete_rows]; [no_rows|].
    eexists. split; [|reflexivity]. now apply delete_rows_staged.
Qed.

(** Rows that all carry one key, put in one after the other. *)
Section UpsertAll.
Variable upd : queue_row -> queue_row -> queue_row.
Hypothesis upd_key : forall old r, key_of (upd old r) = key_of old.
Hypothesis upd_reset : forall old r, is_reset (upd old r).
Variable k : queue_key.

Lemma upsert_all_cons r rows q :
  upsert_all upd (r :: rows) q
  = upsert_all upd rows (on_conflict_do_update upd r q).
Proof. reflexivity. Qed.

Lemma upsert_all_unique rows q :
  unique_keys q -> unique_keys (upsert_all upd rows q).
Proof.
  revert q. induction rows as [|r rows IH]; intros q Hq; [exact Hq|].
  rewrite upsert_all_cons. apply IH. now apply on_conflict_unique.
Qed.

Lemma upsert_all_length rows q :
  Forall (fun r => key_of r = k) rows -> In k (map key_of q) ->
  List.length (upsert_all upd rows q) = List.length q.
Proof.
  intros Hrows. revert q.
  induction Hrows as [|r rows Hr Hrows IH]; intros q Hin; [reflexivity|].
  rewrite upsert_all_cons, IH.
  - apply on_conflict_length_present; [exact upd_key | now rewrite Hr].
  - rewrite on_conflict_keys_present; [exact Hin | exact upd_key | now rewrite Hr].
Qed.

Lemma upsert_all_others rows q x :
  Forall (fun r => key_of r = k) rows ->
  In x (upsert_all upd rows q) -> key_of x <> k -> In x q.
Proof.
  intros Hrows. revert q.
  induction Hrows as [|r rows Hr Hrows IH]; intros q Hin Hk; [exact Hin|].
  rewrite upsert_all_cons in Hin. apply IH in Hin; [|exact Hk].
  apply on_conflict_others in Hin; [exact Hin | exact upd_key | now rewrite Hr].
Qed.

Lemma upsert_all_reset rows q x :
  Forall (fun r => key_of r = k /\ is_reset r) rows ->
  unique_keys q ->
  rows = [] \/
  (In x (upsert_all upd rows q) -> key_of x = k -> is_reset x).
Proof.
  intros Hrows. revert q.
  induction Hrows as [|r rows [Hr Hres] Hrows IH]; intros q Hq; [now left|].
  right. rewrite upsert_all_cons.
  assert (Hq' : unique_keys (on_conflict_do_update upd r q))
    by now apply on_conflict_unique.
  destruct (IH _ Hq') as [-> | IH']; [|exact IH'].
  cbn [upsert_all fold_left]. intros Hin Hk.
  apply (on_conflict_reset upd upd_reset r q x); congruence.
Qed.

Lemma upsert_all_Forall (P : queue_row -> Prop) rows q :
  (forall old r, P old -> P r -> key_of old = key_of r -> P (upd old r)) ->
  Forall P rows -> Forall P q -> Forall P (upsert_all upd rows q).
Proof.
  intros Hupd Hrows. revert q.
  induction Hrows as [|r rows Hr Hrows IH]; intros q Hq; [exact Hq|].
  rewrite upsert_all_cons. apply IH.
  apply on_conflict_Forall; auto.
Qed.

End UpsertAll.

Lemma stage_all_app ops1 ops2 db :
  stage_all (ops1 ++ ops2) db = stage_all ops2 (stage_all ops1 db).
Proof. unfold stage_all. apply fold_left_app. Qed.

Lemma stage_unique env op db :
  unique_keys (federation_queue db) ->
  unique_keys (federation_queue (stage env op db)).
Proof.
  intros Hq. destruct (stage_spec env op db) as [rows [_ ->]].
  apply upsert_all_unique; [apply upd_of_key | exact Hq].
Qed.

Lemma stage_all_unique ops :
  forall db, unique_keys (federation_queue db) ->
             unique_keys (federation_queue (stage_all ops db)).
Proof.
  induction ops as [|[env op] ops IH]; intros db Hq; [exact Hq|].
  cbn [stage_all fold_left fst snd]. apply IH. now apply stage_unique.
Qed.

Lemma stage_carries env op db :
  Forall (fun r => carries_subject_cid r = true) (federation_queue db) ->
  Forall (fun r => carries_subject_cid r = true)
         (federation_queue (stage env op db)).
Proof.
  intros Hq. destruct (stage_spec env op db) as [rows [Hrows ->]].
  apply upsert_all_Forall; [| |exact Hq].
  - intros old r Ho Hr Hk. now apply upd_of_carries.
  - eapply Forall_impl; [|exact Hrows]. now intros r (_ & _ & H).
Qed.

Lemma stage_all_carries ops :
  forall db,
    Forall (fun r => carries_subject_cid r = true) (federation_queue db) ->
    Forall (fun r => carries_subject_cid r = true)
           (federation_queue (stage_all ops db)).
Proof.
  induction ops as [|[env op] ops IH]; intros db Hq; [exact Hq|].
  cbn [stage_all fold_left fst snd]. apply IH. now apply stage_carries.
Qed.

Lemma delete_rows_nonempty env db rt id owner coll rkey at_uri :
  has_did db owner = true ->
  delete_rows env db rt id owner coll rkey at_uri <> [].
Proof.
  unfold has_did, delete_rows. intros H. apply existsb_exists in H as [p [Hin Hp]].
  intros E. apply (f_equal (@List.length _)) in E. rewrite length_map in E.
  assert (Hf : In p (filter (fun p => (profiles_id p =? owner)
                                       && negb (is_null (profiles_did p)))
                            (profiles db)))
    by (apply filter_In; auto).
  destruct (filter _ (profiles db)); [destruct Hf | discriminate].
Qed.

Ltac one_row' :=
  eexists _, []; split; cycle 1;
  [ reflexivity
  | constructor; [|constructor];
    unfold staged_row, is_reset; repeat split; try reflexivity ].

(** When the guards pass and the INSERT works, the queue afterwards is the
    upsert of at least one proposed row. *)
Lemma stage_spec_rows env op db :
  reaches_insert op db = true -> queue_insert_error env = None ->
  exists r rows, Forall (staged_row op) (r :: rows) /\
    federation_queue (stage env op db)
    = upsert_all (upd_of env op) (r :: rows) (federation_queue db).
Proof.
  intros Hg He. destruct op; cbn [reaches_insert] in Hg; unfold_trigger;
    rewrite ?He.
  - destruct (select_profile db (posts_user_id NEW)) as [[d|] h];
      [|discriminate]. cbn -[upsert_all].
    one_row'; destruct (posts_thread_parent_id NEW); reflexivity.
  - apply andb_prop in Hg as [Ha Hd].
    destruct (posts_at_uri OLD); [|discriminate]. cbn -[upsert_all delete_rows].
    pose proof (delete_rows_nonempty env db
      (if is_null (posts_thread_parent_id OLD) then rt_post else rt_reply)
      (posts_id OLD) (posts_user_id OLD) "app.bsky.feed.post"
      (posts_rkey OLD) (Some t) Hd) as Hne.
    pose proof (delete_rows_staged env db _ (posts_id OLD) (posts_user_id OLD)
      "app.bsky.feed.post" (posts_rkey OLD) (Some t) (StagePostDeletion OLD)
      eq_refl) as Hst.
    destruct (delete_rows _ _ _ _ _ _ _ _) as [|r rows]; [congruence|].
    now exists r, rows.
  - apply andb_prop in Hg as [Hg Hc]. apply andb_prop in Hg as [Hd Hu].
    destruct (fst (select_profile db (likes_user_id NEW))); [|discriminate].
    cbn -[upsert_all resolve_subject].
    destruct (resolve_subject db NEW) as [[u|] [c|]]; try discriminate.
    cbn -[upsert_all]. one_row'.
  - apply andb_prop in Hg as [Ha Hd].
    destruct (likes_at_uri OLD); [|discriminate]. cbn -[upsert_all delete_rows].
    pose proof (delete_rows_nonempty env db rt_like (likes_id OLD)
      (likes_user_id OLD) "app.bsky.feed.like" (likes_rkey OLD) (Some t) Hd)
      as Hne.
    pose proof (delete_rows_staged env db rt_like (likes_id OLD)
      (likes_user_id OLD) "app.bsky.feed.like" (likes_rkey OLD) (Some t)
      (StageUnlike OLD) eq_refl) as Hst.
    destruct (delete_rows _ _ _ _ _ _ _ _) as [|r rows]; [congruence|].
    now exists r, rows.
  - apply andb_prop in Hg as [Hg Hc]. apply andb_prop in Hg as [Hd Hu].
    destruct (fst (select_profile db (likes_user_id NEW))); [|discriminate].
    cbn -[upsert_all resolve_subject].
    destruct (resolve_subject db NEW) as [[u|] [c|]]; try discriminate.
    cbn -[upsert_all]. one_row'.
  - apply andb_prop in Hg as [Ha Hd].
    destruct (likes_at_uri OLD); [|discriminate]. cbn -[upsert_all delete_rows].
    pose proof (delete_rows_nonempty env db rt_repost (likes_id OLD)
      (likes_user_id OLD) "app.bsky.feed.repost" (likes_rkey OLD) (Some t) Hd)
      as Hne.
    pose proof (delete_rows_staged env db rt_repost (likes_id OLD)
      (likes_user_id OLD) "app.bsky.feed.repost" (likes_rkey OLD) (Some t)
      (StageUnrepost OLD) eq_refl) as Hst.
    destruct (delete_rows _ _ _ _ _ _ _ _) as [|r rows]; [congruence|].
    now exists r, rows.
  - apply andb_prop in Hg as [Ha Hd].
    destruct (likes_at_uri OLD); [|discriminate]. cbn -[upsert_all].
    destruct (fst (select_profile db (likes_user_id OLD))); [|discriminate].
    cbn -[upsert_all]. rewrite ?He. cbn -[upsert_all]. one_row'.
  - apply andb_prop in Hg as [Hd Hf].
    destruct (fst (select_profile db (follows_follower_id NEW))); [|discriminate].
    cbn -[upsert_all select_profile].
    destruct (follows_subject_did NEW) as [d|]; cbn -[upsert_all select_profile].
    + rewrite ?He. cbn -[upsert_all]. one_row'.
    + destruct (follows_following_id NEW) as [i|]; [|discriminate].
      cbn -[upsert_all select_profile].
      destruct (fst (select_profile db i)); [|discriminate].
      cbn -[upsert_all]. rewrite ?He. cbn -[upsert_all]. one_row'.
  - apply andb_prop in Hg as [Ha Hd].
    destruct (follows_at_uri OLD); [|discriminate]. cbn -[upsert_all delete_rows].
    pose proof (delete_rows_nonempty env db rt_follow (follows_id OLD)
      (follows_follower_id OLD) "app.bsky.graph.follow" (follows_rkey OLD)
      (Some t) Hd) as Hne.
    pose proof (delete_rows_staged env db rt_follow (follows_id OLD)
      (follows_follower_id OLD) "app.bsky.graph.follow" (follows_rkey OLD)
      (Some t) (StageUnfollow OLD) eq_refl) as Hst.
    destruct (delete_rows _ _ _ _ _ _ _ _) as [|r rows]; [congruence|].
    now exists r, rows.
Qed.

Lemma delete_rows_none env db rt id owner coll rkey at_uri :
  has_did db owner = false ->
  delete_rows env db rt id owner coll rkey at_uri = [].
Proof.
  unfold has_did, delete_rows. intros H.
  destruct (filter _ (profiles db)) as [|p l] eqn:Ef; [reflexivity|].
  exfalso. assert (Hin : In p (p :: l)) by now left.
  rewrite <- Ef in Hin. apply filter_In in Hin as [Hin Hp].
  assert (E : existsb (fun p => (profiles_id p =? owner)
                                && negb (is_null (profiles_did p)))
                      (profiles db) = true)
    by (apply existsb_exists; eauto).
  congruence.
Qed.

Lemma set_queue_same db : set_queue db (federation_queue db) = db.
Proof. now destruct db. Qed.

Ltac no_delete_rows Hg :=
  cbn -[upsert_all delete_rows]; cbn in Hg;
  rewrite delete_rows_none by exact Hg;
  destruct (queue_insert_error _); [reflexivity | apply set_queue_same].

(** When a guard fails the trigger leaves every table as it was. *)
Lemma stage_declined env op db :
  reaches_insert op db = false -> stage env op db = db.
Proof.
  intros Hg. destruct op; cbn [reaches_insert] in Hg; unfold_trigger.
  - destruct (select_profile db (posts_user_id NEW)) as [[d|] h];
      [discriminate | reflexivity].
  - destruct (posts_at_uri OLD); [no_delete_rows Hg | reflexivity].
  - destruct (fst (select_profile db (likes_user_id NEW))); [|reflexivity].
    cbn -[resolve_subject] in *.
    destruct (resolve_subject db NEW) as [[u|] [c|]]; try reflexivity.
    discriminate.
  - destruct (likes_at_uri OLD); [no_delete_rows Hg | reflexivity].
  - destruct (fst (select_profile db (likes_user_id NEW))); [|reflexivity].
    cbn -[resolve_subject] in *.
    destruct (resolve_subject db NEW) as [[u|] [c|]]; try reflexivity.
    discriminate.
  - destruct (likes_at_uri OLD); [no_delete_rows Hg | reflexivity].
  - destruct (likes_at_uri OLD); [|reflexivity]. cbn in *.
    destruct (fst (select_profile db (likes_user_id OLD)));
      [discriminate | reflexivity].
  - destruct (fst (select_profile db (follows_follower_id NEW))); [|reflexivity].
    cbn -[select_profile] in *.
    destruct (follows_subject_did NEW) as [d|]; [discriminate|].
    destruct (follows_following_id NEW) as [i|]; [|reflexivity].
    cbn -[select_profile] in *.
    destruct (fst (select_profile db i)); [discriminate | reflexivity].
  - destruct (follows_at_uri OLD); [no_delete_rows Hg | reflexivity].
Qed.

Lemma stage_trigger env op db :
  stage env op db = match trigger env op db with
                    | Ok db' => db'
                    | Raised _ => db
                    end.
Proof.
  destruct op; unfold stage, trigger, run, outcome;
    match goal with
    | |- context [match ?m db with _ => _ end] =>
        destruct (m db) as [[? ?]|]; reflexivity
    end.
Qed.

(** An error of the INSERT leaves every trigger function but the one with
    the EXCEPTION block, which it leaves only when [OTHERS] does not match
    it. *)
Lemma trigger_insert_error env op db e :
  reaches_insert op db = true -> queue_insert_error env = Some e ->
  trigger env op db
  = if has_handler op && matches_others e then Ok db else Raised e.
Proof.
  intros Hg He.
  destruct op; cbn [reaches_insert] in Hg; cbn [has_handler trigger];
    unfold outcome; unfold_trigger; rewrite ?He.
  - destruct (select_profile db (posts_user_id NEW)) as [[d|] h];
      [reflexivity | discriminate].
  - destruct (posts_at_uri OLD); [reflexivity | discriminate].
  - apply andb_prop in Hg as [Hg Hc]. apply andb_prop in Hg as [Hd Hu].
    destruct (fst (select_profile db (likes_user_id NEW))); [|discriminate].
    cbn -[resolve_subject].
    destruct (resolve_subject db NEW) as [[u|] [c|]]; try discriminate.
    reflexivity.
  - destruct (likes_at_uri OLD); [reflexivity | discriminate].
  - apply andb_prop in Hg as [Hg Hc]. apply andb_prop in Hg as [Hd Hu].
    destruct (fst (select_profile db (likes_user_id NEW))); [|discriminate].
    cbn -[resolve_subject].
    destruct (resolve_subject db NEW) as [[u|] [c|]]; try discriminate.
    reflexivity.
  - destruct (likes_at_uri OLD); [reflexivity | discriminate].
  - destruct (likes_at_uri OLD); [|discriminate]. cbn in *.
    destruct (fst (select_profile db (likes_user_id OLD))); [|discriminate].
    cbn. rewrite ?He. cbn. now destruct (matches_others e).
  - apply andb_prop in Hg as [Hd Hf].
    destruct (fst (select_profile db (follows_follower_id NEW))); [|discriminate].
    cbn -[select_profile].
    destruct (follows_subject_did NEW) as [d|]; cbn -[select_profile];
      rewrite ?He; [reflexivity|].
    destruct (follows_following_id NEW) as [i|]; [|discriminate].
    cbn -[select_profile].
    destruct (fst (select_profile db i)); [|discriminate].
    cbn. now rewrite ?He.
  - destruct (follows_at_uri OLD); [reflexivity | discriminate].
Qed.

(** An error of the INSERT leaves the tables as they were: the trigger with
    the handler returns, the others abort the statement that fired them. *)
Lemma stage_insert_error env op db e :
  queue_insert_error env = Some e -> stage env op db = db.
Proof.
  intros He. destruct (reaches_insert op db) eqn:Hg.
  - rewrite stage_trigger, (trigger_insert_error env op db e Hg He).
    now destruct (has_handler op && matches_others e).
  - now apply stage_declined.
Qed.

Lemma upsert_all_key_stays upd rows q k :
  (forall old r, key_of (upd old r) = key_of old) ->
  In k (map key_of q) -> In k (map key_of (upsert_all upd rows q)).
Proof.
  intros Hupd. revert q. induction rows as [|r rows IH]; intros q Hin;
    [exact Hin|].
  rewrite upsert_all_cons. apply IH.
  destruct (key_eq_dec (key_of r) k) as [<- | Hne].
  - now apply on_conflict_key_stays.
  - destruct (in_dec key_eq_dec (key_of r) (map key_of q)) as [Hr | Hr].
    + now rewrite on_conflict_keys_present.
    + rewrite on_conflict_keys_absent, map_app by assumption.
      apply in_or_app. now left.
Qed.

Lemma stage_staged env op db :
  reaches_insert op db = true -> queue_insert_error env = None ->
  unique_keys (federation_queue db) ->
  In (op_key op) (map key_of (federation_queue (stage env op db))) /\
  forall x, In x (federation_queue (stage env op db)) ->
            key_of x = op_key op -> is_reset x.
Proof.
  intros Hg He Hq.
  destruct (stage_spec_rows env op db Hg He) as (r & rows & Hrows & ->).
  split.
  - rewrite upsert_all_cons. apply upsert_all_key_stays; [apply upd_of_key|].
    inversion Hrows as [|? ? [Hk _] _]; subst. rewrite <- Hk.
    apply on_conflict_key_stays. apply upd_of_key.
  - intros x Hin Hk.
    destruct (upsert_all_reset (upd_of env op) (upd_of_key env op)
                (upd_of_reset env op) (op_key op) (r :: rows)
                (federation_queue db) x) as [Habs | Hres];
      try discriminate; auto.
    eapply Forall_impl; [|exact Hrows]. now intros y (Hy & Hr & _).
Qed.

(** Declining: with an unconfirmed subject the like trigger returns [NEW] and
    writes nothing. *)
Lemma like_declined env NEW db :
  subject_unconfirmed db NEW ->
  queue_like_for_federation env NEW db = Ok (NEW, db).
Proof.
  intros H. unfold subject_unconfirmed in H. unfold_trigger.
  destruct (fst (select_profile db (likes_user_id NEW)));
    cbn -[resolve_subject]; [|reflexivity].
  destruct (resolve_subject db NEW) as [[u|] [c|]]; cbn in *;
    try reflexivity.
  destruct H; discriminate.
Qed.

Lemma repost_declined env NEW db :
  subject_unconfirmed db NEW ->
  queue_repost_for_federation env NEW db = Ok (NEW, db).
Proof.
  intros H. unfold subject_unconfirmed in H. unfold_trigger.
  destruct (fst (select_profile db (likes_user_id NEW)));
    cbn -[resolve_subject]; [|reflexivity].
  destruct (resolve_subject db NEW) as [[u|] [c|]]; cbn in *;
    try reflexivity.
  destruct H; discriminate.
Qed.

(** Staging: with a federated user, a confirmed subject and a working
    INSERT, the like is in the queue afterwards, reset, with the subject's
    content hash in its payload. *)
Lemma like_staged env NEW db did uri cid :
  fst (select_profile db (likes_user_id NEW)) = Some did ->
  resolve_subject db NEW = (Some uri, Some cid) ->
  queue_insert_error env = None ->
  unique_keys (federation_queue db) ->
  exists r, In r (federation_queue (stage env (StageLike NEW) db)) /\
            key_of r = (rt_like, likes_id NEW, op_create) /\
            is_reset r /\ subject_cid r = Some (JString cid).
Proof.
  intros Hdid Hsub Herr Hq. unfold_trigger. rewrite Hdid, Hsub, Herr.
  cbn -[upsert_all]. unfold upsert_all. cbn [fold_left].
  match goal with
  | |- context [on_conflict_do_update ?u ?r ?q] =>
      pose proof (on_conflict_key_stays u (update_create_key _) r q) as Hin;
      apply in_map_iff in Hin as [x [Hk Hx]];
      exists x; split; [exact Hx|]; split; [exact Hk|];
      pose proof (on_conflict_reset u (fun o n => upd_of_reset env (StageLike NEW) o n)
                    r q x Hq) as Hres;
      split; [apply Hres; [repeat split | exact Hx | exact Hk]|]
  end.
  clear Hres.
  induction (federation_queue db) as [|old q IH]; cbn [on_conflict_do_update] in Hx.
  - destruct Hx as [<- | []]. reflexivity.
  - destruct (key_eqb (key_of old) _) eqn:E.
    + destruct Hx as [<- | Hx]; [reflexivity|].
      exfalso. unfold unique_keys in Hq. cbn [map] in Hq.
      inversion Hq as [|k0 ks Hnotin _]; subst. apply Hnotin.
      apply key_eqb_eq in E. rewrite E, <- Hk. now apply in_map.
    + destruct Hx as [<- | Hx].
      * apply key_eqb_neq in E. congruence.
      * apply IH; [|exact Hx]. unfold unique_keys in *. cbn [map] in Hq.
        now inversion Hq.
Qed.

(** C1: over any sequence of staging operations (the eight trigger functions
    of the migration and the logging unrepost trigger, each in its own
    environment, on any rows) that starts from a queue without duplicate
    keys, [federation_queue] never holds two rows with the same
    [(record_type, record_id, operation)].  Staging a mutation whose key is
    already in the queue adds no row and touches no row under another key;
    when the trigger's guards pass and the INSERT works, the row under the
    key is there afterwards with [status = 'pending'], [attempts = 0] and
    [last_error = NULL]; when the trigger declines or the INSERT raises, the
    queue is as it was. *)
Theorem staging_upserts_on_unique_key
    (ops : list (Env * staging_op)) (db : DB) (env : Env) (op : staging_op) :
  unique_keys (federation_queue db) ->
  let db1 := stage_all ops db in
  let q1 := federation_queue db1 in
  let q2 := federation_queue (stage env op db1) in
  unique_keys q1 /\ unique_keys q2 /\
  (In (op_key op) (map key_of q1) -> List.length q2 = List.length q1) /\
  (forall x, In x q2 -> key_of x <> op_key op -> In x q1) /\
  (reaches_insert op db1 = true -> queue_insert_error env = None ->
   In (op_key op) (map key_of q2) /\
   forall x, In x q2 -> key_of x = op_key op -> is_reset x) /\
  (reaches_insert op db1 = false \/ queue_insert_error env <> None ->
   q2 = q1).
Proof.
  intros Hq db1 q1 q2.
  assert (H1 : unique_keys q1) by now apply stage_all_unique.
  split; [exact H1|]. split; [now apply stage_unique|].
  split; [|split; [|split]].
  - subst q2. destruct (stage_spec env op db1) as [rows [Hrows ->]].
    intros Hin.
    apply (upsert_all_length (upd_of env op) (upd_of_key env op) (op_key op));
      [|exact Hin].
    eapply Forall_impl; [|exact Hrows]. now intros r [H _].
  - subst q2. destruct (stage_spec env op db1) as [rows [Hrows ->]].
    intros x Hin Hk.
    apply (upsert_all_others (upd_of env op) (upd_of_key env op) (op_key op)
             rows); [|exact Hin|exact Hk].
    eapply Forall_impl; [|exact Hrows]. now intros r [H _].
  - intros Hg He. now apply stage_staged.
  - subst q2 q1. intros [Hg | He].
    + now rewrite stage_declined.
    + destruct (queue_insert_error env) as [e|] eqn:E; [|congruence].
      now rewrite (stage_insert_error env op db1 e).
Qed.

Lemma staging_upserts_on_unique_key_witness :
  let ops := [(Sample.env0, StagePost Sample.hello)] in
  let q1 := federation_queue (stage_all ops Sample.db_failed) in
  let q2 := federation_queue
              (stage Sample.env1 (StageLike Sample.like1)
                     (stage_all ops Sample.db_failed)) in
  unique_keys q2 /\
  List.length q2 = List.length q1 /\
  In (rt_like, "l-1", op_create) (map key_of q2) /\
  forall x, In x q2 -> key_of x = (rt_like, "l-1", op_create) -> is_reset x.
Proof.
  pose proof (staging_upserts_on_unique_key
                [(Sample.env0, StagePost Sample.hello)] Sample.db_failed
                Sample.env1 (StageLike Sample.like1)) as H.
  destruct H as (_ & H2 & H3 & _ & H5 & _).
  - unfold unique_keys. simpl. constructor; [simpl; tauto | constructor].
  - split; [exact H2|]. split.
    + apply H3. simpl. tauto.
    + apply H5; reflexivity.
Defined.

(** Scenario A, staging half: a post of a federated user stages one
    [(post, create)] row, pending. *)
Example scenario_A_post_staged :
  map (fun r => (key_of r, q_status r, q_attempts r))
      (federation_queue (stage Sample.env0 (StagePost Sample.hello)
                               (add_post Sample.hello Sample.db_empty)))
  = [((rt_post, "p-hello", op_create), st_pending, 0%Z)].
Proof. reflexivity. Qed.

(** Re-staging a like the worker had given up on: still one row, reset. *)
Example restaged_like_is_reset :
  map (fun r => (key_of r, q_status r, q_attempts r, q_last_error r,
                 q_created_at r))
      (federation_queue (stage Sample.env1 (StageLike Sample.like1)
                               Sample.db_failed))
  = [((rt_like, "l-1", op_create), st_pending, 0%Z, None, 2000%Z)].
Proof. reflexivity. Qed.

(** Scenario B: a like on a post whose content hash is not confirmed yet
    stages nothing. *)
Example scenario_B_like_before_confirmation :
  stage Sample.env0 (StageLike Sample.like1) Sample.db_unconfirmed
  = Sample.db_unconfirmed.
Proof. reflexivity. Qed.

(** C2: when the subject reference of a like or repost, after the fall-back
    to the post's [at_uri]/[at_cid], lacks its URI or its content hash, the
    trigger returns [NEW] and leaves every table, the queue included, as it
    was; and over any sequence of staging operations every like or repost
    [create] row of the queue carries a non-null [subject.cid], provided the
    rows the queue started with did. *)
Theorem like_repost_staged_only_with_subject_cid
    (env : Env) (NEW : likes_row) (db : DB) (ops : list (Env * staging_op)) :
  (subject_unconfirmed db NEW ->
   queue_like_for_federation env NEW db = Ok (NEW, db) /\
   queue_repost_for_federation env NEW db = Ok (NEW, db)) /\
  (Forall (fun r => carries_subject_cid r = true) (federation_queue db) ->
   Forall (fun r => carries_subject_cid r = true)
          (federation_queue (stage_all ops db))).
Proof.
  split.
  - intros H. split; [now apply like_declined | now apply repost_declined].
  - apply stage_all_carries.
Qed.

Lemma like_repost_staged_only_with_subject_cid_witness :
  (queue_like_for_federation Sample.env0 Sample.like1 Sample.db_unconfirmed
   = Ok (Sample.like1, Sample.db_unconfirmed) /\
   queue_repost_for_federation Sample.env0 Sample.like1 Sample.db_unconfirmed
   = Ok (Sample.like1, Sample.db_unconfirmed)) /\
  Forall (fun r => carries_subject_cid r = true)
         (federation_queue
            (stage_all [(Sample.env0, StageLike Sample.like1);
                        (Sample.env1, StageRepost Sample.like1)]
                       Sample.db_unconfirmed)).
Proof.
  pose proof (like_repost_staged_only_with_subject_cid
                Sample.env0 Sample.like1 Sample.db_unconfirmed
                [(Sample.env0, StageLike Sample.like1);
                 (Sample.env1, StageRepost Sample.like1)]) as [H1 H2].
  split.
  - apply H1. right. reflexivity.
  - apply H2. constructor.
Defined.

(** The post trigger has no EXCEPTION block: when its INSERT into the queue
    raises, the error leaves the function and the INSERT INTO posts that
    fired it is aborted. *)
Lemma insert_post_aborted env NEW db did e :
  fst (select_profile (add_post NEW db) (posts_user_id NEW)) = Some did ->
  queue_insert_error env = Some e ->
  insert_post env NEW db = Aborted (sqlerrm e).
Proof.
  intros Hdid He. unfold insert_post, with_trigger. unfold_trigger.
  destruct (select_profile (add_post NEW db) (posts_user_id NEW)) as [d h].
  cbn in Hdid. subst d. cbn. now rewrite He.
Qed.

(** The logging unrepost trigger catches the errors that [OTHERS] matches
    and returns [OLD]. *)
Lemma logging_unrepost_never_raises env OLD db :
  (forall e, queue_insert_error env = Some e -> matches_others e = true) ->
  exists db', Logging.queue_unrepost_for_federation env OLD db = Ok (OLD, db').
Proof.
  intros Hc. unfold_trigger.
  destruct (likes_at_uri OLD); cbn; [|now eexists].
  destruct (fst (select_profile db (likes_user_id OLD))); cbn; [|now eexists].
  destruct (queue_insert_error env) as [e|]; cbn; [|now eexists].
  rewrite (Hc e eq_refl). now eexists.
Qed.

(** A statement timeout is not among them: it leaves the logging trigger as
    well, and the delete that fired it is aborted. *)
Example logging_unrepost_statement_timeout :
  delete_repost Sample.env_timed_out Sample.repost1 Sample.db_confirmed
  = Aborted "canceling statement due to statement timeout".
Proof. reflexivity. Qed.

(** C6, at the failing input: alice, who has a DID, inserts the post "Hello"
    while the INSERT into [federation_queue] raises.  The post trigger lets
    the error through and the insert of the post is aborted; the unrepost
    trigger of the logging migration, in the same environment, catches it and
    the delete commits. *)
Theorem post_insert_aborted_by_staging_error :
  insert_post Sample.env_failing Sample.hello Sample.db_empty
  = Aborted "canceling statement due to lock timeout" /\
  delete_repost Sample.env_failing Sample.repost1 Sample.db_confirmed
  = Committed (remove_repost Sample.repost1 Sample.db_confirmed).
Proof. split; reflexivity. Qed.

End Outbox.

(* ================================================================== *)
(** ** The Sync Worker: draining the outbox *)
(* ================================================================== *)
Module SyncWorker.
Import Outbox.
Local Open Scope Z_scope.

(** Modelled from the spec: the Sync Worker, whose code is not among the
    sources.  Section 4.2: it "polls in small time-ordered batches (oldest
    first)" the rows with [status = pending]; on success it "sets
    status=done"; "already exists / duplicate is treated as success";
    "transient errors increment attempts and reset to pending for retry";
    "once attempts exceeds a fixed ceiling (e.g., 5), sets status=failed and
    stops retrying, recording last_error"; section 7 (d): a permanent
    rejection is "marked failed immediately ... not retried".  The ceiling is
    read together with Scenario E ("fails to deliver an entry 5 consecutive
    times -> status becomes failed and no 6th attempt occurs"): the fifth
    failed attempt is the last one.  The retry is by status reset, with no
    timer (section 9). *)
Definition MAX_ATTEMPTS : Z := 5.

(** Modelled from the spec: what the remote repository answered to one
    delivery, in the error classes of section 7 (the worker's code is not
    among the sources). *)
Inductive delivery : Type :=
| Delivered (uri cid : text)
| AlreadyExists
| TransientError (message : text)
| Rejected (message : text).

Definition with_outcome (r : queue_row) (s : status) (attempts : Z)
    (err : option text) : queue_row :=
  {| q_record_type := q_record_type r; q_record_id := q_record_id r;
     q_user_did := q_user_did r; q_collection := q_collection r;
     q_rkey := q_rkey r; q_at_uri := q_at_uri r;
     q_record_data := q_record_data r; q_operation := q_operation r;
     q_status := s; q_attempts := attempts; q_last_error := err;
     q_created_at := q_created_at r |}.

(** Modelled from the spec: the row after one delivery attempt. *)
Definition settle (r : queue_row) (d : delivery) : queue_row :=
  match d with
  | Delivered _ _ | AlreadyExists =>
      with_outcome r st_done (q_attempts r) (q_last_error r)
  | TransientError e =>
      let attempts := q_attempts r + 1 in
      with_outcome r
        (if MAX_ATTEMPTS <=? attempts then st_failed else st_pending)
        attempts (Some e)
  | Rejected e => with_outcome r st_failed (q_attempts r) (Some e)
  end.

Definition is_pending (r : queue_row) : bool :=
  match q_status r with st_pending => true | _ => false end.

Fixpoint insert_by_age (r : queue_row) (l : list queue_row) : list queue_row :=
  match l with
  | [] => [r]
  | x :: l' =>
      if q_created_at r <=? q_created_at x then r :: l
      else x :: insert_by_age r l'
  end.

Definition oldest_first (l : list queue_row) : list queue_row :=
  fold_right insert_by_age [] l.

(** Modelled from the spec: one poll, the [batch_size] oldest pending rows. *)
Definition poll (batch_size : nat) (q : list queue_row) : list queue_row :=
  firstn batch_size (oldest_first (filter is_pending q)).

Definition claimed (due : list queue_row) (r : queue_row) : bool :=
  existsb (fun d => key_eqb (key_of d) (key_of r)) due.

(** Modelled from the spec: one poll cycle.  Every polled row is delivered
    once, [remote] giving the answer, and settled; the second component
    lists the deliveries attempted, by queue key. *)
Definition cycle (remote : queue_row -> delivery) (batch_size : nat)
    (q : list queue_row) : list queue_row * list queue_key :=
  let due := poll batch_size q in
  (map (fun r => if claimed due r then settle r (remote r) else r) q,
   map key_of due).

(** Modelled from the spec: a run of the worker, the poll loop of section 5,
    one remote behaviour for each cycle (the worker's code is not among the
    sources). *)
Fixpoint run (remotes : list (queue_row -> delivery)) (batch_size : nat)
    (q : list queue_row) : list queue_row * list queue_key :=
  match remotes with
  | [] => (q, [])
  | remote :: rest =>
      let '(q1, log1) := cycle remote batch_size q in
      let '(q2, log2) := run rest batch_size q1 in
      (q2, (log1 ++ log2)%list)
  end.

(** How often the deliveries [log] name the entry [k]. *)
Definition attempts_on (k : queue_key) (log : list queue_key) : nat :=
  count_occ key_eq_dec log k.

(** The deliveries an entry can still get. *)
Definition budget (r : queue_row) : Z :=
  if is_pending r then Z.max 1 (MAX_ATTEMPTS - q_attempts r) else 0.

(** A remote that is unreachable. *)
Definition unreachable (r : queue_row) : delivery :=
  TransientError "fetch failed"%string.

(** A freshly staged entry: bob's like of the sample data. *)
Definition fresh_like : queue_row :=
  proposed_row Sample.env0 rt_like "l-1"%string (Some "did:plc:bob"%string)
    "app.bsky.feed.like"%string (Some "q83vEjRWeJCrzQ"%string)
    (Some "at://did:plc:bob/app.bsky.feed.like/q83vEjRWeJCrzQ"%string)
    None op_create.

(** *** Proofs *)

Lemma settle_key r d : key_of (settle r d) = key_of r.
Proof. now destruct d. Qed.

Lemma settle_budget r d :
  is_pending r = true -> budget (settle r d) + 1 <= budget r.
Proof.
  intros Hp. unfold budget at 2. rewrite Hp.
  destruct d; unfold budget, is_pending, settle, with_outcome, MAX_ATTEMPTS;
    cbn [q_status q_attempts]; try lia.
  destruct (5 <=? q_attempts r + 1) eqn:E; [lia|].
  apply Z.leb_gt in E. lia.
Qed.

Lemma budget_nonneg r : 0 <= budget r.
Proof. unfold budget, MAX_ATTEMPTS. destruct (is_pending r); lia. Qed.

Lemma insert_by_age_perm r l : Permutation (insert_by_age r l) (r :: l).
Proof.
  induction l as [|x l IH]; cbn [insert_by_age]; [reflexivity|].
  destruct (q_created_at r <=? q_created_at x); [reflexivity|].
  rewrite IH. apply perm_swap.
Qed.

Lemma oldest_first_perm l : Permutation (oldest_first l) l.
Proof.
  induction l as [|x l IH]; cbn [oldest_first fold_right]; [reflexivity|].
  fold (oldest_first l). rewrite insert_by_age_perm. now constructor.
Qed.

Lemma unique_keys_filter p q : unique_keys q -> unique_keys (filter p q).
Proof.
  unfold unique_keys. induction q as [|x q IH]; cbn [filter map]; intros H;
    [constructor|].
  inversion H as [|k ks Hn Hq]; subst.
  destruct (p x); cbn [map]; [|now apply IH].
  constructor; [|now apply IH].
  intros Hin. apply Hn. apply in_map_iff in Hin as [y [Hy Hin]].
  apply in_map_iff. exists y. split; [exact Hy|]. now apply filter_In in Hin.
Qed.

Lemma in_firstn {A} n (l : list A) x : In x (firstn n l) -> In x l.
Proof.
  revert n. induction l as [|y l IH]; intros [|n]; simpl; try tauto.
  intros [-> | H]; [now left | right; eauto].
Qed.

Lemma NoDup_firstn_keys {A} n (l : list A) : NoDup l -> NoDup (firstn n l).
Proof.
  revert n. induction l as [|x l IH]; intros [|n] H; cbn [firstn];
    try constructor.
  - inversion H; subst. intros Hin. apply in_firstn in Hin. tauto.
  - inversion H; subst. now apply IH.
Qed.

Lemma poll_unique n q : unique_keys q -> unique_keys (poll n q).
Proof.
  intros H. unfold unique_keys, poll. rewrite <- firstn_map.
  apply NoDup_firstn_keys.
  apply (Permutation_NoDup (l := map key_of (filter is_pending q))).
  - apply Permutation_map. symmetry. apply oldest_first_perm.
  - now apply unique_keys_filter.
Qed.

Lemma poll_sub n q d : In d (poll n q) -> In d q /\ is_pending d = true.
Proof.
  unfold poll. intros H. apply in_firstn in H.
  apply (Permutation_in _ (oldest_first_perm _)) in H.
  now apply filter_In in H.
Qed.

Lemma unique_keys_inj q a b :
  unique_keys q -> In a q -> In b q -> key_of a = key_of b -> a = b.
Proof.
  unfold unique_keys. induction q as [|x q IH]; cbn [map]; intros H Ha Hb Hk;
    [destruct Ha|].
  inversion H as [|k ks Hn Hq]; subst.
  destruct Ha as [-> | Ha], Hb as [-> | Hb]; auto.
  - exfalso. apply Hn. rewrite Hk. now apply in_map.
  - exfalso. apply Hn. rewrite <- Hk. now apply in_map.
Qed.

Lemma claimed_iff due r :
  claimed due r = true <-> In (key_of r) (map key_of due).
Proof.
  unfold claimed. rewrite existsb_exists, in_map_iff.
  split; intros [d [H1 H2]]; exists d.
  - apply key_eqb_eq in H2. tauto.
  - split; [tauto|]. apply key_eqb_eq. tauto.
Qed.

Lemma cycle_unique remote n q :
  unique_keys q -> unique_keys (fst (cycle remote n q)).
Proof.
  unfold unique_keys, cycle. cbn [fst]. rewrite map_map.
  intros H. erewrite map_ext; [exact H|].
  intros r. cbn. destruct (claimed _ r); [apply settle_key | reflexivity].
Qed.

(** One cycle: the deliveries it makes on an entry are paid from the entry's
    budget. *)
Lemma cycle_budget remote n q r :
  unique_keys q -> In r q ->
  exists r', In r' (fst (cycle remote n q)) /\ key_of r' = key_of r /\
    Z.of_nat (attempts_on (key_of r) (snd (cycle remote n q))) + budget r'
    <= budget r.
Proof.
  intros Hq Hr. unfold cycle. cbn [fst snd].
  set (due := poll n q).
  exists (if claimed due r then settle r (remote r) else r).
  split; [apply in_map_iff; now exists r|].
  assert (Hnd : NoDup (map key_of due)) by now apply poll_unique.
  pose proof (proj1 (NoDup_count_occ key_eq_dec _) Hnd (key_of r)) as Hc.
  fold (attempts_on (key_of r) (map key_of due)) in Hc.
  destruct (claimed due r) eqn:Ec.
  - split; [apply settle_key|].
    apply claimed_iff in Ec. apply in_map_iff in Ec as [d [Hk Hd]].
    apply poll_sub in Hd as [Hdq Hp].
    assert (d = r) by exact (unique_keys_inj q d r Hq Hdq Hr Hk). subst d.
    pose proof (settle_budget r (remote r) Hp). lia.
  - split; [reflexivity|].
    assert (Hz : attempts_on (key_of r) (map key_of due) = 0%nat).
    { unfold attempts_on. apply count_occ_not_In. intros Hin.
      apply claimed_iff in Hin. congruence. }
    rewrite Hz. lia.
Qed.

Lemma run_budget remotes n :
  forall q r, unique_keys q -> In r q ->
    Z.of_nat (attempts_on (key_of r) (snd (run remotes n q))) <= budget r.
Proof.
  induction remotes as [|remote rest IH]; intros q r Hq Hr.
  - cbn. apply budget_nonneg.
  - cbn [run].
    destruct (cycle_budget remote n q r Hq Hr) as [r' [Hr' [Hk Hb]]].
    pose proof (cycle_unique remote n q Hq) as Hq'.
    destruct (cycle remote n q) as [q1 log1]. cbn [fst snd] in *.
    specialize (IH q1 r' Hq' Hr'). rewrite Hk in IH.
    destruct (run rest n q1) as [q2 log2]. cbn [fst snd] in *.
    unfold attempts_on in *. rewrite count_occ_app. lia.
Qed.

(** Scenario E: the remote stays unreachable for seven poll cycles.  The
    entry is delivered five times, then it is [failed] with the error
    recorded, and the two further cycles leave it alone. *)
Example scenario_E_five_failures :
  let '(q, log) := run (repeat unreachable 7) 10 [fresh_like] in
  log = repeat (rt_like, "l-1"%string, op_create) 5 /\
  map (fun r => (q_status r, q_attempts r, q_last_error r)) q
  = [(st_failed, 5, Some "fetch failed"%string)].
Proof. vm_compute. split; reflexivity. Qed.

(** C5: a transient delivery failure increments [attempts] and records
    [last_error]; below the ceiling of 5 the entry goes back to [pending],
    and with [attempts] at the ceiling or beyond it the entry is [failed].
    Over any run of the worker (any number of cycles, any batch size, any
    behaviour of the remote) on a queue with unique keys, the deliveries of a
    pending entry together with the attempts it already counts never exceed
    5, so an entry staged with [attempts = 0] is never delivered a sixth
    time, and an entry that is [failed] is never delivered again. *)
Theorem sync_worker_retry_ceiling
    (remotes : list (queue_row -> delivery)) (batch_size : nat)
    (q : list queue_row) (r : queue_row) (message : text) :
  (let r' := settle r (TransientError message) in
   q_attempts r' = q_attempts r + 1 /\
   q_last_error r' = Some message /\
   (q_attempts r' < MAX_ATTEMPTS -> q_status r' = st_pending) /\
   (MAX_ATTEMPTS <= q_attempts r' -> q_status r' = st_failed)) /\
  (unique_keys q -> In r q ->
   let deliveries :=
     Z.of_nat (attempts_on (key_of r) (snd (run remotes batch_size q))) in
   (q_status r = st_pending -> 0 <= q_attempts r < MAX_ATTEMPTS ->
    q_attempts r + deliveries <= MAX_ATTEMPTS) /\
   (q_status r = st_failed -> deliveries = 0)).
Proof.
  split.
  - cbn. repeat split.
    + intros H. apply Z.leb_gt in H. now rewrite H.
    + intros H. apply Z.leb_le in H. now rewrite H.
  - intros Hq Hr deliveries.
    pose proof (run_budget remotes batch_size q r Hq Hr) as Hb.
    fold deliveries in Hb. unfold budget, is_pending, MAX_ATTEMPTS in *.
    split; intros Hs; rewrite Hs in Hb; lia.
Qed.

Lemma sync_worker_retry_ceiling_witness :
  (let r' := settle fresh_like (TransientError "fetch failed"%string) in
   q_attempts r' = q_attempts fresh_like + 1 /\
   q_last_error r' = Some "fetch failed"%string /\
   (q_attempts r' < MAX_ATTEMPTS -> q_status r' = st_pending) /\
   (MAX_ATTEMPTS <= q_attempts r' -> q_status r' = st_failed)) /\
  q_attempts fresh_like
  + Z.of_nat (attempts_on (key_of fresh_like)
                (snd (run (repeat unreachable 7) 10 [fresh_like])))
  <= MAX_ATTEMPTS.
Proof.
  pose proof (sync_worker_retry_ceiling (repeat unreachable 7) 10
                [fresh_like] fresh_like "fetch failed"%string) as [H1 H2].
  split; [exact H1|].
  apply H2.
  - unfold unique_keys. simpl. constructor; [simpl; tauto | constructor].
  - now left.
  - reflexivity.
  - unfold MAX_ATTEMPTS. simpl. lia.
Defined.

End SyncWorker.

(* ================================================================== *)
(** ** The Event Ingester: process-jetstream-event (TypeScript) *)
(* ================================================================== *)
Module Ingester.
Local Open Scope string_scope.

Definition CANNECT_DOMAIN : string := "cannect.space".

(** [s.includes(sub)] *)
Fixpoint includes (s sub : string) : bool :=
  String.prefix sub s
  || match s with
     | EmptyString => false
     | String _ s' => includes s' sub
     end.

(** JavaScript truthiness of an optional string: [undefined], [null] and
    the empty string are falsy. *)
Definition truthy (s : option string) : bool :=
  match s with
  | Some s => negb (String.eqb s "")
  | None => false
  end.

(** *** Tables *)

Record profile := {
  profile_id : string;
  profile_did : option string }.

Record post := {
  post_id : string;
  post_user_id : string;
  post_content : string;
  post_atproto_uri : option string }.

Inductive reason := like | repost | reply | quote | follow.

Definition reason_eqb (a b : reason) : bool :=
  match a, b with
  | like, like | repost, repost | reply, reply | quote, quote
  | follow, follow => true
  | _, _ => false
  end.

Record notification := {
  n_user_id : string;
  n_reason : reason;
  n_post_id : option string;
  n_actor_id : option string;
  n_is_external : bool;
  n_actor_did : option string;
  n_actor_handle : option string;
  n_actor_display_name : option string;
  n_actor_avatar : option string;
  n_is_read : bool;
  n_created_at : string }.

Record DB := {
  profiles : list profile;
  posts : list post;
  notifications : list notification }.

(** The answer of [app.bsky.actor.getProfile]. *)
Record actor_profile := {
  ap_handle : option string;
  ap_displayName : option string;
  ap_avatar : option string }.

(** What a request takes from outside the tables: the public profile API
    ([None] when the fetch fails or is not ok), the clock, whether the dedup
    query of [createNotification] fails (its [data] is then [null]), and the
    error, if any, of the insert into [notifications]. *)
Record Env := {
  getActorProfile : string -> option actor_profile;
  now_iso : string;
  dedup_error : bool;
  insert_error : option string }.

(** [interface JetstreamEvent]; of [record] the fields the handlers read:
    [record.subject.uri] (like, repost), [record.subject] (follow, a DID),
    [record.reply.parent.uri] and [record.embed.record.uri] (post). *)
Record JetstreamEvent := {
  actorDid : string;
  collection : string;
  operation : string;
  record_subject_uri : option string;
  record_subject : option string;
  record_reply_parent_uri : option string;
  record_embed_record_uri : option string;
  rkey : string;
  time_us : Z }.

(** [{ created, type?, reason? }] *)
Record outcome := {
  created : bool;
  type : option reason;
  why : option string }.

Definition not_created (r : string) : outcome :=
  {| created := false; type := None; why := Some r |}.

(** [.maybeSingle()]: the row when exactly one matches, [null] when none
    does; several matches are an error, which the callers log, returning
    [null]. *)
Definition maybeSingle {A} (rows : list A) : option A :=
  match rows with
  | [r] => Some r
  | _ => None
  end.

Definition findUserByDid (db : DB) (did : string) : option profile :=
  maybeSingle
    (filter (fun p => match profile_did p with
                      | Some d => String.eqb d did
                      | None => false
                      end) (profiles db)).

Definition findPostByUri (db : DB) (uri : string) : option post :=
  maybeSingle
    (filter (fun p => match post_atproto_uri p with
                      | Some u => String.eqb u uri
                      | None => false
                      end) (posts db)).

(** [a || b] on optional strings. *)
Definition or_else (a : option string) (b : string) : string :=
  if truthy a then match a with Some s => s | None => b end else b.

Definition or_null (a : option string) : option string :=
  if truthy a then a else None.

(** The rows the dedup query of [createNotification] selects:
    [.eq("user_id", userId).eq("reason", reason).eq("actor_did", actorDid)
     .eq("is_external", true)]. *)
Definition existing (db : DB) (userId : string) (r : reason)
    (actor : string) : list notification :=
  filter (fun n => String.eqb (n_user_id n) userId
                   && reason_eqb (n_reason n) r
                   && match n_actor_did n with
                      | Some d => String.eqb d actor
                      | None => false
                      end
                   && n_is_external n)
         (notifications db).

Definition createNotification (env : Env) (userId actor : string)
    (r : reason) (postId : option string) (db : DB) : outcome * DB :=
  let actorProfile := getActorProfile env actor in
  let actorHandle :=
    or_else (match actorProfile with Some p => ap_handle p | None => None end)
            actor in
  let actorName :=
    or_else (match actorProfile with
             | Some p => ap_displayName p | None => None end)
            actorHandle in
  let data : option (list notification) :=
    if dedup_error env then None else Some (existing db userId r actor) in
  match data with
  | Some (_ :: _) => (not_created "duplicate", db)
  | _ =>
      let insertData :=
        {| n_user_id := userId; n_reason := r;
           n_post_id := or_null postId; n_actor_id := None;
           n_is_external := true; n_actor_did := Some actor;
           n_actor_handle := Some actorHandle;
           n_actor_display_name := Some actorName;
           n_actor_avatar :=
             or_null (match actorProfile with
                      | Some p => ap_avatar p | None => None end);
           n_is_read := false; n_created_at := now_iso env |} in
      match insert_error env with
      | Some message => (not_created message, db)
      | None =>
          ({| created := true; type := Some r; why := None |},
           {| profiles := profiles db; posts := posts db;
              notifications := (notifications db ++ [insertData])%list |})
      end
  end.

(** [actor?.id === owner] *)
Definition same_user (actor : option profile) (owner : string) : bool :=
  match actor with
  | Some a => String.eqb (profile_id a) owner
  | None => false
  end.

Definition processLike (env : Env) (event : JetstreamEvent) (db : DB)
  : outcome * DB :=
  match record_subject_uri event with
  | Some subjectUri =>
    if negb (truthy (Some subjectUri))
       || negb (includes subjectUri CANNECT_DOMAIN)
    then (not_created "not cannect content", db)
    else
      match findPostByUri db subjectUri with
      | None => (not_created "post not found", db)
      | Some p =>
          let actor := findUserByDid db (actorDid event) in
          if same_user actor (post_user_id p)
          then (not_created "self-like", db)
          else createNotification env (post_user_id p) (actorDid event)
                                  like (Some (post_id p)) db
      end
  | None => (not_created "not cannect content", db)
  end.

Definition processRepost (env : Env) (event : JetstreamEvent) (db : DB)
  : outcome * DB :=
  match record_subject_uri event with
  | Some subjectUri =>
    if negb (truthy (Some subjectUri))
       || negb (includes subjectUri CANNECT_DOMAIN)
    then (not_created "not cannect content", db)
    else
      match findPostByUri db subjectUri with
      | None => (not_created "post not found", db)
      | Some p =>
          let actor := findUserByDid db (actorDid event) in
          if same_user actor (post_user_id p)
          then (not_created "self-repost", db)
          else createNotification env (post_user_id p) (actorDid event)
                                  repost (Some (post_id p)) db
      end
  | None => (not_created "not cannect content", db)
  end.

(** One of the two blocks of [processPost],
    [if (uri && uri.includes(CANNECT_DOMAIN)) { ... }]: [Some] of what the
    block returns, [None] when control falls through it. *)
Definition notify_target (env : Env) (event : JetstreamEvent) (db : DB)
    (uri : option string) (r : reason) : option (outcome * DB) :=
  match uri with
  | Some u =>
      if truthy uri && includes u CANNECT_DOMAIN then
        match findPostByUri db u with
        | Some p =>
            let actor := findUserByDid db (actorDid event) in
            if negb (same_user actor (post_user_id p))
            then Some (createNotification env (post_user_id p)
                         (actorDid event) r (Some (post_id p)) db)
            else None
        | None => None
        end
      else None
  | None => None
  end.

Definition processPost (env : Env) (event : JetstreamEvent) (db : DB)
  : outcome * DB :=
  (* Check for reply to Cannect post *)
  match notify_target env event db (record_reply_parent_uri event) reply with
  | Some returned => returned
  | None =>
      (* Check for quote of Cannect post *)
      match notify_target env event db (record_embed_record_uri event) quote
      with
      | Some returned => returned
      | None => (not_created "not relevant", db)
      end
  end.

Definition processFollow (env : Env) (event : JetstreamEvent) (db : DB)
  : outcome * DB :=
  if negb (truthy (record_subject event))
  then (not_created "no subject", db)
  else
    match record_subject event with
    | None => (not_created "no subject", db)
    | Some subjectDid =>
        match findUserByDid db subjectDid with
        | None => (not_created "target not cannect user", db)
        | Some targetUser =>
            let actor := findUserByDid db (actorDid event) in
            if same_user actor (profile_id targetUser)
            then (not_created "self-follow", db)
            else createNotification env (profile_id targetUser)
                                    (actorDid event) follow None db
        end
    end.

(** The POST handler of [serve]: only create operations, then the switch
    on the collection. *)
Definition process_event (env : Env) (event : JetstreamEvent) (db : DB)
  : outcome * DB :=
  if negb (String.eqb (operation event) "create")
  then (not_created "not create operation", db)
  else if String.eqb (collection event) "app.bsky.feed.like"
  then processLike env event db
  else if String.eqb (collection event) "app.bsky.feed.repost"
  then processRepost env event db
  else if String.eqb (collection event) "app.bsky.feed.post"
  then processPost env event db
  else if String.eqb (collection event) "app.bsky.graph.follow"
  then processFollow env event db
  else (not_created "unknown collection", db).

(** The notification key of the spec: (owner, reason, actor, post). *)
Definition same_key (userId : string) (r : reason) (actor : string)
    (postId : option string) (n : notification) : bool :=
  String.eqb (n_user_id n) userId
  && reason_eqb (n_reason n) r
  && match n_actor_did n with
     | Some d => String.eqb d actor
     | None => false
     end
  && match n_post_id n, postId with
     | Some a, Some b => String.eqb a b
     | None, None => true
     | _, _ => false
     end.




(** *** Sample data *)
Module Sample.

Definition alice : profile :=
  {| profile_id := "u-alice"; profile_did := Some "did:plc:alice" |}.

Definition post1 : post :=
  {| post_id := "p-1"; post_user_id := "u-alice"; post_content := "first";
     post_atproto_uri :=
       Some "at://alice.cannect.space/app.bsky.feed.post/3maj3nlms22k7" |}.

Definition post2 : post :=
  {| post_id := "p-2"; post_user_id := "u-alice"; post_content := "second";
     post_atproto_uri :=
       Some "at://alice.cannect.space/app.bsky.feed.post/3maj3nlms22k8" |}.

Definition db0 : DB :=
  {| profiles := [alice]; posts := [post1; post2]; notifications := [] |}.

Definition env0 : Env :=
  {| getActorProfile := fun _ => None; now_iso := "2025-12-24T10:00:00.000Z";
     dedup_error := false; insert_error := None |}.

Definition like_of (uri : string) (actor : string) : JetstreamEvent :=
  {| actorDid := actor; collection := "app.bsky.feed.like";
     operation := "create"; record_subject_uri := Some uri;
     record_subject := None; record_reply_parent_uri := None;
     record_embed_record_uri := None; rkey := "3maj3nlms22k9";
     time_us := 1766570400000000%Z |}.

(** An external Bluesky user likes alice's first post, then her second. *)
Definition like_post1 : JetstreamEvent :=
  like_of "at://alice.cannect.space/app.bsky.feed.post/3maj3nlms22k7"
          "did:plc:external".

Definition like_post2 : JetstreamEvent :=
  like_of "at://alice.cannect.space/app.bsky.feed.post/3maj3nlms22k8"
          "did:plc:external".


End Sample.

(** *** Proofs *)



(** [createNotification] writes [notifications] only, and only a row for
    the user and actor it was called for. *)
Lemma createNotification_rows env userId actor r postId db :
  let db' := snd (createNotification env userId actor r postId db) in
  profiles db' = profiles db /\ posts db' = posts db /\
  (notifications db' = notifications db \/
   exists n, notifications db' = (notifications db ++ [n])%list /\
             n_user_id n = userId /\ n_reason n = r /\
             n_actor_did n = Some actor /\ n_is_external n = true /\
             n_post_id n = or_null postId).
Proof.
  unfold createNotification.
  destruct (if dedup_error env then None
            else Some (existing db userId r actor)) as [[|x l]|];
    [|cbn; auto|].
  all: destruct (insert_error env); cbn; [auto|].
  all: repeat split; auto; right; eexists; split; [reflexivity|]; cbn; auto.
Qed.



(** When the dedup query works and finds a row, nothing is written. *)
Lemma createNotification_declines env userId actor r postId db :
  dedup_error env = false -> existing db userId r actor <> [] ->
  createNotification env userId actor r postId db
  = (not_created "duplicate", db).
Proof.
  intros Hd Hne. unfold createNotification. rewrite Hd.
  destruct (existing db userId r actor); [congruence | reflexivity].
Qed.

Lemma reason_eqb_refl r : reason_eqb r r = true.
Proof. now destruct r. Qed.

(** Once an external notification of this owner, reason and actor is
    stored, [createNotification] declines, whatever the post. *)
Lemma createNotification_duplicate env userId actor r postId db n :
  dedup_error env = false ->
  In n (notifications db) ->
  n_user_id n = userId -> n_reason n = r -> n_actor_did n = Some actor ->
  n_is_external n = true ->
  createNotification env userId actor r postId db
  = (not_created "duplicate", db).
Proof.
  intros Hd Hin Hu Hr Ha He. apply createNotification_declines; [exact Hd|].
  intros E. assert (H : In n (existing db userId r actor)).
  { unfold existing. apply filter_In. split; [exact Hin|].
    now rewrite Hu, Hr, Ha, He, !String.eqb_refl, reason_eqb_refl. }
  rewrite E in H. exact H.
Qed.

Lemma includes_truthy u : includes u CANNECT_DOMAIN = true -> truthy (Some u) = true.
Proof. destruct u; [discriminate | reflexivity]. Qed.









(** Processing changes [notifications] only. *)
Lemma process_event_frame env event db :
  profiles (snd (process_event env event db)) = profiles db /\
  posts (snd (process_event env event db)) = posts db.
Proof.
  assert (C : forall u a r p,
             profiles (snd (createNotification env u a r p db)) = profiles db /\
             posts (snd (createNotification env u a r p db)) = posts db).
  { intros. destruct (createNotification_rows env u a r p db) as (H1 & H2 & _).
    auto. }
  assert (T : forall uri r res,
             notify_target env event db uri r = Some res ->
             profiles (snd res) = profiles db /\ posts (snd res) = posts db).
  { intros uri r res. unfold notify_target. destruct uri as [u|]; [|discriminate].
    destruct (_ && _); [|discriminate].
    destruct (findPostByUri db u); [|discriminate].
    destruct (negb _); [|discriminate]. intros [= <-]. apply C. }
  unfold process_event, processLike, processRepost, processPost, processFollow.
  repeat match goal with
         | |- context [match notify_target ?e ?v ?d ?u ?r with _ => _ end] =>
             let E := fresh "E" in
             destruct (notify_target e v d u r) eqn:E; [now apply T in E|]
         | |- context [if ?b then _ else _] => destruct b
         | |- context [match ?x with _ => _ end] => destruct x
         end; auto.
Qed.

Lemma createNotification_twice env userId actor r postId db :
  dedup_error env = false ->
  snd (createNotification env userId actor r postId
         (snd (createNotification env userId actor r postId db)))
  = snd (createNotification env userId actor r postId db).
Proof.
  intros Hd.
  destruct (createNotification_rows env userId actor r postId db)
    as (_ & _ & [E | [n (E & Hu & Hr & Ha & He & _)]]).
  - assert (Hdb : snd (createNotification env userId actor r postId db) = db).
    { revert E. unfold createNotification. rewrite Hd.
      destruct (existing db userId r actor); [|reflexivity].
      destruct (insert_error env); [reflexivity|]. cbn. intros E.
      apply (f_equal (@List.length _)) in E. rewrite length_app in E.
      cbn in E. lia. }
    now rewrite !Hdb.
  - rewrite (createNotification_duplicate env userId actor r postId _ n);
      auto.
    rewrite E. apply in_or_app. right. now left.
Qed.

(** What an event asks for depends on [profiles] and [posts] only: either a
    call of [createNotification] or a refusal. *)
Lemma process_event_decision env event db :
  exists dec : (string * reason * option string) + string,
    forall db', profiles db' = profiles db -> posts db' = posts db ->
      process_event env event db'
      = match dec with
        | inl (owner, r, pid) =>
            createNotification env owner (actorDid event) r pid db'
        | inr msg => (not_created msg, db')
        end.
Proof.
  assert (FP : forall db' u, posts db' = posts db ->
                 findPostByUri db' u = findPostByUri db u)
    by (intros db' u H; unfold findPostByUri; now rewrite H).
  assert (FU : forall db' d, profiles db' = profiles db ->
                 findUserByDid db' d = findUserByDid db d)
    by (intros db' d H; unfold findUserByDid; now rewrite H).
  assert (NT : forall uri r,
    (exists owner pid, forall db', profiles db' = profiles db ->
        posts db' = posts db ->
        notify_target env event db' uri r
        = Some (createNotification env owner (actorDid event) r pid db')) \/
    (forall db', profiles db' = profiles db -> posts db' = posts db ->
        notify_target env event db' uri r = None)).
  { intros uri r. unfold notify_target. destruct uri as [u|]; [|now right].
    destruct (truthy (Some u) && includes u CANNECT_DOMAIN); [|now right].
    destruct (findPostByUri db u) as [p|] eqn:Ef.
    2:{ right. intros db' H1 H2. now rewrite FP, Ef. }
    destruct (same_user (findUserByDid db (actorDid event)) (post_user_id p))
      eqn:Es.
    - right. intros db' H1 H2. now rewrite FP, Ef, FU, Es.
    - left. exists (post_user_id p), (Some (post_id p)).
      intros db' H1 H2. now rewrite FP, Ef, FU, Es. }
  unfold process_event.
  destruct (negb (operation event =? "create"));
    [exists (inr "not create operation"); reflexivity|].
  destruct (collection event =? "app.bsky.feed.like").
  { unfold processLike. destruct (record_subject_uri event) as [u|];
      [|exists (inr "not cannect content"); reflexivity].
    destruct (_ || _); [exists (inr "not cannect content"); reflexivity|].
    destruct (findPostByUri db u) as [p|] eqn:Ef.
    2:{ exists (inr "post not found"). intros db' H1 H2. now rewrite FP, Ef. }
    destruct (same_user (findUserByDid db (actorDid event)) (post_user_id p))
      eqn:Es.
    - exists (inr "self-like"). intros db' H1 H2. now rewrite FP, Ef, FU, Es.
    - exists (inl (post_user_id p, like, Some (post_id p))).
      intros db' H1 H2. now rewrite FP, Ef, FU, Es. }
  destruct (collection event =? "app.bsky.feed.repost").
  { unfold processRepost. destruct (record_subject_uri event) as [u|];
      [|exists (inr "not cannect content"); reflexivity].
    destruct (_ || _); [exists (inr "not cannect content"); reflexivity|].
    destruct (findPostByUri db u) as [p|] eqn:Ef.
    2:{ exists (inr "post not found"). intros db' H1 H2. now rewrite FP, Ef. }
    destruct (same_user (findUserByDid db (actorDid event)) (post_user_id p))
      eqn:Es.
    - exists (inr "self-repost"). intros db' H1 H2. now rewrite FP, Ef, FU, Es.
    - exists (inl (post_user_id p, repost, Some (post_id p))).
      intros db' H1 H2. now rewrite FP, Ef, FU, Es. }
  destruct (collection event =? "app.bsky.feed.post").
  { unfold processPost.
    destruct (NT (record_reply_parent_uri event) reply)
      as [[owner [pid H]] | H].
    { exists (inl (owner, reply, pid)). intros db' H1 H2. now rewrite H. }
    destruct (NT (record_embed_record_uri event) quote)
      as [[owner [pid H']] | H'].
    { exists (inl (owner, quote, pid)). intros db' H1 H2.
      now rewrite H, H'. }
    exists (inr "not relevant"). intros db' H1 H2. now rewrite H, H'. }
  destruct (collection event =? "app.bsky.graph.follow");
    [|exists (inr "unknown collection"); reflexivity].
  unfold processFollow. destruct (negb _);
    [exists (inr "no subject"); reflexivity|].
  destruct (record_subject event) as [t|];
    [|exists (inr "no subject"); reflexivity].
  destruct (findUserByDid db t) as [tu|] eqn:Ef.
  2:{ exists (inr "target not cannect user"). intros db' H1 H2.
      now rewrite FU, Ef. }
  destruct (same_user (findUserByDid db (actorDid event)) (profile_id tu))
    eqn:Es.
  - exists (inr "self-follow"). intros db' H1 H2.
    now rewrite (FU db' t H1), Ef, (FU db' (actorDid event) H1), Es.
  - exists (inl (profile_id tu, follow, None)). intros db' H1 H2.
    now rewrite (FU db' t H1), Ef, (FU db' (actorDid event) H1), Es.
Qed.

(** At-least-once delivery: the identical event, processed a second time,
    changes nothing, as long as the dedup query works. *)
Lemma process_event_twice env event db :
  dedup_error env = false ->
  snd (process_event env event (snd (process_event env event db)))
  = snd (process_event env event db).
Proof.
  intros Hd.
  destruct (process_event_decision env event db) as [dec H].
  destruct (process_event_frame env event db) as [H1 H2].
  rewrite (H _ H1 H2). rewrite (H db eq_refl eq_refl).
  destruct dec as [[[owner r] pid] | msg]; [|reflexivity].
  now apply createNotification_twice.
Qed.

(** C4, at the failing input: an external actor likes one post of alice and
    then another post of hers.  Before the second event no notification with
    the key (alice, like, actor, second post) exists, yet the second event
    is dropped as a duplicate and one notification row is all there is: the
    dedup query of [createNotification] does not look at the post. *)
Theorem second_like_on_other_post_dropped :
  let '(out1, db1) := process_event Sample.env0 Sample.like_post1 Sample.db0 in
  let '(out2, db2) := process_event Sample.env0 Sample.like_post2 db1 in
  created out1 = true /\
  filter (same_key "u-alice" like "did:plc:external" (Some "p-2"))
         (notifications db1) = [] /\
  out2 = not_created "duplicate" /\
  map n_post_id (notifications db2) = [Some "p-1"].
Proof. vm_compute. repeat split. Qed.

End Ingester.

(* ================================================================== *)
(** ** The feed predicate: feed-logic.js *)
(* ================================================================== *)
Module FeedLogic.
Local Open Scope string_scope.

(** JavaScript strings are taken as sequences of 8-bit units: ASCII text as
    it is, any other character as units of 128 and above (its UTF-8
    bytes).  Such units are not word characters and are equal, under the
    case-insensitive comparison, to no ASCII character, as it is with the
    UTF-16 units of the engine. *)

Definition CANNABIS_KEYWORDS : list string :=
  [ (* Plant & product terms *)
    "cannabis"; "marijuana"; "weed"; "thc"; "cbd"; "sativa"; "indica";
    "hybrid strain";
    (* Consumption *)
    "dispensary"; "edible"; "edibles"; "joint"; "blunt"; "bong"; "dab";
    "dabbing"; "dabs"; "vape cart"; "vape pen";
    (* Culture *)
    "420"; "4/20"; "stoner"; "stoned"; "high af"; "wake and bake";
    (* Products *)
    "kush"; "strain"; "strains"; "terpene"; "terpenes"; "terps";
    "concentrates"; "flower"; "pre-roll"; "preroll"; "live rosin";
    "live resin"; "hash"; "hashish";
    (* Medical *)
    "medical marijuana"; "mmj"; "medical cannabis";
    (* Industry *)
    "cannabusiness"; "cannabis industry"; "grow op"; "cultivation";
    "grower" ].

(** The characters of the class [[.*+?^${}()|[\]\\]]. *)
Definition special (c : ascii) : bool :=
  existsb (Ascii.eqb c)
    ["."; "*"; "+"; "?"; "^"; "$"; "{"; "}"; "("; ")"; "|"; "["; "]"; "\"]%char.

(** [kw.replace(/[.*+?^${}()|[\]\\]/g, '\\$&')] *)
Fixpoint escape (kw : string) : string :=
  match kw with
  | EmptyString => EmptyString
  | String c s =>
      if special c then String "\" (String c (escape s))
      else String c (escape s)
  end.

Definition keywordPatterns : list string := map escape CANNABIS_KEYWORDS.

(** *** Regular expressions, as far as the pattern uses them *)

Inductive regex : Type :=
| Empty
| Char (c : ascii)
| Seq (r1 r2 : regex)
| Alt (r1 r2 : regex)
| WordBoundary.

(** The word characters of [\b]: [A-Za-z0-9_]. *)
Definition is_word_char (c : ascii) : bool :=
  let n := nat_of_ascii c in
  (((65 <=? n) && (n <=? 90)) || ((97 <=? n) && (n <=? 122))
   || ((48 <=? n) && (n <=? 57)) || (n =? 95))%nat.

Definition is_word (c : option ascii) : bool :=
  match c with Some c => is_word_char c | None => false end.

(** Canonicalize of the [i] flag: the upper-case form; a unit of 128 or above
    never becomes an ASCII character. *)
Definition canonicalize (c : ascii) : ascii :=
  let n := nat_of_ascii c in
  if ((97 <=? n) && (n <=? 122))%nat then ascii_of_nat (n - 32) else c.

(** The backtracking matcher: [m r prev rest k] matches [r] at the position
    that has [prev] just before it and [rest] from it on, and hands the
    position it reaches to the continuation [k]. *)
Fixpoint m (r : regex) (prev : option ascii) (rest : string)
    (k : option ascii -> string -> bool) : bool :=
  match r with
  | Empty => k prev rest
  | Char c =>
      match rest with
      | String d rest' =>
          Ascii.eqb (canonicalize d) (canonicalize c) && k (Some d) rest'
      | EmptyString => false
      end
  | Seq r1 r2 => m r1 prev rest (fun p s => m r2 p s k)
  | Alt r1 r2 => m r1 prev rest k || m r2 prev rest k
  | WordBoundary => xorb (is_word prev) (is_word (match rest with
                                                  | String d _ => Some d
                                                  | EmptyString => None
                                                  end))
                    && k prev rest
  end.

(** [regex.test(text)] without the [g] and [y] flags: a match starting at
    the first position, or at a later one. *)
Fixpoint test_from (r : regex) (prev : option ascii) (rest : string) : bool :=
  m r prev rest (fun _ _ => true)
  || match rest with
     | String c rest' => test_from r (Some c) rest'
     | EmptyString => false
     end.

Definition test (r : regex) (text : string) : bool := test_from r None text.

(** The pattern text of an escaped keyword, read back: [\c] is the
    character [c], any other character is itself. *)
Fixpoint literal (pattern : string) : regex :=
  match pattern with
  | EmptyString => Empty
  | String c s =>
      if Ascii.eqb c "\"
      then match s with
           | String d s' => Seq (Char d) (literal s')
           | EmptyString => Empty
           end
      else Seq (Char c) (literal s)
  end.

(** [p1|p2|...|pn] *)
Fixpoint alternation (patterns : list string) : regex :=
  match patterns with
  | [] => Empty
  | [p] => literal p
  | p :: ps => Alt (literal p) (alternation ps)
  end.

(** [new RegExp('\\b(' + keywordPatterns.join('|') + ')\\b', 'i')]; the
    group captures and does not change what matches. *)
Definition CANNABIS_REGEX : regex :=
  Seq WordBoundary (Seq (alternation keywordPatterns) WordBoundary).

(** [s.endsWith(suffix)] *)
Definition endsWith (s suffix : string) : bool :=
  let n := String.length s in
  let k := String.length suffix in
  (k <=? n)%nat && String.eqb (String.substring (n - k) k s) suffix.

Record inclusion := { include : bool; reason : string }.

(** JavaScript truthiness of a string argument that may be missing. *)
Definition truthy (s : option string) : bool :=
  match s with
  | Some s => negb (String.eqb s "")
  | None => false
  end.

Definition shouldIncludePost (authorHandle text : option string) : inclusion :=
  (* Rule 1: Always include cannect.space users *)
  if truthy authorHandle
     && match authorHandle with
        | Some h => endsWith h ".cannect.space"
        | None => false
        end
  then {| include := true; reason := "cannect_user" |}
  (* Rule 2: Check for cannabis keywords *)
  else if truthy text
          && match text with
             | Some t => test CANNABIS_REGEX t
             | None => false
             end
  then {| include := true; reason := "keyword_match" |}
  else {| include := false; reason := "no_match" |}.

(** *** The rule in the words of the specification *)

(** Equal up to the case of ASCII letters, character by character. *)
Fixpoint same_ignoring_case (a b : string) : Prop :=
  match a, b with
  | EmptyString, EmptyString => True
  | String x a', String y b' =>
      canonicalize x = canonicalize y /\ same_ignoring_case a' b'
  | _, _ => False
  end.

Fixpoint last_char (prev : option ascii) (s : string) : option ascii :=
  match s with
  | EmptyString => prev
  | String c s' => last_char (Some c) s'
  end.

Definition first_char (s : string) : option ascii :=
  match s with
  | EmptyString => None
  | String c _ => Some c
  end.

(** [text] contains [kw] as a whole word: an occurrence, up to case, that
    has no word character right before it and none right after it. *)
Definition whole_word (kw text : string) : Prop :=
  exists before mid after,
    text = before ++ mid ++ after /\
    same_ignoring_case kw mid /\
    is_word (last_char None before) = false /\
    is_word (first_char after) = false.

Definition contains_keyword (text : string) : Prop :=
  exists kw, In kw CANNABIS_KEYWORDS /\ whole_word kw text.

Definition has_suffix (s suffix : string) : Prop :=
  exists front, s = front ++ suffix.

(** The post's author is in the namespace, or its text has a keyword. *)
Definition qualifies (authorHandle text : option string) : Prop :=
  (exists h, authorHandle = Some h /\ has_suffix h ".cannect.space") \/
  (exists t, text = Some t /\ contains_keyword t).

(** A pattern text without escapes. *)
Fixpoint no_backslash (p : string) : bool :=
  match p with
  | EmptyString => true
  | String c s => negb (Ascii.eqb c "\") && no_backslash s
  end.

(** A keyword that begins and ends with a word character. *)
Definition word_ends (kw : string) : bool :=
  is_word (first_char kw) && is_word (last_char None kw)
  && negb (String.eqb kw "").

(** *** Proofs *)

Lemma escape_keywords : keywordPatterns = CANNABIS_KEYWORDS.
Proof. vm_compute. reflexivity. Qed.

Lemma keywords_plain : forallb no_backslash CANNABIS_KEYWORDS = true.
Proof. vm_compute. reflexivity. Qed.

Lemma string_app_assoc (a b c : string) : (a ++ b) ++ c = a ++ (b ++ c).
Proof. induction a as [|x a IH]; simpl; [reflexivity | now rewrite IH]. Qed.

Lemma last_char_app prev a b :
  last_char prev (a ++ b) = last_char (last_char prev a) b.
Proof. revert prev. induction a as [|x a IH]; intros prev; simpl; auto. Qed.

(** A literal pattern matches the strings equal to it up to case. *)
Lemma m_literal p : no_backslash p = true ->
  forall prev rest k,
    m (literal p) prev rest k = true <->
    exists mid after, rest = mid ++ after /\ same_ignoring_case p mid /\
                      k (last_char prev mid) after = true.
Proof.
  induction p as [|c p IH]; intros Hp prev rest k.
  - cbn [literal m]. split.
    + intros H. exists "", rest. cbn. auto.
    + intros (mid & after & -> & Hs & Hk). destruct mid; [exact Hk | destruct Hs].
  - cbn [no_backslash] in Hp. apply andb_prop in Hp as [Hc Hp].
    apply negb_true_iff in Hc. cbn [literal]. rewrite Hc. cbn [m].
    destruct rest as [|d rest].
    + split; [discriminate|]. intros (mid & after & E & Hs & _).
      destruct mid; [destruct Hs | discriminate].
    + rewrite andb_true_iff, Ascii.eqb_eq, (IH Hp). split.
      * intros (Hd & mid & after & -> & Hs & Hk).
        exists (String d mid), after. cbn. auto.
      * intros (mid & after & E & Hs & Hk). destruct mid as [|x mid]; [destruct Hs|].
        cbn in E. injection E as -> ->. destruct Hs as [Hx Hs].
        split; [now symmetry|]. exists mid, after. auto.
Qed.

Lemma m_alternation ps : ps <> [] -> forallb no_backslash ps = true ->
  forall prev rest k,
    m (alternation ps) prev rest k = true <->
    exists p, In p ps /\ m (literal p) prev rest k = true.
Proof.
  induction ps as [|p ps IH]; intros Hne Hps prev rest k; [congruence|].
  cbn [forallb] in Hps. apply andb_prop in Hps as [Hp Hps].
  destruct ps as [|q ps].
  - cbn [alternation]. split.
    + intros H. exists p. split; [now left | exact H].
    + intros (p' & [<- | []] & H). exact H.
  - change (alternation (p :: q :: ps))
      with (Alt (literal p) (alternation (q :: ps))).
    cbn [m]. rewrite orb_true_iff, (IH ltac:(discriminate) Hps). split.
    + intros [H | (p' & Hin & H)].
      * exists p. split; [now left | exact H].
      * exists p'. split; [now right | exact H].
    + intros (p' & [<- | Hin] & H); [now left|].
      right. exists p'. auto.
Qed.

Lemma test_from_iff r : forall rest prev,
  test_from r prev rest = true <->
  exists before rest', rest = before ++ rest' /\
    m r (last_char prev before) rest' (fun _ _ => true) = true.
Proof.
  induction rest as [|c rest IH]; intros prev; cbn [test_from].
  - rewrite orb_false_r. split.
    + intros H. exists "", "". auto.
    + intros (before & rest' & E & H). destruct before; [|discriminate].
      cbn in E. subst rest'. exact H.
  - rewrite orb_true_iff, IH. split.
    + intros [H | (before & rest' & -> & H)].
      * exists "", (String c rest). auto.
      * exists (String c before), rest'. auto.
    + intros (before & rest' & E & H). destruct before as [|x before].
      * left. cbn in E. now subst rest'.
      * right. cbn in E. injection E as -> ->. exists before, rest'. auto.
Qed.

Lemma canonicalize_word c : is_word_char (canonicalize c) = is_word_char c.
Proof. destruct c as [[] [] [] [] [] [] [] []]; reflexivity. Qed.

Lemma same_case_word x y :
  canonicalize x = canonicalize y -> is_word_char x = is_word_char y.
Proof.
  intros H. rewrite <- (canonicalize_word x), <- (canonicalize_word y).
  now rewrite H.
Qed.

Lemma same_case_first a b :
  same_ignoring_case a b -> is_word (first_char a) = is_word (first_char b).
Proof.
  destruct a, b; cbn; try tauto. intros [H _]. now apply same_case_word.
Qed.

Lemma same_case_last a : forall b pa pb,
  same_ignoring_case a b -> a <> "" ->
  is_word (last_char pa a) = is_word (last_char pb b).
Proof.
  induction a as [|x a IH]; intros [|y b] pa pb Hs Hne; cbn in Hs; try tauto.
  destruct Hs as [Hxy Hs]. cbn [last_char].
  destruct a as [|x' a].
  - destruct b; [|destruct Hs]. cbn. now apply same_case_word.
  - apply IH; [exact Hs | discriminate].
Qed.

Lemma keywords_word_ends : forallb word_ends CANNABIS_KEYWORDS = true.
Proof. vm_compute. reflexivity. Qed.

Lemma first_char_app a b : a <> "" -> first_char (a ++ b) = first_char a.
Proof. destruct a; [congruence | reflexivity]. Qed.

Lemma same_case_nonempty a b : same_ignoring_case a b -> a <> "" -> b <> "".
Proof. destruct a, b; cbn; try tauto; discriminate. Qed.

(** The pattern finds exactly the whole-word occurrences of the keywords. *)
Lemma test_CANNABIS_REGEX text :
  test CANNABIS_REGEX text = true <-> contains_keyword text.
Proof.
  unfold test, contains_keyword, whole_word. rewrite test_from_iff.
  unfold CANNABIS_REGEX. rewrite escape_keywords.
  pose proof keywords_plain as Hplain. pose proof keywords_word_ends as Hends.
  rewrite forallb_forall in Hplain, Hends.
  assert (Hne : CANNABIS_KEYWORDS <> []) by discriminate.
  split.
  - intros (before & rest & -> & H). cbn [m] in H.
    apply andb_prop in H as [Hb H].
    apply (m_alternation _ Hne keywords_plain) in H as (kw & Hin & H).
    apply (m_literal kw (Hplain kw Hin)) in H as (mid & after & -> & Hs & H).
    cbn [m] in H. rewrite andb_true_r in H.
    specialize (Hends kw Hin). unfold word_ends in Hends.
    apply andb_prop in Hends as [Hends Hk]. apply andb_prop in Hends as [Hf Hl].
    apply negb_true_iff, String.eqb_neq in Hk.
    exists kw. split; [exact Hin|]. exists before, mid, after.
    split; [reflexivity|]. split; [exact Hs|].
    assert (Hmid : mid <> "") by (eapply same_case_nonempty; eauto).
    rewrite <- (same_case_last kw mid None (last_char None before) Hs Hk), Hl in H.
    assert (Hfm : is_word (first_char (mid ++ after)) = true).
    { rewrite first_char_app by exact Hmid.
      now rewrite <- (same_case_first kw mid Hs). }
    replace (match mid ++ after with String d _ => Some d | "" => None end)
      with (first_char (mid ++ after)) in Hb by reflexivity.
    rewrite Hfm in Hb.
    replace (match after with String d _ => Some d | "" => None end)
      with (first_char after) in H by reflexivity.
    split.
    + now destruct (is_word (last_char None before)).
    + now destruct (is_word (first_char after)).
  - intros (kw & Hin & before & mid & after & -> & Hs & Hb & Ha).
    exists before, (mid ++ after). split; [reflexivity|].
    specialize (Hends kw Hin). unfold word_ends in Hends.
    apply andb_prop in Hends as [Hends Hk]. apply andb_prop in Hends as [Hf Hl].
    apply negb_true_iff, String.eqb_neq in Hk.
    assert (Hmid : mid <> "") by (eapply same_case_nonempty; eauto).
    cbn [m]. apply andb_true_intro. split.
    + replace (match mid ++ after with String d _ => Some d | "" => None end)
        with (first_char (mid ++ after)) by reflexivity.
      rewrite first_char_app by exact Hmid.
      rewrite <- (same_case_first kw mid Hs), Hf, Hb. reflexivity.
    + apply (m_alternation _ Hne keywords_plain). exists kw. split; [exact Hin|].
      apply (m_literal kw (Hplain kw Hin)). exists mid, after.
      split; [reflexivity|]. split; [exact Hs|].
      cbn [m]. rewrite andb_true_r.
      replace (match after with String d _ => Some d | "" => None end)
        with (first_char after) by reflexivity.
      rewrite <- (same_case_last kw mid None (last_char None before) Hs Hk).
      now rewrite Hl, Ha.
Qed.

Lemma string_length_app (a b : string) :
  String.length (a ++ b) = String.length a + String.length b.
Proof. induction a as [|x a IH]; simpl; [reflexivity | now rewrite IH]. Qed.

Lemma substring_all x : substring 0 (String.length x) x = x.
Proof. induction x as [|c x IH]; simpl; [reflexivity | now rewrite IH]. Qed.

Lemma substring_after front x :
  substring (String.length front) (String.length x) (front ++ x) = x.
Proof. induction front as [|c f IH]; simpl; [apply substring_all | exact IH]. Qed.

Lemma substring_split s : forall i, i <= String.length s ->
  s = substring 0 i s ++ substring i (String.length s - i) s.
Proof.
  induction s as [|c s IH]; intros [|i] Hi; simpl in *; try lia.
  - reflexivity.
  - now rewrite substring_all.
  - f_equal. apply IH. lia.
Qed.

Lemma endsWith_iff s suffix : endsWith s suffix = true <-> has_suffix s suffix.
Proof.
  unfold endsWith, has_suffix. rewrite andb_true_iff, Nat.leb_le, String.eqb_eq.
  split.
  - intros [Hk E].
    exists (substring 0 (String.length s - String.length suffix) s).
    rewrite <- E at 2.
    replace (String.length suffix)
      with (String.length s - (String.length s - String.length suffix)) at 3
      by lia.
    apply substring_split. lia.
  - intros [front ->]. rewrite string_length_app. split; [lia|].
    replace (String.length front + String.length suffix - String.length suffix)
      with (String.length front) by lia.
    apply substring_after.
Qed.

Lemma include_iff authorHandle text :
  include (shouldIncludePost authorHandle text) = true <->
  qualifies authorHandle text.
Proof.
  unfold shouldIncludePost, qualifies.
  destruct authorHandle as [h|], text as [t|]; cbn [truthy].
  all: repeat match goal with
       | |- context [negb (?s =? "") && endsWith ?s ?x] =>
           replace (negb (s =? "") && endsWith s x) with (endsWith s x)
             by (destruct s; reflexivity);
           destruct (endsWith s x) eqn:Eh
       | |- context [negb (?s =? "") && test ?r ?s] =>
           replace (negb (s =? "") && test r s) with (test r s)
             by (destruct s; reflexivity);
           destruct (test r s) eqn:Et
       end; cbn [andb include].
  all: try apply endsWith_iff in Eh.
  all: try apply test_CANNABIS_REGEX in Et.
  all: split; try discriminate; try (intros _; eauto; fail).
  all: intros [(h' & [= <-] & H) | (t' & [= <-] & H)];
    try (apply endsWith_iff in H; congruence);
    try (apply test_CANNABIS_REGEX in H; congruence).
Qed.

(** C7: [shouldIncludePost] includes a post exactly when the author handle
    ends with [.cannect.space] or the text contains one of the keywords as a
    whole word, in any case, with no word character next to it.  A handle
    with the suffix is included whatever the text; a post of another handle
    with the word "cannabis" is included as a keyword match; a post with
    neither is excluded. *)
Theorem shouldIncludePost_rule :
  (forall authorHandle text,
      include (shouldIncludePost authorHandle text) = true <->
      qualifies authorHandle text) /\
  (forall front text,
      shouldIncludePost (Some (front ++ ".cannect.space")) text
      = {| include := true; reason := "cannect_user" |}) /\
  shouldIncludePost (Some "bob.bsky.social")
                    (Some "Legal cannabis sales begin today")
  = {| include := true; reason := "keyword_match" |} /\
  shouldIncludePost (Some "bob.bsky.social") (Some "Nice weather today")
  = {| include := false; reason := "no_match" |}.
Proof.
  split; [exact include_iff|]. split; [|split; vm_compute; reflexivity].
  intros front text. unfold shouldIncludePost.
  assert (H : endsWith (front ++ ".cannect.space") ".cannect.space" = true)
    by (apply endsWith_iff; now exists front).
  assert (T : truthy (Some (front ++ ".cannect.space")) = true)
    by (destruct front; reflexivity).
  now rewrite T, H.
Qed.

(** Whole words only, in any case. *)
Example keyword_matches :
  map (fun t => include (shouldIncludePost None (Some t)))
      ["WEED!"; "seaweed salad"; "weeds"; "#420 friendly"; "flight 4200";
       "Pre-Roll sale"; "weed_"; ""]
  = [true; false; false; true; false; true; false; false].
Proof. vm_compute. reflexivity. Qed.

Lemma shouldIncludePost_rule_witness :
  include (shouldIncludePost (Some "bob.bsky.social") (Some "WEED!")) = true.
Proof.
  apply (proj1 shouldIncludePost_rule). right.
  exists "WEED!". split; [reflexivity|].
  exists "weed". split; [simpl; tauto|].
  exists "", "WEED", "!". repeat split; reflexivity.
Defined.

End FeedLogic.

(* ================================================================== *)
(** ** The Feed Skeleton Service: feed-vps/index.js *)
(* ================================================================== *)
Module FeedSkeleton.
Local Open Scope string_scope.
Local Open Scope Z_scope.

(** *** parseInt *)

(** The white space [parseInt] skips, in 8-bit units: the ASCII characters
    TAB, LF, VT, FF, CR and SP, and the UTF-8 sequences of U+00A0, U+1680,
    U+2000..U+200A, U+2028, U+2029, U+202F, U+205F, U+3000 and U+FEFF. *)
Fixpoint skip_white_space (fuel : nat) (s : string) : string :=
  match fuel with
  | O => s
  | S fuel' =>
      match s with
      | String c s1 =>
          let n := nat_of_ascii c in
          if ((n =? 9) || (n =? 10) || (n =? 11) || (n =? 12) || (n =? 13)
              || (n =? 32))%nat
          then skip_white_space fuel' s1
          else
            match s1 with
            | String c2 s2 =>
                let n2 := nat_of_ascii c2 in
                if ((n =? 194) && (n2 =? 160))%nat
                then skip_white_space fuel' s2
                else
                  match s2 with
                  | String c3 s3 =>
                      let n3 := nat_of_ascii c3 in
                      if (((n =? 225) && (n2 =? 154) && (n3 =? 128))
                          || ((n =? 226) && (n2 =? 128)
                              && (((128 <=? n3) && (n3 <=? 138))
                                  || (n3 =? 168) || (n3 =? 169) || (n3 =? 175)))
                          || ((n =? 226) && (n2 =? 129) && (n3 =? 159))
                          || ((n =? 227) && (n2 =? 128) && (n3 =? 128))
                          || ((n =? 239) && (n2 =? 187) && (n3 =? 191)))%nat
                      then skip_white_space fuel' s3
                      else s
                  | EmptyString => s
                  end
            | EmptyString => s
            end
      | EmptyString => s
      end
  end.

(** *** Numbers *)

(** A JavaScript Number, as far as the handler meets them: NaN, an
    infinity, or a double whose value is an integer.  The zero [-0] is not
    told from [0]: both are falsy, equal under [===], neutral for [+], and
    print as ["0"]. *)
Inductive number : Type :=
| NaN
| Infinity (negative : bool)
| Num (z : Z).

(** The Number value for an integer: the nearest double, a tie going to the
    even mantissa; from [2 ^ 1024] on, an infinity. *)
Definition to_double (z : Z) : number :=
  let a := Z.abs z in
  if a <? 2 ^ 53 then Num z
  else
    let shift := Z.log2 a - 52 in
    let q := a / 2 ^ shift in
    let r := a mod 2 ^ shift in
    let half := 2 ^ (shift - 1) in
    let q' := if (half <? r) || ((r =? half) && Z.odd q) then q + 1 else q in
    let m := q' * 2 ^ shift in
    if 2 ^ 1024 <=? m then Infinity (z <? 0) else Num (Z.sgn z * m).

(** [a === b] on numbers. *)
Definition strict_equal (a b : number) : bool :=
  match a, b with
  | Num x, Num y => x =? y
  | Infinity s, Infinity t => Bool.eqb s t
  | _, _ => false
  end.

(** [x || d] on numbers: NaN and 0 are falsy. *)
Definition or_default (x d : number) : number :=
  match x with
  | NaN => d
  | Num 0 => d
  | _ => x
  end.

(** [Math.min(a, b)] *)
Definition Math_min (a b : number) : number :=
  match a, b with
  | NaN, _ | _, NaN => NaN
  | Infinity true, _ | _, Infinity true => Infinity true
  | Infinity false, y => y
  | x, Infinity false => x
  | Num x, Num y => Num (Z.min x y)
  end.

(** [a + b]: the exact sum, rounded. *)
Definition number_add (a b : number) : number :=
  match a, b with
  | NaN, _ | _, NaN => NaN
  | Infinity s, Infinity t => if Bool.eqb s t then Infinity s else NaN
  | Infinity s, Num _ | Num _, Infinity s => Infinity s
  | Num x, Num y => to_double (x + y)
  end.

(** *** parseInt *)

(** The value of a character as a digit of the radix, if it is one. *)
Definition digit_value (radix : Z) (c : ascii) : option Z :=
  let n := Z.of_nat (nat_of_ascii c) in
  let v := if (48 <=? n) && (n <=? 57) then Some (n - 48)
           else if (97 <=? n) && (n <=? 122) then Some (n - 87)
           else if (65 <=? n) && (n <=? 90) then Some (n - 55)
           else None in
  match v with
  | Some d => if d <? radix then Some d else None
  | None => None
  end.

(** The longest prefix of digits, accumulated; [None] without a digit. *)
Fixpoint parse_digits (radix : Z) (acc : option Z) (s : string) : option Z :=
  match s with
  | String c s' =>
      match digit_value radix c with
      | Some d =>
          parse_digits radix
            (Some (match acc with Some a => a * radix + d | None => d end)) s'
      | None => acc
      end
  | EmptyString => acc
  end.

(** A leading [-] or [+] is the sign and is removed. *)
Definition strip_sign (s : string) : Z * string :=
  match s with
  | String "-" rest => (-1, rest)
  | String "+" rest => (1, rest)
  | _ => (1, s)
  end.

(** Without a radix argument a leading [0x] or [0X] selects radix 16 and is
    removed; the radix is 10 otherwise. *)
Definition strip_prefix (s : string) : Z * string :=
  match s with
  | String "0" (String "x" rest) => (16, rest)
  | String "0" (String "X" rest) => (16, rest)
  | _ => (10, s)
  end.

(** [parseInt(string)] without a radix: the Number value for the integer
    the digits spell, NaN without a digit.  (The engine rounds the integer
    correctly, however many digits there are.) *)
Definition parseInt (input : option string) : number :=
  let inputString := match input with
                     | Some s => s
                     | None => "undefined"%string
                     end in
  let trimmed := skip_white_space (String.length inputString) inputString in
  let '(sign, unsigned) := strip_sign trimmed in
  let '(radix, digits) := strip_prefix unsigned in
  match parse_digits radix None digits with
  | Some mathInt => to_double (sign * mathInt)
  | None => NaN
  end.

(** [cursor.split(':')[1]] *)
Fixpoint up_to_colon (s : string) : string :=
  match s with
  | String c s' => if Ascii.eqb c ":" then EmptyString
                   else String c (up_to_colon s')
  | EmptyString => EmptyString
  end.

Fixpoint split_part_1 (s : string) : option string :=
  match s with
  | String c s' => if Ascii.eqb c ":" then Some (up_to_colon s')
                   else split_part_1 s'
  | EmptyString => None
  end.

(** *** Number to string *)

Definition digit_char (d : Z) : ascii := ascii_of_nat (Z.to_nat (48 + d)).

Fixpoint render_digits (fuel : nat) (n : Z) (tail : string) : string :=
  match fuel with
  | O => tail
  | S fuel' =>
      if n <? 10 then String (digit_char n) tail
      else render_digits fuel' (n / 10) (String (digit_char (n mod 10)) tail)
  end.

(** The decimal digits of a natural number, before [tail]. *)
Definition render_nat (n : Z) (tail : string) : string :=
  render_digits (S (Z.to_nat (Z.log2 n))) n tail.

(** The decimal numeral of an integer, exact. *)
Definition decimal (z : Z) : string :=
  if z <? 0 then String "-" (render_nat (- z) "") else render_nat z "".

(** The shortest decimal that the double [z] is the nearest double of:
    [shortest_from fuel k d z] tries [k], [k + 1], ... significant digits on
    a number [z] of [d] digits and answers [(s, e)] for [s * 10 ^ e]; with
    two candidates of one length, the one nearer to [z]. *)
Fixpoint shortest_from (fuel k : nat) (d : Z) (z : Z) : Z * Z :=
  match fuel with
  | O => (z, 0)
  | S fuel' =>
      let e := d - Z.of_nat k in
      if e <=? 0 then (z, 0)
      else
        let lo := z / 10 ^ e in
        let hi := lo + 1 in
        let ok s := strict_equal (to_double (s * 10 ^ e)) (Num z) in
        match ok lo, ok hi with
        | true, true =>
            let below := z - lo * 10 ^ e in
            let above := hi * 10 ^ e - z in
            if below <? above then (lo, e)
            else if above <? below then (hi, e)
            else if Z.even lo then (lo, e) else (hi, e)
        | true, false => (lo, e)
        | false, true => (hi, e)
        | false, false => shortest_from fuel' (S k) d z
        end
  end.

(** Trailing zeros of the digits go to the exponent. *)
Fixpoint strip_zeros (fuel : nat) (s e : Z) : Z * Z :=
  match fuel with
  | O => (s, e)
  | S fuel' =>
      if (0 <? s) && (s mod 10 =? 0) then strip_zeros fuel' (s / 10) (e + 1)
      else (s, e)
  end.

Fixpoint zeros (n : nat) (tail : string) : string :=
  match n with
  | O => tail
  | S n' => String "0" (zeros n' tail)
  end.

(** Number::toString of a positive integer-valued double.  Below [2 ^ 53]
    every integer is a double and the shortest digits are the exact ones.
    From [10 ^ 21] on the notation is scientific. *)
Definition positive_to_string (z : Z) : string :=
  if z <? 2 ^ 53 then render_nat z ""
  else
    let d := Z.of_nat (String.length (render_nat z "")) in
    let '(s0, e0) := shortest_from 17 1 d z in
    let '(s, e) := strip_zeros (Z.to_nat d) s0 e0 in
    let digits := render_nat s "" in
    let n := Z.of_nat (String.length digits) + e in
    if n <=? 21 then render_nat s (zeros (Z.to_nat e) "")
    else
      match digits with
      | String c EmptyString => String c ("e+" ++ render_nat (n - 1) "")
      | String c rest =>
          String c (String "." (rest ++ "e+" ++ render_nat (n - 1) ""))
      | EmptyString => EmptyString
      end.

(** Number::toString, radix 10. *)
Definition number_to_string (x : number) : string :=
  match x with
  | NaN => "NaN"
  | Infinity false => "Infinity"
  | Infinity true => "-Infinity"
  | Num z =>
      if z <? 0 then String "-" (positive_to_string (- z))
      else positive_to_string z
  end.

(** *** The index *)

(** Modelled from the spec: a row of the feed index, section 3, as
    [db.addPost(uri, cid, did, handle, indexedAt)] of index.js fills it
    (feed-vps/db.js is not among the sources); [indexed_at] as a time. *)
Record feed_row := {
  uri : string;
  cid : string;
  author_did : string;
  author_handle : string;
  indexed_at : Z }.

(** Modelled from the spec: the order "newest first" of section 4.4. *)
Fixpoint insert_newest (r : feed_row) (l : list feed_row) : list feed_row :=
  match l with
  | [] => [r]
  | x :: l' =>
      if indexed_at x <=? indexed_at r then r :: l
      else x :: insert_newest r l'
  end.

Definition newest_first (rows : list feed_row) : list feed_row :=
  fold_right insert_newest [] rows.

(** [db.getPosts(limit, offset)] of feed-vps/db.js, which is not among the
    sources: a function of the two numbers the handler hands over, to the
    URIs it returns, [None] when it throws. *)
Definition db_getPosts : Type := number -> number -> option (list string).

(** Modelled from the spec: what section 4.4 says of [db.getPosts], "given
    a page size and opaque cursor (timestamp + offset), returns the next
    slice of matching URIs, newest first".  For a page size and an offset
    that are not negative the answer is the slice of at most [limit] rows
    that starts [offset] rows into the index ordered by [indexed_at], latest
    first.  Of a negative, infinite or NaN page size or offset the spec says
    nothing, and nothing is assumed here. *)
Definition serves_slices (index : list feed_row) (getPosts : db_getPosts)
  : Prop :=
  forall limit offset : Z,
    0 <= limit -> 0 <= offset ->
    getPosts (Num limit) (Num offset)
    = Some (map uri (firstn (Z.to_nat limit)
                            (skipn (Z.to_nat offset) (newest_first index)))).

(** *** The endpoint *)

Record query := {
  q_feed : option string;
  q_limit : option string;
  q_cursor : option string }.

Record response := {
  feed : list string;        (* [{ post: uri }], by URI *)
  cursor : option string }.

(** [res.json(response)], or [res.status(500).json({ error: 'Internal
    server error' })] of the [catch]. *)
Inductive http_response : Type :=
| json (body : response)
| internal_server_error.

(** [Math.min(parseInt(req.query.limit) || 30, 100)] *)
Definition page_size (q : query) : number :=
  Math_min (or_default (parseInt (q_limit q)) (Num 30)) (Num 100).

(** [let offset = 0; if (cursor) { offset = parseInt(cursor.split(':')[1])
    || 0 }] *)
Definition page_offset (q : query) : number :=
  match q_cursor q with
  | Some c =>
      if negb (String.eqb c "")
      then or_default (parseInt (split_part_1 c)) (Num 0)
      else Num 0
  | None => Num 0
  end.

(** [app.get('/xrpc/app.bsky.feed.getFeedSkeleton', ...)]; [date_now] is
    the reading of [Date.now()], a whole number of milliseconds. *)
Definition getFeedSkeleton (getPosts : db_getPosts) (date_now : Z)
    (q : query) : http_response :=
  let limit := page_size q in
  let offset := page_offset q in
  match getPosts limit offset with
  | Some posts =>
      json {| feed := posts;
              cursor :=
                if strict_equal (Num (Z.of_nat (List.length posts))) limit
                then Some (number_to_string (Num date_now) ++ ":"
                           ++ number_to_string (number_add offset limit))
                else None |}
  | None => internal_server_error
  end.

(** More URIs remain beyond the slice a response returned from [offset]. *)
Definition more_remain (index : list feed_row) (offset : Z) (r : response)
  : Prop :=
  (Z.to_nat offset + List.length (feed r) < List.length index)%nat.

Definition newer_or_same (a b : feed_row) : Prop :=
  indexed_at b <= indexed_at a.

Definition is_digit (c : ascii) : bool :=
  ((48 <=? nat_of_ascii c) && (nat_of_ascii c <=? 57))%nat.

Fixpoint digits_only (s : string) : bool :=
  match s with
  | EmptyString => true
  | String c s' => is_digit c && digits_only s'
  end.

Fixpoint no_colon (s : string) : bool :=
  match s with
  | EmptyString => true
  | String c s' => negb (Ascii.eqb c ":") && no_colon s'
  end.

(** *** Sample data *)
Module Sample.

Definition row (u : string) (t : Z) : feed_row :=
  {| uri := u; cid := "bafyrei"; author_did := "did:plc:alice";
     author_handle := "alice.cannect.space"; indexed_at := t |}.

Definition index : list feed_row :=
  [row "at://did:plc:alice/app.bsky.feed.post/a" 100;
   row "at://did:plc:alice/app.bsky.feed.post/c" 300;
   row "at://did:plc:alice/app.bsky.feed.post/b" 200].


(** A sample db.js, one of those that serve the slices: it runs
    [SELECT uri ... ORDER BY indexed_at DESC LIMIT ? OFFSET ?] on SQLite,
    where a negative LIMIT is no limit and a negative OFFSET no offset, and
    it throws on a value that is no finite number. *)
Definition getPosts (index : list feed_row) : db_getPosts :=
  fun limit offset =>
    match limit, offset with
    | Num l, Num o =>
        let rows := skipn (Z.to_nat o) (newest_first index) in
        Some (map uri (if l <? 0 then rows else firstn (Z.to_nat l) rows))
    | _, _ => None
    end.

Definition first_page : query :=
  {| q_feed := Some "at://did:plc:pub/app.bsky.feed.generator/cannect";
     q_limit := Some "2"; q_cursor := None |}.

Definition second_page : query :=
  {| q_feed := Some "at://did:plc:pub/app.bsky.feed.generator/cannect";
     q_limit := Some "2"; q_cursor := Some "1766570400000:1" |}.

Definition whole_index : query :=
  {| q_feed := Some "at://did:plc:pub/app.bsky.feed.generator/cannect";
     q_limit := Some "3"; q_cursor := None |}.


End Sample.
(** *** Proofs *)

Lemma nat_of_digit_char d :
  0 <= d < 10 -> nat_of_ascii (digit_char d) = Z.to_nat (48 + d).
Proof.
  intros H. unfold digit_char. apply nat_ascii_embedding. lia.
Qed.

Lemma digit_value_digit_char d :
  0 <= d < 10 -> digit_value 10 (digit_char d) = Some d.
Proof.
  intros H. unfold digit_value. rewrite nat_of_digit_char by exact H.
  rewrite Z2Nat.id by lia.
  replace (48 <=? 48 + d) with true by (symmetry; apply Z.leb_le; lia).
  replace (48 + d <=? 57) with true by (symmetry; apply Z.leb_le; lia).
  cbn [andb]. replace (48 + d - 48) with d by lia.
  now replace (d <? 10) with true by (symmetry; apply Z.ltb_lt; lia).
Qed.

Lemma parse_render_digits fuel : forall n tail,
  0 <= n < 2 ^ Z.of_nat fuel -> (1 <= fuel)%nat ->
  parse_digits 10 None (render_digits fuel n tail)
  = parse_digits 10 (Some n) tail.
Proof.
  induction fuel as [|fuel IH]; intros n tail Hn Hf; [lia|].
  cbn [render_digits]. destruct (n <? 10) eqn:E.
  - apply Z.ltb_lt in E. cbn [parse_digits].
    now rewrite digit_value_digit_char by lia.
  - apply Z.ltb_ge in E. rewrite Nat2Z.inj_succ, Z.pow_succ_r in Hn by lia.
    assert (Hq : 0 <= n / 10 < 2 ^ Z.of_nat fuel).
    { split; [apply Z.div_pos; lia|].
      apply Z.div_lt_upper_bound; lia. }
    assert (Hf' : (1 <= fuel)%nat).
    { destruct fuel; [|lia]. cbn in Hn. lia. }
    rewrite IH by assumption. cbn [parse_digits].
    rewrite digit_value_digit_char by (apply Z.mod_pos_bound; lia).
    f_equal. f_equal. pose proof (Z.div_mod n 10 ltac:(lia)). lia.
Qed.

Lemma parse_render_nat n : 0 <= n ->
  parse_digits 10 None (render_nat n "") = Some n.
Proof.
  intros Hn. unfold render_nat. rewrite parse_render_digits; [reflexivity | | lia].
  rewrite Nat2Z.inj_succ, Z2Nat.id by apply Z.log2_nonneg.
  split; [exact Hn|].
  destruct (Z.eq_dec n 0) as [-> | Hz]; [reflexivity|].
  apply Z.log2_spec. lia.
Qed.

Lemma is_digit_digit_char d : 0 <= d < 10 -> is_digit (digit_char d) = true.
Proof.
  intros H. unfold is_digit. rewrite nat_of_digit_char by exact H.
  apply andb_true_intro. split; apply Nat.leb_le; lia.
Qed.

Lemma render_digits_only fuel : forall n tail,
  0 <= n -> digits_only tail = true ->
  digits_only (render_digits fuel n tail) = true.
Proof.
  induction fuel as [|fuel IH]; intros n tail Hn Ht; [exact Ht|].
  cbn [render_digits]. destruct (n <? 10) eqn:E.
  - apply Z.ltb_lt in E. cbn [digits_only].
    now rewrite is_digit_digit_char, Ht by lia.
  - apply IH; [apply Z.div_pos; lia|]. cbn [digits_only].
    now rewrite is_digit_digit_char, Ht by (apply Z.mod_pos_bound; lia).
Qed.

Lemma render_digits_nonempty fuel n tail :
  render_digits (S fuel) n tail <> "".
Proof.
  revert n tail. induction fuel as [|fuel IH]; intros n tail.
  - cbn. destruct (n <? 10); discriminate.
  - cbn [render_digits]. destruct (n <? 10); [discriminate|].
    apply (IH (n / 10)).
Qed.

Lemma render_nat_digits n :
  0 <= n -> digits_only (render_nat n "") = true /\ render_nat n "" <> "".
Proof.
  intros Hn. split; [now apply render_digits_only | apply render_digits_nonempty].
Qed.

Lemma skip_digit fuel c s :
  is_digit c = true \/ c = "-"%char ->
  skip_white_space fuel (String c s) = String c s.
Proof.
  intros H. destruct fuel as [|fuel]; [reflexivity|].
  destruct H as [H | ->].
  - destruct c as [[] [] [] [] [] [] [] []]; try discriminate H;
      destruct s as [|c2 [|c3 s3]]; reflexivity.
  - destruct s as [|c2 [|c3 s3]]; reflexivity.
Qed.

Lemma strip_sign_digit c s :
  is_digit c = true -> strip_sign (String c s) = (1, String c s).
Proof.
  intros H. destruct c as [[] [] [] [] [] [] [] []]; try discriminate H;
    reflexivity.
Qed.

Lemma strip_prefix_digits s :
  digits_only s = true -> strip_prefix s = (10, s).
Proof.
  destruct s as [|c [|c2 s]]; try reflexivity.
  - intros _. unfold strip_prefix.
    destruct c as [[] [] [] [] [] [] [] []]; reflexivity.
  - cbn [digits_only]. intros H. apply andb_prop in H as [_ H].
    apply andb_prop in H as [H _]. unfold strip_prefix.
    destruct c as [[] [] [] [] [] [] [] []]; try reflexivity;
      destruct c2 as [[] [] [] [] [] [] [] []]; try discriminate H;
      reflexivity.
Qed.

Lemma to_double_small z : Z.abs z < 2 ^ 53 -> to_double z = Num z.
Proof.
  intros H. unfold to_double. apply Z.ltb_lt in H. now rewrite H.
Qed.

Lemma parseInt_digits s :
  digits_only s = true -> s <> "" ->
  parseInt (Some s) = match parse_digits 10 None s with
                      | Some v => to_double v
                      | None => NaN
                      end.
Proof.
  intros Hd Hne. destruct s as [|c s]; [congruence|].
  pose proof Hd as Hc. cbn [digits_only] in Hc. apply andb_prop in Hc as [Hc _].
  unfold parseInt. rewrite skip_digit by now left.
  rewrite strip_sign_digit, strip_prefix_digits by assumption.
  destruct (parse_digits 10 None (String c s)) as [v|]; [|reflexivity].
  now rewrite Z.mul_1_l.
Qed.

Lemma parseInt_minus_digits s :
  digits_only s = true ->
  parseInt (Some (String "-" s))
  = match parse_digits 10 None s with
    | Some v => to_double (- v)
    | None => NaN
    end.
Proof.
  intros Hd. unfold parseInt. rewrite skip_digit by now right.
  cbn [strip_sign]. rewrite strip_prefix_digits by assumption.
  destruct (parse_digits 10 None s) as [v|]; [|reflexivity].
  f_equal; lia.
Qed.

(** Reading back an exact decimal numeral: the nearest double. *)
Lemma parseInt_decimal v : parseInt (Some (decimal v)) = to_double v.
Proof.
  unfold decimal. destruct (v <? 0) eqn:E.
  - apply Z.ltb_lt in E. destruct (render_nat_digits (- v)) as [Hd Hne]; [lia|].
    rewrite parseInt_minus_digits by exact Hd.
    rewrite parse_render_nat by lia. f_equal. lia.
  - apply Z.ltb_ge in E. destruct (render_nat_digits v E) as [Hd Hne].
    rewrite parseInt_digits by assumption. now rewrite parse_render_nat.
Qed.

Lemma digits_no_colon s : digits_only s = true -> no_colon s = true.
Proof.
  induction s as [|c s IH]; [reflexivity|]. cbn [digits_only no_colon].
  intros H. apply andb_prop in H as [Hc Hs]. rewrite (IH Hs), andb_true_r.
  destruct c as [[] [] [] [] [] [] [] []]; try discriminate Hc; reflexivity.
Qed.

Lemma no_colon_app a b : no_colon (a ++ b) = no_colon a && no_colon b.
Proof.
  induction a as [|c a IH]; [reflexivity|]. cbn [append no_colon].
  now rewrite IH, andb_assoc.
Qed.

Lemma digit_char_no_colon d : d < 10 -> Ascii.eqb (digit_char d) ":" = false.
Proof.
  intros H. apply Ascii.eqb_neq. intros E.
  apply (f_equal nat_of_ascii) in E. unfold digit_char in E.
  rewrite nat_ascii_embedding in E by lia.
  change (nat_of_ascii ":") with 58%nat in E. lia.
Qed.

Lemma render_digits_no_colon fuel : forall n tail,
  no_colon (render_digits fuel n tail) = no_colon tail.
Proof.
  induction fuel as [|fuel IH]; intros n tail; [reflexivity|].
  cbn [render_digits]. destruct (n <? 10) eqn:E.
  - apply Z.ltb_lt in E. cbn [no_colon].
    now rewrite digit_char_no_colon by exact E.
  - rewrite IH. cbn [no_colon].
    rewrite digit_char_no_colon; [reflexivity|].
    apply Z.mod_pos_bound. lia.
Qed.

Lemma zeros_no_colon n tail : no_colon (zeros n tail) = no_colon tail.
Proof. induction n as [|n IH]; [reflexivity | exact IH]. Qed.

Lemma positive_to_string_no_colon z : no_colon (positive_to_string z) = true.
Proof.
  unfold positive_to_string, render_nat.
  destruct (z <? 2 ^ 53); [now rewrite render_digits_no_colon|].
  destruct (shortest_from _ _ _ _) as [s0 e0].
  destruct (strip_zeros _ _ _) as [s e].
  destruct (_ <=? 21).
  - now rewrite render_digits_no_colon, zeros_no_colon.
  - pose proof (render_digits_no_colon (S (Z.to_nat (Z.log2 s))) s "") as H.
    destruct (render_digits (S (Z.to_nat (Z.log2 s))) s "") as [|c [|c' rest]];
      [reflexivity | |].
    + cbn [no_colon] in *. apply andb_prop in H as [-> _].
      cbn [append no_colon andb negb Ascii.eqb Bool.eqb].
      now rewrite render_digits_no_colon.
    + cbn [no_colon] in H. apply andb_prop in H as [Hc H].
      cbn [no_colon]. rewrite Hc. cbn [andb Ascii.eqb Bool.eqb negb].
      change (String c' rest ++ "e+" ++ ?x) with (String c' (rest ++ "e+" ++ x)).
      cbn [append no_colon] in *. apply andb_prop in H as [-> H].
      rewrite no_colon_app, H. cbn [andb no_colon negb Ascii.eqb Bool.eqb].
      now rewrite render_digits_no_colon.
Qed.

Lemma number_no_colon x : no_colon (number_to_string x) = true.
Proof.
  destruct x as [|[]|z]; try reflexivity. cbn [number_to_string].
  destruct (z <? 0); cbn [no_colon]; now rewrite positive_to_string_no_colon.
Qed.

(** Below [2 ^ 53] a number prints as its exact decimal numeral. *)
Lemma number_to_string_small z :
  Z.abs z < 2 ^ 53 -> number_to_string (Num z) = decimal z.
Proof.
  intros H. unfold number_to_string, decimal, positive_to_string.
  destruct (z <? 0) eqn:E.
  - apply Z.ltb_lt in E.
    replace (- z <? 2 ^ 53) with true by (symmetry; apply Z.ltb_lt; lia).
    reflexivity.
  - apply Z.ltb_ge in E.
    replace (z <? 2 ^ 53) with true by (symmetry; apply Z.ltb_lt; lia).
    reflexivity.
Qed.

Lemma up_to_colon_id s : no_colon s = true -> up_to_colon s = s.
Proof.
  induction s as [|c s IH]; [reflexivity|]. cbn [no_colon up_to_colon].
  intros H. apply andb_prop in H as [Hc Hs]. apply negb_true_iff in Hc.
  now rewrite Hc, IH.
Qed.

Lemma split_part_1_app a b :
  no_colon a = true ->
  split_part_1 (a ++ String ":" b) = Some (up_to_colon b).
Proof.
  induction a as [|c a IH]; [reflexivity|]. cbn [no_colon append split_part_1].
  intros H. apply andb_prop in H as [Hc Ha]. apply negb_true_iff in Hc.
  now rewrite Hc, IH.
Qed.

(** The offset read from a cursor the service rendered. *)
Lemma cursor_round_trip date_now v :
  Z.abs v < 2 ^ 53 ->
  or_default
    (parseInt (split_part_1
       (number_to_string (Num date_now) ++ ":" ++ number_to_string (Num v))))
    (Num 0)
  = Num v.
Proof.
  intros Hv.
  change (":" ++ number_to_string (Num v))
    with (String ":" (number_to_string (Num v))).
  rewrite split_part_1_app by apply number_no_colon.
  rewrite up_to_colon_id by apply number_no_colon.
  rewrite number_to_string_small, parseInt_decimal, to_double_small
    by exact Hv.
  now destruct v.
Qed.

Lemma insert_newest_perm r l : Permutation (insert_newest r l) (r :: l).
Proof.
  induction l as [|x l IH]; cbn [insert_newest]; [reflexivity|].
  destruct (indexed_at x <=? indexed_at r); [reflexivity|].
  rewrite IH. apply perm_swap.
Qed.

Lemma newest_first_perm l : Permutation (newest_first l) l.
Proof.
  induction l as [|x l IH]; cbn [newest_first fold_right]; [reflexivity|].
  fold (newest_first l). rewrite insert_newest_perm. now constructor.
Qed.

Lemma insert_newest_sorted r l :
  StronglySorted newer_or_same l ->
  StronglySorted newer_or_same (insert_newest r l).
Proof.
  induction 1 as [|x l Hl IH Hx]; cbn [insert_newest].
  - repeat constructor.
  - destruct (indexed_at x <=? indexed_at r) eqn:E.
    + apply Z.leb_le in E. constructor; [now constructor|].
      constructor; [exact E|].
      eapply Forall_impl; [|exact Hx]. unfold newer_or_same. intros y Hy. lia.
    + apply Z.leb_gt in E. constructor; [exact IH|].
      apply Forall_forall. intros y Hy.
      apply (Permutation_in _ (insert_newest_perm r l)) in Hy.
      destruct Hy as [<- | Hy].
      * unfold newer_or_same. lia.
      * rewrite Forall_forall in Hx. now apply Hx.
Qed.

Lemma newest_first_sorted l : StronglySorted newer_or_same (newest_first l).
Proof.
  induction l as [|x l IH]; cbn [newest_first fold_right]; [constructor|].
  now apply insert_newest_sorted.
Qed.

Lemma sorted_skipn {A} (R : A -> A -> Prop) n : forall l,
  StronglySorted R l -> StronglySorted R (skipn n l).
Proof.
  induction n as [|n IH]; intros l H; [exact H|].
  destruct l as [|x l]; [constructor|]. cbn [skipn]. apply IH.
  now inversion H.
Qed.

Lemma sorted_firstn {A} (R : A -> A -> Prop) n : forall l,
  StronglySorted R l -> StronglySorted R (firstn n l).
Proof.
  induction n as [|n IH]; intros l H; [constructor|].
  destruct l as [|x l]; [constructor|]. cbn [firstn].
  inversion H as [|y l' Hl Hx]; subst. constructor; [now apply IH|].
  apply Forall_forall. intros y Hy. rewrite Forall_forall in Hx. apply Hx.
  clear -Hy. revert n Hy. induction l as [|z l IHl]; intros [|n] Hy;
    cbn in Hy; try tauto.
  destruct Hy as [-> | Hy]; [now left | right; eauto].
Qed.

Lemma slice_length index limit offset :
  List.length (map uri (firstn (Z.to_nat limit)
                          (skipn (Z.to_nat offset) (newest_first index))))
  = Nat.min (Z.to_nat limit) (List.length index - Z.to_nat offset).
Proof.
  rewrite length_map, length_firstn, length_skipn.
  now rewrite (Permutation_length (newest_first_perm index)).
Qed.

Lemma number_to_string_nonempty x : number_to_string x <> "".
Proof.
  destruct x as [|[]|z]; try discriminate. cbn [number_to_string].
  destruct (z <? 0); [discriminate|].
  unfold positive_to_string.
  destruct (z <? 2 ^ 53); [apply render_digits_nonempty|].
  destruct (shortest_from _ _ _ _) as [s0 e0].
  destruct (strip_zeros _ _ _) as [s e].
  destruct (_ <=? 21); [apply render_digits_nonempty|].
  pose proof (render_digits_nonempty (Z.to_nat (Z.log2 s)) s "") as H.
  unfold render_nat.
  destruct (render_digits (S (Z.to_nat (Z.log2 s))) s "") as [|c [|c' rest]];
    [congruence | discriminate | discriminate].
Qed.

Lemma string_app_nonempty (s t : string) : s <> "" -> s ++ t <> "".
Proof. destruct s; [congruence | discriminate]. Qed.

(** The sample db.js serves the slices. *)
Lemma sample_serves_slices index : serves_slices index (Sample.getPosts index).
Proof.
  intros limit offset Hl Ho. unfold Sample.getPosts.
  now replace (limit <? 0) with false by (symmetry; apply Z.ltb_ge; lia).
Qed.

(** The offset a well-formed cursor carries is the offset used, rounded to
    the nearest double. *)
Lemma page_offset_cursor q ts off :
  no_colon ts = true ->
  q_cursor q = Some (ts ++ String ":" (decimal off)) ->
  page_offset q = to_double off.
Proof.
  intros Hts Hc. unfold page_offset. rewrite Hc.
  replace (negb (ts ++ String ":" (decimal off) =? ""))%string
    with true by (destruct ts; reflexivity).
  rewrite split_part_1_app by exact Hts.
  assert (Hd : no_colon (decimal off) = true).
  { unfold decimal. destruct (off <? 0); cbn [no_colon];
      unfold render_nat; now rewrite render_digits_no_colon. }
  rewrite up_to_colon_id by exact Hd.
  rewrite parseInt_decimal.
  unfold to_double. destruct (Z.abs off <? 2 ^ 53) eqn:E.
  - now destruct off.
  - cbv zeta. destruct (2 ^ 1024 <=? _); [reflexivity|].
    match goal with |- or_default (Num ?v) _ = _ => now destruct v end.
Qed.

Lemma page_size_nonzero q : page_size q <> Num 0.
Proof.
  unfold page_size, or_default.
  destruct (parseInt (q_limit q)) as [|[]|[|p|p]]; cbn; try discriminate;
    intros [= H]; lia.
Qed.

Lemma cursor_iff_full getPosts date_now q r :
  getFeedSkeleton getPosts date_now q = json r ->
  (cursor r <> None <->
   page_size q = Num (Z.of_nat (List.length (feed r)))).
Proof.
  unfold getFeedSkeleton. destruct (getPosts _ _) as [posts|]; [|discriminate].
  intros [= <-]. cbn [cursor feed].
  destruct (page_size q) as [|s|l]; cbn [strict_equal];
    try (split; [congruence | discriminate]).
  destruct (Z.eqb_spec (Z.of_nat (List.length posts)) l) as [E | N].
  - split; [intros _; now rewrite E | discriminate].
  - split; [congruence | intros [= H]; congruence].
Qed.

(** C8, as the code has it: when the page size and the offset of a request
    are not negative, the feed of the response is the slice of at most
    [limit] URIs that starts [offset] rows into the index ordered latest
    first; the response carries a continuation cursor exactly when the slice
    is full, that is, has [limit] URIs, hence whenever more URIs remain
    beyond it; and the cursor it carries leads the next request to the
    offset right after the slice (while that offset is below [2 ^ 53]).
    The offset of a request is the number after the colon of a cursor
    [timestamp:offset], as [parseInt] reads it: rounded to the nearest
    double.  For any request and any [db.getPosts], a response carries a
    cursor exactly when it lists as many URIs as the page size says. *)
Theorem getFeedSkeleton_page (index : list feed_row) (getPosts : db_getPosts)
    (date_now : Z) (q : query) :
  serves_slices index getPosts ->
  (forall limit offset,
      page_size q = Num limit -> page_offset q = Num offset ->
      0 <= limit -> 0 <= offset ->
      exists r rows,
        getFeedSkeleton getPosts date_now q = json r /\
        rows = firstn (Z.to_nat limit)
                      (skipn (Z.to_nat offset) (newest_first index)) /\
        feed r = map uri rows /\ StronglySorted newer_or_same rows /\
        (cursor r <> None <-> Z.of_nat (List.length (feed r)) = limit) /\
        (more_remain index offset r -> cursor r <> None) /\
        (forall c, cursor r = Some c -> offset + limit < 2 ^ 53 ->
           page_offset {| q_feed := q_feed q; q_limit := q_limit q;
                          q_cursor := Some c |} = Num (offset + limit))) /\
  Permutation (newest_first index) index /\
  (forall ts off,
      no_colon ts = true ->
      q_cursor q = Some (ts ++ String ":" (decimal off)) ->
      page_offset q = to_double off /\
      (Z.abs off < 2 ^ 53 -> page_offset q = Num off)) /\
  (forall r, getFeedSkeleton getPosts date_now q = json r ->
     (cursor r <> None <->
      page_size q = Num (Z.of_nat (List.length (feed r))))).
Proof.
  intros Hdb. split; [|split; [apply newest_first_perm|split]].
  - intros limit offset Hl Ho Hl0 Ho0.
    assert (Hlpos : 0 < limit).
    { destruct (Z.eq_dec limit 0) as [-> | N]; [|lia].
      now apply page_size_nonzero in Hl. }
    assert (Hr : getFeedSkeleton getPosts date_now q
                 = json {| feed := map uri (firstn (Z.to_nat limit)
                              (skipn (Z.to_nat offset) (newest_first index)));
                           cursor :=
                             if Z.of_nat (List.length (map uri (firstn
                                  (Z.to_nat limit) (skipn (Z.to_nat offset)
                                  (newest_first index))))) =? limit
                             then Some (number_to_string (Num date_now) ++ ":"
                                        ++ number_to_string
                                             (to_double (offset + limit)))
                             else None |}).
    { unfold getFeedSkeleton. rewrite Hl, Ho, (Hdb limit offset Hl0 Ho0).
      reflexivity. }
    eexists. eexists. split; [exact Hr|]. split; [reflexivity|].
    split; [reflexivity|].
    split; [apply sorted_firstn, sorted_skipn, newest_first_sorted|].
    cbn [feed cursor]. rewrite slice_length.
    split; [|split].
    + destruct (Z.eqb_spec (Z.of_nat (Nat.min (Z.to_nat limit)
                 (List.length index - Z.to_nat offset))) limit) as [E | N].
      * split; [intros _; exact E | discriminate].
      * split; [congruence | intros H; contradiction].
    + unfold more_remain. cbn [feed]. rewrite slice_length. intros Hm.
      replace (Z.of_nat (Nat.min (Z.to_nat limit)
                 (List.length index - Z.to_nat offset)) =? limit) with true;
        [discriminate|].
      symmetry. apply Z.eqb_eq. lia.
    + intros c Hc Hsum.
      destruct (Z.of_nat _ =? limit) in Hc; [|discriminate Hc].
      injection Hc as <-. unfold page_offset at 1. cbn [q_cursor].
      rewrite to_double_small by lia.
      replace (negb (_ =? ""))%string with true.
      * apply cursor_round_trip. lia.
      * symmetry. apply negb_true_iff, String.eqb_neq.
        apply string_app_nonempty.
        exact (number_to_string_nonempty (Num date_now)).
  - intros ts off Hts Hc.
    pose proof (page_offset_cursor q ts off Hts Hc) as H.
    split; [exact H|]. intros Hs. now rewrite H, to_double_small.
  - intros r. apply cursor_iff_full.
Qed.



Lemma getFeedSkeleton_page_witness :
  getFeedSkeleton (Sample.getPosts Sample.index) 1766570400000
                  Sample.second_page
  = json {| feed := ["at://did:plc:alice/app.bsky.feed.post/b";
                     "at://did:plc:alice/app.bsky.feed.post/a"];
            cursor := Some "1766570400000:3" |} /\
  page_offset {| q_feed := q_feed Sample.second_page;
                 q_limit := q_limit Sample.second_page;
                 q_cursor := Some "1766570400000:3" |} = Num 3 /\
  page_offset {| q_feed := None; q_limit := None;
                 q_cursor := Some "1:9007199254740993" |}
  = Num 9007199254740992.
Proof.
  pose proof (getFeedSkeleton_page Sample.index
                (Sample.getPosts Sample.index) 1766570400000
                Sample.second_page (sample_serves_slices Sample.index))
    as (H1 & _ & _ & _).
  destruct (H1 2 1) as (r & rows & Hr & -> & Hf & _ & Hc & _ & Hn);
    [reflexivity | reflexivity | lia | lia |].
  assert (Hcur : cursor r = Some "1766570400000:3"%string).
  { rewrite Hr in *. vm_compute in Hr. injection Hr as <-. reflexivity. }
  split; [|split].
  - rewrite Hr. destruct r as [f c]. cbn in Hf, Hcur. now rewrite Hf, Hcur.
  - apply (Hn _ Hcur). reflexivity.
  - pose proof (getFeedSkeleton_page Sample.index
                  (Sample.getPosts Sample.index) 0
                  {| q_feed := None; q_limit := None;
                     q_cursor := Some "1:9007199254740993"%string |}
                  (sample_serves_slices Sample.index))
      as (_ & _ & H3 & _).
    destruct (H3 "1"%string 9007199254740993 eq_refl eq_refl) as [H _].
    rewrite H. reflexivity.
Defined.

(** C8, as stated, fails on the last full page: the index has three URIs,
    the page size is 3 and there is no cursor; the response lists all three
    and still carries a continuation cursor, though nothing remains. *)
Lemma cursor_on_last_full_page :
  let r := {| feed := ["at://did:plc:alice/app.bsky.feed.post/c";
                       "at://did:plc:alice/app.bsky.feed.post/b";
                       "at://did:plc:alice/app.bsky.feed.post/a"];
              cursor := Some "1766570400000:3"%string |} in
  serves_slices Sample.index (Sample.getPosts Sample.index) /\
  getFeedSkeleton (Sample.getPosts Sample.index) 1766570400000
                  Sample.whole_index = json r /\
  ~ (cursor r <> None <-> more_remain Sample.index 0 r).
Proof.
  cbv zeta. split; [apply sample_serves_slices|]. split; [reflexivity|].
  intros [H _].
  match type of H with ?P -> _ => assert (Hc : P) by discriminate end.
  apply H in Hc. unfold more_remain in Hc. simpl in Hc. lia.
Qed.



(** The page sizes of some [limit] parameters. *)
Example page_sizes :
  map (fun l => page_size {| q_feed := None; q_limit := l; q_cursor := None |})
      [None; Some "abc"; Some "0"; Some "50"; Some "100"; Some "101";
       Some "5000"; Some " 12px"; Some ""; Some "-5"; Some "0x20";
       Some "9007199254740993"]%string
  = [Num 30; Num 30; Num 30; Num 50; Num 100; Num 100; Num 100; Num 12;
     Num 30; Num (-5); Num 32; Num 100].
Proof. reflexivity. Qed.

(** Digits beyond the 53 bits of a double are rounded, to the even
    neighbour on a tie; numbers from [10 ^ 21] on print in scientific
    notation, which [parseInt] reads up to the point. *)
Example numbers_beyond_53_bits :
  parseInt (Some "9007199254740993") = Num 9007199254740992 /\
  parseInt (Some "9007199254740995") = Num 9007199254740996 /\
  number_to_string (Num (2 ^ 60)) = "1152921504606847000" /\
  number_to_string (to_double (10 ^ 21 + 1)) = "1e+21" /\
  parseInt (Some "1e+21") = Num 1 /\
  number_to_string (to_double (123456789012345678901234567890))
  = "1.2345678901234568e+29" /\
  to_double (2 ^ 1024) = Infinity false /\
  parseInt (Some "Infinity") = NaN.
Proof. vm_compute. repeat split. Qed.

End FeedSkeleton.

(* ================================================================== *)
(** ** Record keys as numbers: more on [generate_tid] *)
(* ================================================================== *)
Module TIDKeys.
Import TID.
Local Open Scope Z_scope.
Local Open Scope string_scope.

(** The number a TID spells: the timestamp in the high bits, the clock
    identifier in the ten low bits. *)
Definition tid_value (timestamp_us clock_id : Z) : Z :=
  timestamp_us * 1024 + clock_id.

Definition in_tid_range (timestamp_us clock_id : Z) : Prop :=
  0 <= timestamp_us < 2 ^ 53 /\ 0 <= clock_id < 2 ^ 10.

Lemma string_compare_refl s : String.compare s s = Eq.
Proof.
  induction s as [|c s IH]; [reflexivity|]. cbn [String.compare].
  now rewrite ascii_compare_refl.
Qed.

Lemma generate_tid_enc t c :
  in_tid_range t c -> generate_tid t c = enc 13 (tid_value t c).
Proof.
  intros [Ht Hc]. unfold generate_tid, tid_value.
  now rewrite tid_loop_enc, append_nil_r, combined_value.
Qed.

Lemma tid_value_range t c :
  in_tid_range t c -> 0 <= tid_value t c < 32 ^ Z.of_nat 13.
Proof.
  intros [Ht Hc]. unfold tid_value. change (2 ^ 10) with 1024 in Hc.
  change (32 ^ Z.of_nat 13) with (2 ^ 65).
  assert (2 ^ 53 * 1024 = 2 ^ 63) by reflexivity.
  assert (2 ^ 63 < 2 ^ 65) by reflexivity. lia.
Qed.

(** X1: within the TID range, two TIDs compare, character by character, as
    the numbers [timestamp_us * 1024 + clock_id] they spell: the order of
    the keys is that of the timestamps and, within one microsecond, that of
    the clock identifiers. *)
Theorem generate_tid_compare t1 c1 t2 c2 :
  in_tid_range t1 c1 -> in_tid_range t2 c2 ->
  String.compare (generate_tid t1 c1) (generate_tid t2 c2)
  = Z.compare (tid_value t1 c1) (tid_value t2 c2).
Proof.
  intros H1 H2. rewrite !generate_tid_enc by assumption.
  pose proof (tid_value_range t1 c1 H1) as R1.
  pose proof (tid_value_range t2 c2 H2) as R2.
  destruct (Z.compare_spec (tid_value t1 c1) (tid_value t2 c2)) as [E | L | G].
  - rewrite E. apply string_compare_refl.
  - apply enc_lt; lia.
  - rewrite String.compare_antisym. rewrite enc_lt by lia. reflexivity.
Qed.

Lemma generate_tid_compare_witness :
  String.compare (generate_tid 1766332800000000 7)
                 (generate_tid 1766332800000000 512)
  = Z.compare (tid_value 1766332800000000 7) (tid_value 1766332800000000 512).
Proof.
  apply generate_tid_compare; unfold in_tid_range; lia.
Defined.

Lemma generate_tid_injective t1 c1 t2 c2 :
  in_tid_range t1 c1 -> in_tid_range t2 c2 ->
  generate_tid t1 c1 = generate_tid t2 c2 -> t1 = t2 /\ c1 = c2.
Proof.
  intros H1 H2 E. rewrite !generate_tid_enc in E by assumption.
  pose proof (tid_value_range t1 c1 H1) as R1.
  pose proof (tid_value_range t2 c2 H2) as R2.
  assert (V : tid_value t1 c1 = tid_value t2 c2).
  { destruct (Z.lt_total (tid_value t1 c1) (tid_value t2 c2)) as [L | [V | G]];
      [|exact V|].
    - pose proof (enc_lt 13 _ _ (conj (proj1 R1) L) (proj2 R2)) as C.
      rewrite E, string_compare_refl in C. discriminate.
    - pose proof (enc_lt 13 _ _ (conj (proj1 R2) G) (proj2 R1)) as C.
      rewrite E, string_compare_refl in C. discriminate. }
  destruct H1 as [Ht1 Hc1], H2 as [Ht2 Hc2]. unfold tid_value in V.
  change (2 ^ 10) with 1024 in *. lia.
Qed.

(** X2: two record keys collide only when both the clock reading and the
    random clock identifier coincide: readings of the TID range that differ
    in either give different TIDs. *)
Theorem generate_tid_distinct t1 c1 t2 c2 :
  in_tid_range t1 c1 -> in_tid_range t2 c2 ->
  t1 <> t2 \/ c1 <> c2 ->
  generate_tid t1 c1 <> generate_tid t2 c2.
Proof.
  intros H1 H2 Hd E.
  destruct (generate_tid_injective t1 c1 t2 c2 H1 H2 E) as [Et Ec].
  destruct Hd; contradiction.
Qed.

Lemma generate_tid_distinct_witness :
  (generate_tid 1766332800000000 7 =? generate_tid 1766332800000000 512)%string
  = false.
Proof.
  apply String.eqb_neq.
  apply generate_tid_distinct; unfold in_tid_range; lia.
Defined.

Lemma enc_split (k : nat) : forall (n : nat) (a b : Z),
  0 <= b < 32 ^ Z.of_nat k ->
  enc (n + k) (a * 32 ^ Z.of_nat k + b) = enc n a ++ enc k b.
Proof.
  induction k as [|k IH]; intros n a b Hb.
  - cbn in Hb. assert (b = 0) as -> by lia.
    rewrite Nat.add_0_r, Z.add_0_r. cbn [Z.of_nat enc].
    now rewrite Z.pow_0_r, Z.mul_1_r, append_nil_r.
  - rewrite Nat.add_succ_r. cbn [enc].
    rewrite !land31_mod, !shiftr5_div.
    rewrite Nat2Z.inj_succ, Z.pow_succ_r in * by lia.
    replace (a * (32 * 32 ^ Z.of_nat k) + b)
      with (b + (a * 32 ^ Z.of_nat k) * 32) by lia.
    rewrite Z.div_add, Z.mod_add by lia.
    rewrite (Z.add_comm (b / 32)), IH, append_assoc; [reflexivity|].
    split; [apply Z.div_pos; lia|].
    apply Z.div_lt_upper_bound; lia.
Qed.

(** X3: the layout of a TID: for readings of the TID range, the first 11
    characters are the base-32 digits of the timestamp and the last 2 those
    of the clock identifier, so all TIDs of one microsecond share their
    first 11 characters. *)
Theorem generate_tid_layout t c :
  in_tid_range t c -> generate_tid t c = enc 11 t ++ enc 2 c.
Proof.
  intros H. rewrite (generate_tid_enc t c H). unfold tid_value.
  destruct H as [_ Hc]. change (2 ^ 10) with 1024 in Hc.
  change 1024 with (32 ^ Z.of_nat 2).
  apply (enc_split 2 11). change (32 ^ Z.of_nat 2) with 1024. exact Hc.
Qed.

Lemma generate_tid_layout_witness :
  generate_tid 1766332800000000 517 = "3maj3nlms22" ++ "k7".
Proof.
  rewrite generate_tid_layout by (unfold in_tid_range; lia).
  vm_compute. reflexivity.
Defined.

End TIDKeys.
(* ================================================================== *)
(** ** The outbox: what the staging triggers keep and what their
    payloads carry *)
(* ================================================================== *)
Module OutboxFacts.
Import Outbox.
Local Open Scope string_scope.


(** The columns of a queue row that name the remote record. *)
Definition identity (r : queue_row)
  : queue_key * option text * text * option text * option text :=
  (key_of r, q_user_did r, q_collection r, q_rkey r, q_at_uri r).

(** The collection a record type is stored in. *)
Definition collection_of (rt : record_type) : text :=
  match rt with
  | rt_post | rt_reply => "app.bsky.feed.post"
  | rt_like => "app.bsky.feed.like"
  | rt_repost => "app.bsky.feed.repost"
  | rt_follow => "app.bsky.graph.follow"
  end.

(** A [create] row addresses [at://<user_did>/<collection>/<rkey>]. *)
Definition addressed (r : queue_row) : Prop :=
  q_operation r = op_create ->
  q_collection r = collection_of (q_record_type r) /\
  exists did rkey,
    q_user_did r = Some did /\ q_rkey r = Some rkey /\
    q_at_uri r = Some ("at://" ++ did ++ "/" ++ q_collection r ++ "/" ++ rkey).

(** The characters of [encode(..., 'base64')] and those of a record key
    made from it. *)
Definition base64_chars : text :=
  "ABCDEFGHIJKLMNOPQRSTUVWXYZabcdefghijklmnopqrstuvwxyz0123456789+/=".
Definition rkey_chars : text :=
  "ABCDEFGHIJKLMNOPQRSTUVWXYZabcdefghijklmnopqrstuvwxyz0123456789_-".

Definition is_base64 (c : ascii) : bool := TID.in_string c base64_chars.
Definition is_rkey_char (c : ascii) : bool := TID.in_string c rkey_chars.


(** [SELECT * FROM federation_queue WHERE (record_type, record_id,
    operation) = k]: the row under a key. *)
Definition queued (k : queue_key) (db : DB) : option queue_row :=
  find (fun r => key_eqb (key_of r) k) (federation_queue db).

(** A strong reference [{"uri": .., "cid": ..}]. *)
Definition strong_ref (uri cid : text) : jsonb :=
  jsonb_build_object [("uri", JString uri); ("cid", JString cid)].

(** A reply to alice's delivered post, by bob. *)
Definition sample_reply : posts_row :=
  {| posts_id := "p-reply"; posts_user_id := "u-bob";
     posts_content := Some "Hi alice"; posts_created_at := Some 980%Z;
     posts_langs := None; posts_facets := None;
     posts_thread_parent_id := Some "p-hello"; posts_thread_root_id := None;
     posts_media_urls := None; posts_rkey := None; posts_at_uri := None;
     posts_at_cid := None |}.

(** Bob follows alice by her profile id. *)
Definition sample_follow : follows_row :=
  {| follows_id := "f-1"; follows_follower_id := "u-bob";
     follows_following_id := Some "u-alice"; follows_subject_did := None;
     follows_rkey := None; follows_at_uri := None;
     follows_created_at := Some 970%Z |}.

Definition db_following : DB :=
  {| profiles := profiles Sample.db_confirmed;
     posts := posts Sample.db_confirmed; likes := likes Sample.db_confirmed;
     reposts := reposts Sample.db_confirmed; follows := [sample_follow];
     federation_queue := [] |}.

(** *** Proofs *)

Lemma upd_of_identity env op old r :
  identity (upd_of env op old r) = identity old.
Proof. unfold upd_of. now destruct (is_create op). Qed.

Lemma on_conflict_keeps upd r q x :
  (forall old n, identity (upd old n) = identity old) ->
  In x q ->
  exists x', In x' (on_conflict_do_update upd r q) /\ identity x' = identity x.
Proof.
  intros Hupd. induction q as [|old q IH]; intros Hin; [destruct Hin|].
  cbn [on_conflict_do_update].
  destruct (key_eqb (key_of old) (key_of r)).
  - destruct Hin as [<- | Hin].
    + exists (upd old r). split; [now left | apply Hupd].
    + exists x. split; [now right | reflexivity].
  - destruct Hin as [<- | Hin].
    + exists old. split; [now left | reflexivity].
    + destruct (IH Hin) as [x' [H1 H2]]. exists x'.
      split; [now right | exact H2].
Qed.

Lemma upsert_all_keeps upd rows : forall q x,
  (forall old n, identity (upd old n) = identity old) ->
  In x q ->
  exists x', In x' (upsert_all upd rows q) /\ identity x' = identity x.
Proof.
  induction rows as [|r rows IH]; intros q x Hupd Hin.
  - exists x. split; [exact Hin | reflexivity].
  - rewrite upsert_all_cons.
    destruct (on_conflict_keeps upd r q x Hupd Hin) as [y [Hy Ey]].
    destruct (IH _ y Hupd Hy) as [z [Hz Ez]].
    exists z. split; [exact Hz | congruence].
Qed.

Lemma stage_keeps env op db x :
  In x (federation_queue db) ->
  exists x', In x' (federation_queue (stage env op db)) /\
             identity x' = identity x.
Proof.
  intros Hin. destruct (stage_spec env op db) as [rows [_ ->]].
  apply upsert_all_keeps; [|exact Hin].
  intros old n. apply upd_of_identity.
Qed.

(** X4: staging never deletes a queue row and never changes the record a
    row names: every row is still there under its key after any sequence of
    staging operations, with its [user_did], [collection], [rkey] and
    [at_uri]. *)
Theorem staging_keeps_entries (ops : list (Env * staging_op)) :
  forall (db : DB) (x : queue_row),
    In x (federation_queue db) ->
    exists x', In x' (federation_queue (stage_all ops db)) /\
               identity x' = identity x.
Proof.
  induction ops as [|[env op] ops IH]; intros db x Hin.
  - exists x. split; [exact Hin | reflexivity].
  - cbn [stage_all fold_left fst snd].
    destruct (stage_keeps env op db x Hin) as [y [Hy Ey]].
    destruct (IH _ y Hy) as [z [Hz Ez]].
    exists z. split; [exact Hz | congruence].
Qed.

Lemma staging_keeps_entries_witness :
  exists x', In x' (federation_queue
                      (stage_all [(Sample.env1, StageLike Sample.like1);
                                  (Sample.env0, StagePost Sample.hello)]
                                 Sample.db_failed)) /\
             identity x' = identity Sample.like1_failed.
Proof.
  apply (staging_keeps_entries
           [(Sample.env1, StageLike Sample.like1);
            (Sample.env0, StagePost Sample.hello)] Sample.db_failed
           Sample.like1_failed).
  now left.
Defined.

Ltac one_good_row :=
  eexists [_]; split; cycle 1;
  [ reflexivity
  | constructor; [|constructor];
    intros _; split; [reflexivity|]; eexists _, _; repeat split ].

Lemma delete_rows_addressed env db rt id owner coll rkey at_uri :
  Forall addressed (delete_rows env db rt id owner coll rkey at_uri).
Proof.
  unfold delete_rows. apply Forall_forall. intros r Hr.
  apply in_map_iff in Hr as [p [<- _]]. intros Hop; discriminate Hop.
Qed.

(** What each trigger proposes is addressed. *)
Lemma stage_spec_addressed env op db :
  exists rows, Forall addressed rows /\
    federation_queue (stage env op db)
    = upsert_all (upd_of env op) rows (federation_queue db).
Proof.
  destruct op; unfold_trigger.
  - destruct (select_profile db (posts_user_id NEW)) as [[d|] h];
      cbn -[upsert_all]; [|no_rows].
    destruct (queue_insert_error env); cbn -[upsert_all]; [no_rows|].
    destruct (posts_thread_parent_id NEW); one_good_row.
  - destruct (posts_at_uri OLD); cbn -[upsert_all delete_rows]; [|no_rows].
    destruct (queue_insert_error env); cbn -[upsert_all delete_rows];
      [no_rows|].
    eexists. split; [|reflexivity]. apply delete_rows_addressed.
  - destruct (fst (select_profile db (likes_user_id NEW)));
      cbn -[upsert_all resolve_subject]; [|no_rows].
    destruct (resolve_subject db NEW) as [[u|] [c|]];
      cbn -[upsert_all]; try no_rows.
    destruct (queue_insert_error env); cbn -[upsert_all]; [no_rows|].
    one_good_row.
  - destruct (likes_at_uri OLD); cbn -[upsert_all delete_rows]; [|no_rows].
    destruct (queue_insert_error env); cbn -[upsert_all delete_rows];
      [no_rows|].
    eexists. split; [|reflexivity]. apply delete_rows_addressed.
  - destruct (fst (select_profile db (likes_user_id NEW)));
      cbn -[upsert_all resolve_subject]; [|no_rows].
    destruct (resolve_subject db NEW) as [[u|] [c|]];
      cbn -[upsert_all]; try no_rows.
    destruct (queue_insert_error env); cbn -[upsert_all]; [no_rows|].
    one_good_row.
  - destruct (likes_at_uri OLD); cbn -[upsert_all delete_rows]; [|no_rows].
    destruct (queue_insert_error env); cbn -[upsert_all delete_rows];
      [no_rows|].
    eexists. split; [|reflexivity]. apply delete_rows_addressed.
  - destruct (likes_at_uri OLD); cbn -[upsert_all]; [|no_rows].
    destruct (fst (select_profile db (likes_user_id OLD)));
      cbn -[upsert_all]; [|no_rows].
    destruct (queue_insert_error env); cbn -[upsert_all];
      [destruct (matches_others _); no_rows|].
    eexists [_]. split; [|reflexivity]. constructor; [|constructor].
    intros Hop; discriminate Hop.
  - destruct (fst (select_profile db (follows_follower_id NEW)));
      cbn -[upsert_all select_profile]; [|no_rows].
    destruct (follows_subject_did NEW) as [d|];
      cbn -[upsert_all select_profile].
    + destruct (queue_insert_error env); cbn -[upsert_all]; [no_rows|].
      one_good_row.
    + destruct (follows_following_id NEW) as [i|];
        cbn -[upsert_all select_profile];
        [|no_rows].
      destruct (fst (select_profile db i)); cbn -[upsert_all]; [|no_rows].
      destruct (queue_insert_error env); cbn -[upsert_all]; [no_rows|].
      one_good_row.
  - destruct (follows_at_uri OLD); cbn -[upsert_all delete_rows]; [|no_rows].
    destruct (queue_insert_error env); cbn -[upsert_all delete_rows];
      [no_rows|].
    eexists. split; [|reflexivity]. apply delete_rows_addressed.
Qed.

Lemma upd_of_addressed env op old r :
  addressed old -> addressed (upd_of env op old r).
Proof. unfold upd_of, addressed. now destruct (is_create op). Qed.

Lemma stage_addressed env op db :
  Forall addressed (federation_queue db) ->
  Forall addressed (federation_queue (stage env op db)).
Proof.
  intros Hq. destruct (stage_spec_addressed env op db) as [rows [Hrows ->]].
  apply upsert_all_Forall; [| |exact Hq].
  - intros old r Ho _ _. now apply upd_of_addressed.
  - exact Hrows.
Qed.

(** X5: every [create] row the triggers leave in the queue addresses
    [at://<user_did>/<collection>/<rkey>], the collection being the one of
    its record type. *)
Theorem create_rows_addressed (ops : list (Env * staging_op)) :
  forall db : DB,
    Forall addressed (federation_queue db) ->
    Forall addressed (federation_queue (stage_all ops db)).
Proof.
  induction ops as [|[env op] ops IH]; intros db Hq; [exact Hq|].
  cbn [stage_all fold_left fst snd]. apply IH. now apply stage_addressed.
Qed.

Lemma create_rows_addressed_witness :
  Forall addressed
    (federation_queue
       (stage_all [(Sample.env0, StagePost Sample.hello);
                   (Sample.env1, StageLike Sample.like1);
                   (Sample.env1, StageUnrepost Sample.repost1)]
                  Sample.db_failed)).
Proof.
  apply (create_rows_addressed
           [(Sample.env0, StagePost Sample.hello);
            (Sample.env1, StageLike Sample.like1);
            (Sample.env1, StageUnrepost Sample.repost1)] Sample.db_failed).
  constructor; [|constructor]. intros _. split; [reflexivity|].
  exists "did:plc:bob", "q83vEjRWeJCrzQ". repeat split.
Defined.

(** X6: for each of the eight trigger functions of the migration, an error
    of the INSERT into the queue, once the guards have passed, leaves the
    function and reaches the statement that fired the trigger.  The logging
    unrepost trigger returns, with the tables as they were, when [OTHERS]
    matches the error; an error that [OTHERS] does not match (a statement
    timeout, a cancel request) leaves that trigger as well. *)
Theorem staging_error_reaches_caller env op db e :
  reaches_insert op db = true -> queue_insert_error env = Some e ->
  (has_handler op = false -> trigger env op db = Raised e) /\
  (has_handler op = true -> matches_others e = true ->
   trigger env op db = Ok db) /\
  (has_handler op = true -> matches_others e = false ->
   trigger env op db = Raised e).
Proof.
  intros Hg He. rewrite (trigger_insert_error env op db e Hg He).
  repeat split.
  - now intros ->.
  - now intros -> ->.
  - intros -> ->. reflexivity.
Qed.

Lemma staging_error_reaches_caller_witness :
  trigger Sample.env_failing (StageLike Sample.like1) Sample.db_confirmed
  = Raised Sample.lock_timeout /\
  trigger Sample.env_failing (StageUnrepostLogging Sample.repost1)
          Sample.db_confirmed
  = Ok Sample.db_confirmed /\
  trigger Sample.env_timed_out (StageUnrepostLogging Sample.repost1)
          Sample.db_confirmed
  = Raised Sample.statement_timeout.
Proof.
  split; [|split].
  - apply (proj1 (staging_error_reaches_caller Sample.env_failing
             (StageLike Sample.like1) Sample.db_confirmed
             Sample.lock_timeout eq_refl eq_refl)); reflexivity.
  - apply (proj1 (proj2 (staging_error_reaches_caller Sample.env_failing
             (StageUnrepostLogging Sample.repost1) Sample.db_confirmed
             Sample.lock_timeout eq_refl eq_refl))); reflexivity.
  - apply (proj2 (proj2 (staging_error_reaches_caller Sample.env_timed_out
             (StageUnrepostLogging Sample.repost1) Sample.db_confirmed
             Sample.statement_timeout eq_refl eq_refl))); reflexivity.
Defined.

Lemma all_chars_impl (p p' : ascii -> bool) s :
  (forall c, p c = true -> p' c = true) ->
  TID.all_chars p s = true -> TID.all_chars p' s = true.
Proof.
  intros Hpp. induction s as [|c s IH]; [reflexivity|]. cbn [TID.all_chars].
  intros H. apply andb_prop in H as [Hc Hs].
  now rewrite (Hpp c Hc), IH.
Qed.

Lemma all_chars_REPLACE (p : ascii -> bool) s from to :
  TID.all_chars p to = true ->
  TID.all_chars (fun c => Ascii.eqb c from || p c) s = true ->
  TID.all_chars p (REPLACE s from to) = true.
Proof.
  intros Hto. induction s as [|c s IH]; [reflexivity|].
  cbn [TID.all_chars REPLACE]. intros H. apply andb_prop in H as [Hc Hs].
  destruct (Ascii.eqb c from).
  - rewrite TID.all_chars_append, Hto. now apply IH.
  - cbn [TID.all_chars]. cbn [orb] in Hc. rewrite Hc. now apply IH.
Qed.

Lemma base64_char_cases c :
  is_base64 c = true ->
  (Ascii.eqb c "=" || (Ascii.eqb c "+" || (Ascii.eqb c "/" || is_rkey_char c)))
  = true.
Proof.
  destruct c as [[] [] [] [] [] [] [] []]; vm_compute; intros H;
    first [reflexivity | discriminate H].
Qed.

Lemma all_chars_true s : TID.all_chars (fun _ => true) s = true.
Proof. induction s as [|c s IH]; [reflexivity | exact IH]. Qed.

(** X7: a generated record key holds none of [/], [+] and [=], whatever the
    random bytes; made from base64 text, it holds letters, digits, [_] and
    [-] only. *)
Theorem random_rkey_characters (env : Env) :
  TID.all_chars
    (fun c => negb (Ascii.eqb c "/" || Ascii.eqb c "+" || Ascii.eqb c "="))
    (random_rkey env) = true /\
  (TID.all_chars is_base64 (random_base64 env) = true ->
   TID.all_chars is_rkey_char (random_rkey env) = true).
Proof.
  unfold random_rkey. split.
  - apply all_chars_REPLACE; [reflexivity|].
    apply all_chars_impl
      with (p := fun c => negb (Ascii.eqb c "/" || Ascii.eqb c "+")).
    { intros c H. destruct (Ascii.eqb c "/"), (Ascii.eqb c "+"),
        (Ascii.eqb c "="); cbn in *; congruence. }
    apply all_chars_REPLACE; [reflexivity|].
    apply all_chars_impl with (p := fun c => negb (Ascii.eqb c "/")).
    { intros c H. destruct (Ascii.eqb c "/"), (Ascii.eqb c "+");
        cbn in *; congruence. }
    apply all_chars_REPLACE; [reflexivity|].
    apply all_chars_impl with (p := fun _ => true);
      [|apply all_chars_true].
    intros c _. now destruct (Ascii.eqb c "/").
  - intros H.
    apply all_chars_REPLACE; [reflexivity|].
    apply all_chars_REPLACE; [reflexivity|].
    apply all_chars_REPLACE; [reflexivity|].
    revert H. apply all_chars_impl. intros c Hc.
    pose proof (base64_char_cases c Hc) as B.
    destruct (Ascii.eqb c "="), (Ascii.eqb c "+"), (Ascii.eqb c "/");
      cbn in *; try reflexivity; rewrite ?orb_true_r; try reflexivity.
    exact B.
Qed.

Lemma random_rkey_characters_witness :
  TID.all_chars is_rkey_char (random_rkey Sample.env0) = true.
Proof.
  apply (proj2 (random_rkey_characters Sample.env0)). reflexivity.
Defined.

Lemma key_eqb_refl k : key_eqb k k = true.
Proof. now apply key_eqb_eq. Qed.

Lemma find_on_conflict_create t r q :
  exists x,
    find (fun y => key_eqb (key_of y) (key_of r))
         (on_conflict_do_update (update_create t) r q) = Some x /\
    q_record_data x = q_record_data r.
Proof.
  induction q as [|old q IH]; cbn [on_conflict_do_update find].
  - rewrite key_eqb_refl. now exists r.
  - destruct (key_eqb (key_of old) (key_of r)) eqn:E; cbn [find].
    + rewrite update_create_key, E. now eexists.
    + rewrite E. exact IH.
Qed.

Lemma select_post_ref_other (f : posts_row -> posts_row) i parent l :
  (forall p, posts_id (f p) = posts_id p) ->
  (forall p, posts_id p <> i -> f p = p) ->
  parent <> i ->
  find (fun p => String.eqb (posts_id p) parent) (map f l)
  = find (fun p => String.eqb (posts_id p) parent) l.
Proof.
  intros Hid Hother Hne. induction l as [|p l IH]; [reflexivity|].
  cbn [map find]. rewrite Hid.
  destruct (String.eqb_spec (posts_id p) parent) as [E | N].
  - rewrite Hother; [reflexivity | congruence].
  - exact IH.
Qed.

(** X8: a reply whose author has a DID is staged as record type [reply];
    its payload carries a [reply] reference exactly when the parent post
    has both its [at_uri] and its [at_cid], the parent then being the
    strong reference of the two, and the root defaulting to the parent when
    the row names no other root.  A reply to a parent that is not delivered
    yet is staged without any reference. *)
Theorem reply_reference env NEW db did parent :
  fst (select_profile db (posts_user_id NEW)) = Some did ->
  queue_insert_error env = None ->
  posts_thread_parent_id NEW = Some parent ->
  parent <> posts_id NEW ->
  exists r payload,
    queued (rt_reply, posts_id NEW, op_create) (stage env (StagePost NEW) db)
    = Some r /\
    q_record_data r = Some payload /\
    match select_post_ref db (Some parent) with
    | (Some pu, Some pc) =>
        exists reply,
          jsonb_get payload "reply" = Some reply /\
          jsonb_get reply "parent" = Some (strong_ref pu pc) /\
          (posts_thread_root_id NEW = None \/
           posts_thread_root_id NEW = Some parent ->
           jsonb_get reply "root" = Some (strong_ref pu pc))
    | _ => jsonb_get payload "reply" = None
    end.
Proof.
  intros Hdid Herr Hparent Hne. unfold queued. unfold_trigger.
  destruct (select_profile db (posts_user_id NEW)) as [d h].
  cbn [fst] in Hdid. subst d. rewrite Herr, Hparent.
  cbn -[select_post_ref jsonb_concat jsonb_build_object jsonb_get
        on_conflict_do_update key_eqb].
  unfold upsert_all. cbn [fold_left].
  match goal with
  | |- context [on_conflict_do_update ?u ?r ?q] =>
      destruct (find_on_conflict_create (now env) r q) as [x [Hx Hd]]
  end.
  exists x. eexists. split; [exact Hx|]. split; [rewrite Hd; reflexivity|].
  clear Hx Hd x.
  rewrite (select_post_ref_other _ (posts_id NEW) parent);
    [| intros p; now destruct (_ && _)
     | intros p Hp; apply String.eqb_neq in Hp; now rewrite Hp
     | exact Hne].
  cbn [select_post_ref].
  destruct (find (fun p => String.eqb (posts_id p) parent) (posts db))
    as [pp|];
    [destruct (posts_at_uri pp) as [pu|], (posts_at_cid pp) as [pc|]|].
  all: destruct (posts_facets NEW) as [f|];
    destruct (posts_media_urls NEW) as [[|u urls]|].
  all: try reflexivity.
  all: destruct (posts_thread_root_id NEW) as [root|];
    [destruct (String.eqb_spec root parent) as [-> | Hr]|].
  all: cbn [negb].
  all: try reflexivity.
  all: try match goal with
       | |- context [find ?g (map ?u ?l)] =>
           destruct (find g (map u l)) as [rp|];
             [destruct (posts_at_uri rp), (posts_at_cid rp)|]
       end.
  all: try reflexivity.
  all: eexists; split; [reflexivity|]; split; [reflexivity|].
  all: intros [H | H]; first [discriminate H | reflexivity | congruence].
Qed.

Lemma reply_reference_witness :
  exists r payload reply,
    queued (rt_reply, "p-reply", op_create)
           (stage Sample.env1 (StagePost sample_reply) Sample.db_confirmed)
    = Some r /\
    q_record_data r = Some payload /\
    jsonb_get payload "reply" = Some reply /\
    jsonb_get reply "root"
    = Some (strong_ref "at://did:plc:alice/app.bsky.feed.post/q83vEjRWeJCrzQ"
                       "bafyreihello").
Proof.
  destruct (reply_reference Sample.env1 sample_reply Sample.db_confirmed
              "did:plc:bob" "p-hello")
    as (r & payload & Hr & Hp & reply & H1 & _ & H3);
    [reflexivity | reflexivity | reflexivity | discriminate |].
  exists r, payload, reply.
  split; [exact Hr|]. split; [exact Hp|]. split; [exact H1|].
  apply H3. now left.
Defined.

(** X9: the DID a follow is addressed to is the row's own [subject_did]
    and, without one, the DID of the followed profile; it is the subject of
    the staged payload and is written back to the follow row. *)
Theorem follow_subject env NEW db did target :
  fst (select_profile db (follows_follower_id NEW)) = Some did ->
  queue_insert_error env = None ->
  follows_subject_did NEW = Some target \/
  (follows_subject_did NEW = None /\
   exists i, follows_following_id NEW = Some i /\
             fst (select_profile db i) = Some target) ->
  let db' := stage env (StageFollow NEW) db in
  (exists r payload,
     queued (rt_follow, follows_id NEW, op_create) db' = Some r /\
     q_record_data r = Some payload /\
     jsonb_get payload "subject" = Some (JString target)) /\
  (forall f, In f (follows db') -> follows_id f = follows_id NEW ->
             follows_subject_did f = Some target).
Proof.
  intros Hdid Herr Htarget. cbv zeta. unfold queued. unfold_trigger.
  rewrite Hdid.
  assert (E : match follows_subject_did NEW with
              | Some d => Some d
              | None => match follows_following_id NEW with
                        | Some i => fst (select_profile db i)
                        | None => None
                        end
              end = Some target).
  { destruct Htarget as [-> | [-> [i [-> Hi]]]]; [reflexivity | exact Hi]. }
  rewrite E, Herr.
  cbn -[jsonb_build_object jsonb_get on_conflict_do_update key_eqb].
  unfold upsert_all. cbn [fold_left]. split.
  - match goal with
    | |- context [on_conflict_do_update ?u ?r ?q] =>
        destruct (find_on_conflict_create (now env) r q) as [x [Hx Hd]]
    end.
    exists x. eexists. split; [exact Hx|]. split; [rewrite Hd; reflexivity|].
    reflexivity.
  - intros f Hin Hid. apply in_map_iff in Hin as [f0 [Hf Hin]].
    destruct (String.eqb_spec (follows_id f0) (follows_id NEW)) as [E0 | N0];
      subst f; [reflexivity | contradiction].
Qed.

Lemma follow_subject_witness :
  exists r payload,
    queued (rt_follow, "f-1", op_create)
           (stage Sample.env1 (StageFollow sample_follow) db_following)
    = Some r /\
    q_record_data r = Some payload /\
    jsonb_get payload "subject" = Some (JString "did:plc:alice").
Proof.
  apply (follow_subject Sample.env1 sample_follow db_following
           "did:plc:bob" "did:plc:alice"); [reflexivity | reflexivity |].
  right. split; [reflexivity|]. exists "u-alice". split; reflexivity.
Defined.

(** X10: the subject of a staged like or repost is the strong reference the
    trigger resolved (the row's own [subject_uri] and [subject_cid], or the
    post's [at_uri] and [at_cid]), in the payload and, written back, in the
    local row. *)
Theorem subject_reference env NEW db did uri cid (repost : bool) :
  fst (select_profile db (likes_user_id NEW)) = Some did ->
  resolve_subject db NEW = (Some uri, Some cid) ->
  queue_insert_error env = None ->
  let op := if repost then StageRepost NEW else StageLike NEW in
  let db' := stage env op db in
  (exists r payload,
     queued (op_key op) db' = Some r /\
     q_record_data r = Some payload /\
     jsonb_get payload "subject" = Some (strong_ref uri cid)) /\
  (forall l, In l (if repost then reposts db' else likes db') ->
             likes_id l = likes_id NEW ->
             likes_subject_uri l = Some uri /\ likes_subject_cid l = Some cid).
Proof.
  intros Hdid Hsub Herr. cbv zeta. unfold queued.
  destruct repost; unfold_trigger; rewrite Hdid, Hsub, Herr;
    cbn -[jsonb_build_object jsonb_get on_conflict_do_update key_eqb];
    unfold upsert_all; cbn [fold_left].
  all: split;
    [ match goal with
      | |- context [on_conflict_do_update ?u ?r ?q] =>
          destruct (find_on_conflict_create (now env) r q) as [x [Hx Hd]]
      end;
      exists x; eexists; split; [exact Hx|]; split;
        [rewrite Hd; reflexivity | reflexivity]
    | intros l Hin Hid; unfold set_like_keys in Hin;
      apply in_map_iff in Hin as [l0 [Hl Hin]];
      destruct (String.eqb_spec (likes_id l0) (likes_id NEW)) as [E0 | N0];
      subst l; [split; reflexivity | contradiction] ].
Qed.

Lemma subject_reference_witness :
  exists r payload,
    queued (rt_like, "l-1", op_create)
           (stage Sample.env1 (StageLike Sample.like1) Sample.db_confirmed)
    = Some r /\
    q_record_data r = Some payload /\
    jsonb_get payload "subject"
    = Some (strong_ref "at://did:plc:alice/app.bsky.feed.post/q83vEjRWeJCrzQ"
                       "bafyreihello").
Proof.
  apply (subject_reference Sample.env1 Sample.like1 Sample.db_confirmed
           "did:plc:bob"
           "at://did:plc:alice/app.bsky.feed.post/q83vEjRWeJCrzQ"
           "bafyreihello" false); reflexivity.
Defined.

End OutboxFacts.
(* ================================================================== *)
(** ** The TID-keyed staging triggers
    (20251221171000_fix_federation_queue_columns.sql) *)
(* ================================================================== *)
Module TidStaging.
Import Outbox.
Local Open Scope string_scope.

(** What a run of these triggers takes from outside the tables: [NOW()],
    the readings [generate_tid()] makes of [clock_timestamp()] and
    [random()], and the error, if any, of the INSERT into the queue; the
    other statements are taken to run without error. *)
Record Env := {
  now : timestamptz;
  timestamp_us : Z;
  clock_id : Z;
  queue_insert_error : option error }.

(** [INSERT INTO federation_queue (...) VALUES (...)], without an
    ON CONFLICT clause: the row is added, or the statement raises. *)
Definition insert_into_federation_queue (env : Env) (r : queue_row) : M unit :=
  match queue_insert_error env with
  | Some e => raise e
  | None =>
      db <- get_db ;;
      put_db (set_queue db (federation_queue db ++ [r])%list)
  end.

(** The row of an INSERT that lists [status] and [created_at]; [attempts]
    and [last_error] take their defaults. *)
Definition queue_values (env : Env) (op : operation) (rt : record_type)
    (id : uuid) (coll rkey did at_uri : text) (data : option jsonb)
  : queue_row :=
  {| q_record_type := rt; q_record_id := id; q_user_did := Some did;
     q_collection := coll; q_rkey := Some rkey; q_at_uri := Some at_uri;
     q_record_data := data; q_operation := op; q_status := st_pending;
     q_attempts := 0; q_last_error := None; q_created_at := now env |}.

Definition created_at_text (env : Env) (c : option timestamptz) : jsonb :=
  JTime (COALESCE c (now env)).

Definition queue_repost_for_federation (env : Env) (NEW : reposts_row)
  : M reposts_row :=
  begin_exception
    (db <- get_db ;;
     match fst (select_profile db (likes_user_id NEW)) with
     | None => ret NEW
     | Some v_user_did =>
       let '(v_post_at_uri, v_post_at_cid) := resolve_subject db NEW in
       match v_post_at_uri with
       | None => ret NEW
       | Some v_post_at_uri =>
         match v_post_at_cid with
         | None => ret NEW
         | Some v_post_at_cid =>
           let v_rkey :=
             match likes_rkey NEW with
             | Some k => k
             | None => TID.generate_tid (timestamp_us env) (clock_id env)
             end in
           let v_at_uri :=
             "at://" ++ v_user_did ++ "/app.bsky.feed.repost/" ++ v_rkey in
           update_reposts_keys (likes_id NEW) v_rkey v_at_uri
                               v_post_at_uri v_post_at_cid ;;;
           let v_record_data := jsonb_build_object
             [("$type", JString "app.bsky.feed.repost");
              ("subject", jsonb_build_object
                 [("uri", JString v_post_at_uri);
                  ("cid", JString v_post_at_cid)]);
              ("createdAt", created_at_text env (likes_created_at NEW))] in
           insert_into_federation_queue env
             (queue_values env op_create rt_repost (likes_id NEW)
                "app.bsky.feed.repost" v_rkey v_user_did v_at_uri
                (Some v_record_data)) ;;;
           ret NEW
         end
       end
     end)
    (fun _sqlerrm => ret NEW).

Definition queue_like_for_federation (env : Env) (NEW : likes_row)
  : M likes_row :=
  begin_exception
    (db <- get_db ;;
     match fst (select_profile db (likes_user_id NEW)) with
     | None => ret NEW
     | Some v_user_did =>
       let '(v_post_at_uri, v_post_at_cid) := resolve_subject db NEW in
       match v_post_at_uri with
       | None => ret NEW
       | Some v_post_at_uri =>
         match v_post_at_cid with
         | None => ret NEW
         | Some v_post_at_cid =>
           let v_rkey :=
             match likes_rkey NEW with
             | Some k => k
             | None => TID.generate_tid (timestamp_us env) (clock_id env)
             end in
           let v_at_uri :=
             "at://" ++ v_user_did ++ "/app.bsky.feed.like/" ++ v_rkey in
           update_likes_keys (likes_id NEW) v_rkey v_at_uri
                             v_post_at_uri v_post_at_cid ;;;
           let v_record_data := jsonb_build_object
             [("$type", JString "app.bsky.feed.like");
              ("subject", jsonb_build_object
                 [("uri", JString v_post_at_uri);
                  ("cid", JString v_post_at_cid)]);
              ("createdAt", created_at_text env (likes_created_at NEW))] in
           insert_into_federation_queue env
             (queue_values env op_create rt_like (likes_id NEW)
                "app.bsky.feed.like" v_rkey v_user_did v_at_uri
                (Some v_record_data)) ;;;
           ret NEW
         end
       end
     end)
    (fun _sqlerrm => ret NEW).

Definition queue_unrepost_for_federation (env : Env) (OLD : reposts_row)
  : M reposts_row :=
  begin_exception
    (match likes_rkey OLD, likes_at_uri OLD with
     | Some v_rkey, Some v_at_uri =>
         db <- get_db ;;
         match fst (select_profile db (likes_user_id OLD)) with
         | None => ret OLD
         | Some v_user_did =>
             insert_into_federation_queue env
               (queue_values env op_delete rt_repost (likes_id OLD)
                  "app.bsky.feed.repost" v_rkey v_user_did v_at_uri None) ;;;
             ret OLD
         end
     | _, _ => ret OLD
     end)
    (fun _sqlerrm => ret OLD).

Definition queue_unlike_for_federation (env : Env) (OLD : likes_row)
  : M likes_row :=
  begin_exception
    (match likes_rkey OLD, likes_at_uri OLD with
     | Some v_rkey, Some v_at_uri =>
         db <- get_db ;;
         match fst (select_profile db (likes_user_id OLD)) with
         | None => ret OLD
         | Some v_user_did =>
             insert_into_federation_queue env
               (queue_values env op_delete rt_like (likes_id OLD)
                  "app.bsky.feed.like" v_rkey v_user_did v_at_uri None) ;;;
             ret OLD
         end
     | _, _ => ret OLD
     end)
    (fun _sqlerrm => ret OLD).

(** The four triggers of the migration. *)
Inductive staging_op : Type :=
| StageRepost (NEW : reposts_row)
| StageLike (NEW : likes_row)
| StageUnrepost (OLD : reposts_row)
| StageUnlike (OLD : likes_row).

Definition row_of (op : staging_op) : likes_row :=
  match op with
  | StageRepost r | StageLike r | StageUnrepost r | StageUnlike r => r
  end.

Definition trigger (env : Env) (op : staging_op) : M likes_row :=
  match op with
  | StageRepost NEW => queue_repost_for_federation env NEW
  | StageLike NEW => queue_like_for_federation env NEW
  | StageUnrepost OLD => queue_unrepost_for_federation env OLD
  | StageUnlike OLD => queue_unlike_for_federation env OLD
  end.

(** Whether a run reaches the INSERT into the queue: the guards that come
    before it pass. *)
Definition reaches_insert (op : staging_op) (db : DB) : bool :=
  match op with
  | StageRepost NEW | StageLike NEW =>
      match fst (select_profile db (likes_user_id NEW)),
            resolve_subject db NEW with
      | Some _, (Some _, Some _) => true
      | _, _ => false
      end
  | StageUnrepost OLD | StageUnlike OLD =>
      match likes_rkey OLD, likes_at_uri OLD,
            fst (select_profile db (likes_user_id OLD)) with
      | Some _, Some _, Some _ => true
      | _, _, _ => false
      end
  end.

(** Sample environments: the INSERT fails on the unique key, the INSERT runs
    into the statement timeout, the INSERT works. *)
Definition unique_violation : error :=
  {| sqlstate := "23505";
     sqlerrm := "duplicate key value violates unique constraint" |}.

Definition env_failing : Env :=
  {| now := 2000%Z; timestamp_us := 1766332800000000%Z; clock_id := 517%Z;
     queue_insert_error := Some unique_violation |}.

Definition env_timed_out : Env :=
  {| now := 2000%Z; timestamp_us := 1766332800000000%Z; clock_id := 517%Z;
     queue_insert_error := Some Sample.statement_timeout |}.

Definition env_ok : Env :=
  {| now := 2000%Z; timestamp_us := 1766332800000000%Z; clock_id := 517%Z;
     queue_insert_error := None |}.

(** *** Proofs *)

Ltac unfold_tid_trigger :=
  unfold trigger, queue_repost_for_federation, queue_like_for_federation,
    queue_unrepost_for_federation, queue_unlike_for_federation,
    begin_exception, bind, get_db, put_db, ret, raise,
    update_likes_keys, update_reposts_keys, insert_into_federation_queue.

(** X11: an error of the INSERT into the queue that [OTHERS] matches never
    leaves any of the four triggers: the row comes back as it was given and
    the tables are as before the trigger ran, the UPDATE of the local row
    undone with the INSERT.  An error that [OTHERS] does not match (a
    statement timeout, a cancel request, a failed ASSERT) leaves the trigger
    whenever the run reaches the INSERT. *)
Theorem tid_trigger_never_raises (env : Env) (op : staging_op) (db : DB)
    (e : error) :
  queue_insert_error env = Some e ->
  (matches_others e = true -> trigger env op db = Ok (row_of op, db)) /\
  (matches_others e = false ->
   trigger env op db
   = if reaches_insert op db then Raised e else Ok (row_of op, db)).
Proof.
  intros He.
  assert (H : trigger env op db
              = if reaches_insert op db && negb (matches_others e)
                then Raised e else Ok (row_of op, db)).
  { destruct op as [NEW | NEW | OLD | OLD]; unfold_tid_trigger;
      cbn [row_of reaches_insert]; rewrite He.
    1, 2: destruct (fst (select_profile db (likes_user_id NEW)));
      [|reflexivity];
      destruct (resolve_subject db NEW) as [[u|] [c|]]; try reflexivity;
      cbn; now destruct (matches_others e).
    all: destruct (likes_rkey OLD), (likes_at_uri OLD); try reflexivity;
      destruct (fst (select_profile db (likes_user_id OLD)));
      [|reflexivity]; cbn; now destruct (matches_others e). }
  rewrite H. split; intros ->; cbn [negb].
  - now rewrite andb_false_r.
  - now rewrite andb_true_r.
Qed.

Lemma tid_trigger_never_raises_witness :
  trigger env_failing (StageLike Sample.like1) Sample.db_confirmed
  = Ok (Sample.like1, Sample.db_confirmed) /\
  trigger env_timed_out (StageLike Sample.like1) Sample.db_confirmed
  = Raised Sample.statement_timeout.
Proof.
  split.
  - apply (proj1 (tid_trigger_never_raises env_failing
                    (StageLike Sample.like1) Sample.db_confirmed
                    unique_violation eq_refl)). reflexivity.
  - apply (proj2 (tid_trigger_never_raises env_timed_out
                    (StageLike Sample.like1) Sample.db_confirmed
                    Sample.statement_timeout eq_refl)). reflexivity.
Defined.

(** X12: a like or repost without a record key is staged under a fresh TID: the
    queue gains one row whose [rkey] is a valid TID and whose [at_uri] is
    built on it, and the local row is given the same key and URI. *)
Theorem staged_rkey_is_tid env NEW db did uri cid (repost : bool) :
  fst (select_profile db (likes_user_id NEW)) = Some did ->
  resolve_subject db NEW = (Some uri, Some cid) ->
  likes_rkey NEW = None ->
  queue_insert_error env = None ->
  let op := if repost then StageRepost NEW else StageLike NEW in
  let coll :=
    if repost then "app.bsky.feed.repost" else "app.bsky.feed.like" in
  let k := TID.generate_tid (timestamp_us env) (clock_id env) in
  let at_uri := "at://" ++ did ++ "/" ++ coll ++ "/" ++ k in
  TID.valid_tid k = true /\
  exists db' r,
    trigger env op db = Ok (NEW, db') /\
    federation_queue db' = (federation_queue db ++ [r])%list /\
    q_rkey r = Some k /\ q_at_uri r = Some at_uri /\
    q_collection r = coll /\ q_operation r = op_create /\
    forall l, In l (if repost then reposts db' else likes db') ->
              likes_id l = likes_id NEW ->
              likes_rkey l = Some k /\ likes_at_uri l = Some at_uri.
Proof.
  intros Hdid Hsub Hrkey Herr. cbv zeta.
  split; [apply TID.generate_tid_valid|].
  destruct repost; unfold_tid_trigger; rewrite Hdid, Hsub, Hrkey, Herr;
    eexists; eexists; (split; [reflexivity|]);
    cbn [federation_queue set_queue reposts likes queue_values q_rkey
         q_at_uri q_collection q_operation];
    (split; [reflexivity|]); (split; [reflexivity|]);
    (split; [reflexivity|]); (split; [reflexivity|]);
    (split; [reflexivity|]);
    intros l Hin Hid; unfold set_like_keys in Hin;
    apply in_map_iff in Hin as [l0 [Hl Hin]];
    destruct (String.eqb_spec (likes_id l0) (likes_id NEW)) as [E0 | N0];
    subst l; [split; reflexivity | contradiction | split; reflexivity
             | contradiction].
Qed.

Lemma staged_rkey_is_tid_witness :
  exists db' r,
    trigger env_ok (StageLike Sample.like1) Sample.db_confirmed
    = Ok (Sample.like1, db') /\
    federation_queue db' = [r] /\
    q_rkey r = Some "3maj3nlms22k7" /\
    q_at_uri r = Some "at://did:plc:bob/app.bsky.feed.like/3maj3nlms22k7".
Proof.
  destruct (staged_rkey_is_tid env_ok Sample.like1 Sample.db_confirmed
              "did:plc:bob"
              "at://did:plc:alice/app.bsky.feed.post/q83vEjRWeJCrzQ"
              "bafyreihello" false)
    as (_ & db' & r & H1 & H2 & H3 & H4 & _); try reflexivity.
  exists db', r. split; [exact H1|]. split; [exact H2|].
  split; [exact H3 | exact H4].
Defined.

End TidStaging.
(* ================================================================== *)
(** ** The ingester: what a stream of events leaves in [notifications] *)
(* ================================================================== *)
Module IngesterFacts.
Import Ingester.
Local Open Scope string_scope.

(** The requests of a stream, each with the environment it ran in. *)
Definition process_all (evs : list (Env * JetstreamEvent)) (db : DB) : DB :=
  fold_left (fun d ee => snd (process_event (fst ee) (snd ee) d)) evs db.

(** [CHECK (actor_id IS NOT NULL OR is_external = TRUE)] *)
Definition chk_notification_actor (n : notification) : bool :=
  negb (match n_actor_id n with None => true | Some _ => false end)
  || n_is_external n.


(** One in which the dedup query fails and the insert works. *)
Definition env_blind : Env :=
  {| getActorProfile := fun _ => None; now_iso := "2025-12-24T11:00:00.000Z";
     dedup_error := true; insert_error := None |}.

(** Two rows of [posts] with the same [atproto_uri]. *)
Definition db_ambiguous : DB :=
  {| profiles := [Sample.alice]; posts := [Sample.post1; Sample.post1];
     notifications := [] |}.

(** *** Proofs *)

Lemma or_else_nonempty a b : b <> "" -> or_else a b <> "".
Proof. unfold or_else. destruct a as [[|c s]|]; cbn; congruence. Qed.

Lemma createNotification_outcome env userId actor r postId db :
  let res := createNotification env userId actor r postId db in
  if created (fst res)
  then exists n,
         snd res = {| profiles := profiles db; posts := posts db;
                      notifications := (notifications db ++ [n])%list |} /\
         type (fst res) = Some r /\
         n_user_id n = userId /\ n_reason n = r /\
         n_actor_did n = Some actor /\ n_post_id n = or_null postId /\
         n_is_external n = true /\ n_actor_id n = None /\
         n_is_read n = false /\
         (actor <> "" ->
          n_actor_handle n <> Some "" /\ n_actor_display_name n <> Some "" /\
          n_actor_handle n <> None /\ n_actor_display_name n <> None)
  else snd res = db.
Proof.
  unfold createNotification.
  destruct (if dedup_error env then None
            else Some (existing db userId r actor)) as [[|x l]|];
    [|reflexivity|].
  all: destruct (insert_error env); [reflexivity|]; cbn [fst snd created];
    eexists; (split; [reflexivity|]); cbn; repeat split; try discriminate;
    intros [= E]; revert E; repeat apply or_else_nonempty; assumption.
Qed.

(** X13: a request that answers [created: true] appended exactly one row, an
    external and unread one in the name of the event's actor; a request that
    answers [created: false] left the tables as they were. *)
Theorem created_means_one_row (env : Env) (event : JetstreamEvent) (db : DB) :
  let res := process_event env event db in
  if created (fst res)
  then exists n,
         snd res = {| profiles := profiles db; posts := posts db;
                      notifications := (notifications db ++ [n])%list |} /\
         type (fst res) = Some (n_reason n) /\
         n_actor_did n = Some (actorDid event) /\
         n_is_external n = true /\ n_actor_id n = None /\
         n_is_read n = false /\
         (actorDid event <> "" ->
          n_actor_handle n <> Some "" /\ n_actor_display_name n <> Some "" /\
          n_actor_handle n <> None /\ n_actor_display_name n <> None)
  else snd res = db.
Proof.
  cbv zeta. destruct (process_event_decision env event db) as [dec H].
  rewrite (H db eq_refl eq_refl).
  destruct dec as [[[owner r] pid] | msg]; [|reflexivity].
  pose proof (createNotification_outcome env owner (actorDid event) r pid db)
    as C. cbv zeta in C.
  destruct (created (fst (createNotification env owner (actorDid event) r
                            pid db))); [|exact C].
  destruct C as (n & E & Ht & _ & Hr & Ha & _ & He & Hi & Hd & Hn).
  exists n. rewrite Hr. auto 10.
Qed.


Lemma created_means_one_row_witness :
  exists n,
    notifications (snd (process_event Sample.env0 Sample.like_post1 Sample.db0))
    = [n] /\
    n_is_external n = true /\ n_actor_handle n <> Some "".
Proof.
  pose proof (created_means_one_row Sample.env0 Sample.like_post1 Sample.db0)
    as H. cbv zeta in H.
  change (created (fst (process_event Sample.env0 Sample.like_post1
                          Sample.db0))) with true in H. cbv iota in H.
  destruct H as (n & E & _ & _ & He & _ & _ & Hn).
  exists n. rewrite E. split; [reflexivity|]. split; [exact He|].
  apply Hn. discriminate.
Defined.

Lemma process_event_notifications env event db :
  exists added,
    notifications (snd (process_event env event db))
    = (notifications db ++ added)%list /\
    Forall (fun n => chk_notification_actor n = true) added /\
    (List.length added <= 1)%nat.
Proof.
  assert (Same : exists added,
            notifications db = (notifications db ++ added)%list /\
            Forall (fun n => chk_notification_actor n = true) added /\
            (List.length added <= 1)%nat).
  { exists []. rewrite app_nil_r. split; [reflexivity|].
    split; [constructor | cbn; lia]. }
  destruct (process_event_decision env event db) as [dec H].
  rewrite (H db eq_refl eq_refl).
  destruct dec as [[[owner r] pid] | msg]; [|exact Same].
  pose proof (createNotification_outcome env owner (actorDid event) r pid db)
    as C. cbv zeta in C.
  destruct (created (fst (createNotification env owner (actorDid event) r
                            pid db))).
  - destruct C as (n & E & _ & _ & _ & _ & _ & He & _). exists [n]. rewrite E.
    split; [reflexivity|]. split; [|cbn; lia].
    constructor; [|constructor]. unfold chk_notification_actor.
    rewrite He. apply orb_true_r.
  - rewrite C. exact Same.
Qed.

Lemma process_all_notifications evs : forall db,
  exists added,
    notifications (process_all evs db) = (notifications db ++ added)%list /\
    Forall (fun n => chk_notification_actor n = true) added /\
    (List.length added <= List.length evs)%nat.
Proof.
  induction evs as [|[env event] evs IH]; intros db.
  - exists []. rewrite app_nil_r. split; [reflexivity|].
    split; [constructor | cbn; lia].
  - cbn [process_all fold_left fst snd].
    destruct (process_event_notifications env event db)
      as (a1 & E1 & F1 & L1).
    destruct (IH (snd (process_event env event db))) as (a2 & E2 & F2 & L2).
    exists (a1 ++ a2)%list. unfold process_all in E2. rewrite E2, E1.
    rewrite app_assoc. split; [reflexivity|]. split.
    + apply Forall_app. now split.
    + rewrite length_app. cbn [List.length]. lia.
Qed.

Lemma process_all_frame evs : forall db,
  profiles (process_all evs db) = profiles db /\
  posts (process_all evs db) = posts db.
Proof.
  induction evs as [|[env event] evs IH]; intros db; [now split|].
  cbn [process_all fold_left fst snd].
  destruct (IH (snd (process_event env event db))) as [H1 H2].
  destruct (process_event_frame env event db) as [H3 H4].
  unfold process_all in *. rewrite H1, H2. now split.
Qed.

(** X14: a stream of events only appends to [notifications], at most one row for
    each event; no stored row is changed or removed, the rows added satisfy
    the table's check [chk_notification_actor], and [profiles] and [posts]
    are never written. *)
Theorem stream_appends_checked_rows (evs : list (Env * JetstreamEvent))
    (db : DB) :
  profiles (process_all evs db) = profiles db /\
  posts (process_all evs db) = posts db /\
  exists added,
    notifications (process_all evs db) = (notifications db ++ added)%list /\
    Forall (fun n => chk_notification_actor n = true) added /\
    (List.length added <= List.length evs)%nat.
Proof.
  destruct (process_all_frame evs db) as [H1 H2].
  split; [exact H1|]. split; [exact H2|]. apply process_all_notifications.
Qed.





(** With a dedup query that fails, the redelivered event is stored again. *)
Example redelivery_with_failed_dedup :
  let db1 := snd (process_event Sample.env0 Sample.like_post1 Sample.db0) in
  let '(out2, db2) := process_event env_blind Sample.like_post1 db1 in
  created out2 = true /\
  map n_post_id (notifications db2) = [Some "p-1"; Some "p-1"].
Proof. vm_compute. split; reflexivity. Qed.


(** X16: [.maybeSingle()] on an ambiguous address: when two or more posts carry
    the liked or reposted URI the lookup fails, and the event is dropped
    with "post not found", whoever the actor is. *)
Theorem ambiguous_subject_dropped (env : Env) (event : JetstreamEvent)
    (db : DB) (uri : string) :
  record_subject_uri event = Some uri ->
  includes uri CANNECT_DOMAIN = true ->
  (2 <= List.length
          (filter (fun p => match post_atproto_uri p with
                            | Some u => String.eqb u uri
                            | None => false
                            end) (posts db)))%nat ->
  processLike env event db = (not_created "post not found", db) /\
  processRepost env event db = (not_created "post not found", db).
Proof.
  intros Hu Hi Hn. unfold processLike, processRepost.
  rewrite Hu, Hi, (includes_truthy uri Hi). cbn [negb orb].
  unfold findPostByUri, maybeSingle.
  destruct (filter _ (posts db)) as [|p1 [|p2 rest]]; cbn in Hn;
    [lia | lia | split; reflexivity].
Qed.

Lemma ambiguous_subject_dropped_witness :
  processLike Sample.env0 Sample.like_post1 db_ambiguous
  = (not_created "post not found", db_ambiguous).
Proof.
  apply (ambiguous_subject_dropped Sample.env0 Sample.like_post1 db_ambiguous
           "at://alice.cannect.space/app.bsky.feed.post/3maj3nlms22k7");
    [reflexivity | reflexivity | cbn; lia].
Defined.

End IngesterFacts.
(* ================================================================== *)
(** ** The feed predicate: letter case *)
(* ================================================================== *)
Module FeedLogicFacts.
Import FeedLogic.
Local Open Scope string_scope.

Lemma same_case_refl a : same_ignoring_case a a.
Proof. induction a as [|x a IH]; cbn; auto. Qed.

Lemma same_case_trans a : forall b c,
  same_ignoring_case a b -> same_ignoring_case b c -> same_ignoring_case a c.
Proof.
  induction a as [|x a IH]; intros [|y b] [|z c]; cbn; try tauto.
  intros [H1 H2] [H3 H4]. split; [congruence | eauto].
Qed.

Lemma same_case_sym a : forall b,
  same_ignoring_case a b -> same_ignoring_case b a.
Proof.
  induction a as [|x a IH]; intros [|y b]; cbn; try tauto.
  intros [H1 H2]. split; [congruence | auto].
Qed.

Lemma same_case_split a : forall b t,
  same_ignoring_case (a ++ b) t ->
  exists a' b', t = a' ++ b' /\ same_ignoring_case a a' /\
                same_ignoring_case b b'.
Proof.
  induction a as [|x a IH]; intros b t H.
  - exists "", t. cbn. auto.
  - destruct t as [|y t]; cbn in H; [tauto|]. destruct H as [Hxy H].
    destruct (IH b t H) as (a' & b' & -> & Ha & Hb).
    exists (String y a'), b'. cbn. auto.
Qed.

Lemma same_case_last_word a b :
  same_ignoring_case a b ->
  is_word (last_char None a) = is_word (last_char None b).
Proof.
  intros H. destruct a as [|x a].
  - destruct b; [reflexivity | destruct H].
  - apply same_case_last; [exact H | discriminate].
Qed.

Lemma whole_word_same_case kw t t' :
  same_ignoring_case t t' -> whole_word kw t -> whole_word kw t'.
Proof.
  intros Hs (b & mid & a & -> & Hk & Hb & Ha).
  apply same_case_split in Hs as (b' & r' & -> & Hsb & Hs).
  apply same_case_split in Hs as (mid' & a' & -> & Hsm & Hsa).
  exists b', mid', a'. split; [reflexivity|].
  split; [eapply same_case_trans; eauto|]. split.
  - now rewrite <- (same_case_last_word b b' Hsb).
  - now rewrite <- (same_case_first a a' Hsa).
Qed.

Lemma test_same_case t t' :
  same_ignoring_case t t' ->
  test CANNABIS_REGEX t = test CANNABIS_REGEX t'.
Proof.
  intros Hs.
  assert (F : forall u u', same_ignoring_case u u' ->
              test CANNABIS_REGEX u = true -> test CANNABIS_REGEX u' = true).
  { intros u u' Hu H. apply test_CANNABIS_REGEX in H as (kw & Hin & Hw).
    apply test_CANNABIS_REGEX. exists kw. split; [exact Hin|].
    now apply (whole_word_same_case kw u u'). }
  destruct (test CANNABIS_REGEX t) eqn:E1, (test CANNABIS_REGEX t') eqn:E2;
    try reflexivity.
  - rewrite (F t t' Hs E1) in E2. discriminate.
  - rewrite (F t' t (same_case_sym _ _ Hs) E2) in E1. discriminate.
Qed.

(** X17: the decision does not depend on the case of the letters of the text:
    two texts that differ in upper and lower case only get the same answer,
    for the same handle. *)
Theorem text_case_does_not_matter (authorHandle : option string)
    (t t' : string) :
  same_ignoring_case t t' ->
  shouldIncludePost authorHandle (Some t)
  = shouldIncludePost authorHandle (Some t').
Proof.
  intros Hs. unfold shouldIncludePost.
  rewrite (test_same_case t t' Hs).
  replace (truthy (Some t)) with (truthy (Some t')); [reflexivity|].
  destruct t, t'; cbn in Hs; try tauto; reflexivity.
Qed.

Lemma text_case_does_not_matter_witness :
  shouldIncludePost (Some "bob.bsky.social") (Some "Fresh TERPS today")
  = shouldIncludePost (Some "bob.bsky.social") (Some "fresh terps TODAY").
Proof.
  apply text_case_does_not_matter. cbn. repeat split.
Defined.

(** The handle, unlike the text, is compared as it is written. *)
Example handle_case_matters :
  shouldIncludePost (Some "alice.cannect.space") (Some "hello")
  = {| include := true; reason := "cannect_user" |} /\
  shouldIncludePost (Some "alice.Cannect.Space") (Some "hello")
  = {| include := false; reason := "no_match" |}.
Proof. split; vm_compute; reflexivity. Qed.

End FeedLogicFacts.

(* ================================================================== *)
(** ** The indexer: getPostText of feed-logic.js and the Jetstream
    handlers of feed-vps/index.js *)
(* ================================================================== *)
Module Indexer.
Import FeedLogic.
Local Open Scope string_scope.

(** Of a post record, the fields the indexer reads: [record.text],
    [record.embed.record.value.text], [record.$handle] and
    [record.createdAt]. *)
Record post_record := {
  r_text : option string;
  r_embed_record_value_text : option string;
  r_handle : option string;
  r_createdAt : option string }.

(** [a || b] on strings that may be missing. *)
Definition or_else (a : option string) (b : string) : string :=
  match a with
  | Some s => if truthy a then s else b
  | None => b
  end.

(** [getPostText(record)] *)
Definition getPostText (record : option post_record) : string :=
  match record with
  | None => ""
  | Some record =>
      (* Main text *)
      let text := or_else (r_text record) "" in
      (* Also check embeds for quoted posts *)
      match r_embed_record_value_text record with
      | Some quoted =>
          if truthy (Some quoted) then text ++ " " ++ quoted else text
      | None => text
      end
  end.

(** [event.commit] *)
Record commit := {
  c_operation : string;
  c_collection : string;
  c_rkey : string;
  c_cid : option string;
  c_record : option post_record }.

Record event := {
  kind : string;
  commit_of : option commit;
  did : string }.

(** The calls into db.js, which is not part of this development; a run
    keeps the calls that returned, in order. *)
Inductive db_call : Type :=
| addPost (uri : string) (cid : option string) (author_did handle
           indexedAt : string)
| removePost (uri : string).

(** [let stats = { processed: 0, indexed: 0, deleted: 0 }] *)
Record stats := {
  processed : nat;
  indexed : nat;
  deleted : nat }.

Record state := {
  st_stats : stats;
  st_calls : list db_call }.

(** What handling one message takes from outside: the clock, and whether
    the call into db.js throws. *)
Record Env := {
  now_iso : string;
  db_throws : bool }.

Definition initial : state :=
  {| st_stats := {| processed := 0; indexed := 0; deleted := 0 |};
     st_calls := [] |}.

(** [`at://${did}/${commit.collection}/${commit.rkey}`] *)
Definition at_uri (did : string) (c : commit) : string :=
  "at://" ++ did ++ "/" ++ c_collection c ++ "/" ++ c_rkey c.

(** [handleNewPost(did, commit)]; [None] when db.addPost threw, the
    exception leaving the function before [stats.indexed++]. *)
Definition handleNewPost (env : Env) (did : string) (c : commit) (st : state)
  : option state :=
  match c_record c with
  | None => Some st
  | Some record =>
      let text := getPostText (Some record) in
      let handle := or_else (r_handle record) "" in
      let result := shouldIncludePost (Some handle) (Some text) in
      if include result then
        let uri := at_uri did c in
        let cid := c_cid c in
        let indexedAt := or_else (r_createdAt record) (now_iso env) in
        if db_throws env then None
        else
          Some {| st_stats :=
                    {| processed := processed (st_stats st);
                       indexed := S (indexed (st_stats st));
                       deleted := deleted (st_stats st) |};
                  st_calls :=
                    (st_calls st
                     ++ [addPost uri cid did handle indexedAt])%list |}
      else Some st
  end.

Definition count_processed (st : state) : state :=
  {| st_stats := {| processed := S (processed (st_stats st));
                    indexed := indexed (st_stats st);
                    deleted := deleted (st_stats st) |};
     st_calls := st_calls st |}.

(** [handleJetstreamEvent(event)] inside the [try] of the message handler,
    whose [catch] ignores what is thrown: the state is the one reached when
    the exception left. *)
Definition handleJetstreamEvent (env : Env) (ev : event) (st : state) : state :=
  (* Only handle commits *)
  if negb (String.eqb (kind ev) "commit") then st
  else
    match commit_of ev with
    | None => st
    | Some c =>
        let st := count_processed st in
        (* Handle post creation *)
        let after_create :=
          if String.eqb (c_operation c) "create"
             && String.eqb (c_collection c) "app.bsky.feed.post"
          then handleNewPost env (did ev) c st
          else Some st in
        match after_create with
        | None => st
        | Some st1 =>
            (* Handle post deletion *)
            if String.eqb (c_operation c) "delete"
               && String.eqb (c_collection c) "app.bsky.feed.post"
            then
              if db_throws env then st1
              else
                {| st_stats :=
                     {| processed := processed (st_stats st1);
                        indexed := indexed (st_stats st1);
                        deleted := S (deleted (st_stats st1)) |};
                   st_calls :=
                     (st_calls st1 ++ [removePost (at_uri (did ev) c)])%list |}
            else st1
        end
    end.

(** The messages of a connection, one after the other. *)
Definition handle_all (msgs : list (Env * event)) (st : state) : state :=
  fold_left (fun s m => handleJetstreamEvent (fst m) (snd m) s) msgs st.

Definition is_add (c : db_call) : bool :=
  match c with addPost _ _ _ _ _ => true | removePost _ => false end.

Definition count_calls (p : db_call -> bool) (st : state) : nat :=
  List.length (filter p (st_calls st)).


(** The counters agree with the calls made. *)
Definition consistent (st : state) : Prop :=
  indexed (st_stats st) = count_calls is_add st /\
  deleted (st_stats st) = count_calls (fun c => negb (is_add c)) st /\
  (indexed (st_stats st) + deleted (st_stats st)
   <= processed (st_stats st))%nat.

(** *** Sample data *)

(** A post that quotes a post about cannabis. *)
Definition quoting_record : post_record :=
  {| r_text := Some "look at this"; r_handle := None;
     r_embed_record_value_text := Some "Legal cannabis sales begin today";
     r_createdAt := Some "2025-12-24T10:00:00.000Z" |}.

(** A post commit as Jetstream sends it, without [$handle]. *)
Definition plain_commit (text : string) : commit :=
  {| c_operation := "create"; c_collection := "app.bsky.feed.post";
     c_rkey := "3maj3nlms22k7"; c_cid := Some "bafyreipost";
     c_record := Some {| r_text := Some text; r_handle := None;
                         r_embed_record_value_text := None;
                         r_createdAt := None |} |}.

Definition env_ok : Env :=
  {| now_iso := "2025-12-24T10:00:00.000Z"; db_throws := false |}.

(** *** Proofs *)

Lemma handleJetstreamEvent_cases env ev st :
  let st' := handleJetstreamEvent env ev st in
  (st' = st) \/
  (st_calls st' = st_calls st /\
   processed (st_stats st') = S (processed (st_stats st)) /\
   indexed (st_stats st') = indexed (st_stats st) /\
   deleted (st_stats st') = deleted (st_stats st)) \/
  (exists c, is_add c = true /\
   st_calls st' = (st_calls st ++ [c])%list /\
   processed (st_stats st') = S (processed (st_stats st)) /\
   indexed (st_stats st') = S (indexed (st_stats st)) /\
   deleted (st_stats st') = deleted (st_stats st)) \/
  (exists c, is_add c = false /\
   st_calls st' = (st_calls st ++ [c])%list /\
   processed (st_stats st') = S (processed (st_stats st)) /\
   indexed (st_stats st') = indexed (st_stats st) /\
   deleted (st_stats st') = S (deleted (st_stats st))).
Proof.
  cbv zeta. unfold handleJetstreamEvent.
  destruct (negb (kind ev =? "commit")); [now left|].
  destruct (commit_of ev) as [c|]; [|now left].
  destruct (String.eqb_spec (c_operation c) "create") as [Ec | Nc].
  - assert (Ed : (c_operation c =? "delete") = false)
      by (rewrite Ec; reflexivity).
    rewrite Ed. cbn [andb].
    destruct (c_collection c =? "app.bsky.feed.post");
      [|right; left; cbn; auto].
    unfold handleNewPost.
    destruct (c_record c) as [record|]; [|right; left; cbn; auto].
    destruct (include _); [|right; left; cbn; auto].
    destruct (db_throws env); [right; left; cbn; auto|].
    right; right; left. eexists. cbn. split; [|split; [reflexivity|auto]].
    reflexivity.
  - cbn [andb].
    destruct ((c_operation c =? "delete")
              && (c_collection c =? "app.bsky.feed.post"));
      [|right; left; cbn; auto].
    destruct (db_throws env); [right; left; cbn; auto|].
    right; right; right. eexists. cbn. split; [|split; [reflexivity|auto]].
    reflexivity.
Qed.

Lemma handleJetstreamEvent_consistent env ev st :
  consistent st -> consistent (handleJetstreamEvent env ev st).
Proof.
  intros (Hi & Hd & Hp). unfold consistent, count_calls in *.
  destruct (handleJetstreamEvent_cases env ev st)
    as [-> | [(Ec & E1 & E2 & E3)
       | [(c & Hc & Ec & E1 & E2 & E3) | (c & Hc & Ec & E1 & E2 & E3)]]];
    [auto | | |]; rewrite Ec, E1, E2, E3, ?filter_app, ?length_app;
    cbn [filter]; rewrite ?Hc; cbn [negb List.length]; lia.
Qed.

(** X18: over any run of messages from the start of the process,
    [stats.indexed] is the number of [db.addPost] calls that returned,
    [stats.deleted] the number of [db.removePost] calls that returned, and
    each processed commit counts towards at most one of the two. *)
Theorem stats_count_db_calls (msgs : list (Env * event)) :
  let st := handle_all msgs initial in
  indexed (st_stats st) = count_calls is_add st /\
  deleted (st_stats st) = count_calls (fun c => negb (is_add c)) st /\
  (indexed (st_stats st) + deleted (st_stats st)
   <= processed (st_stats st))%nat /\
  (processed (st_stats st) <= List.length msgs)%nat.
Proof.
  cbv zeta.
  assert (G : forall st, consistent st ->
            consistent (handle_all msgs st) /\
            (processed (st_stats (handle_all msgs st))
             <= processed (st_stats st) + List.length msgs)%nat).
  { induction msgs as [|[env ev] msgs IH]; intros st Hc.
    - split; [exact Hc | cbn; lia].
    - cbn [handle_all fold_left fst snd].
      destruct (IH (handleJetstreamEvent env ev st)
                  (handleJetstreamEvent_consistent env ev st Hc)) as [H1 H2].
      split; [exact H1|]. unfold handle_all in H2. cbn [List.length].
      destruct (handleJetstreamEvent_cases env ev st)
        as [E | [(_ & E & _) | [(c & _ & _ & E & _) | (c & _ & _ & E & _)]]];
        [rewrite E in H2 |- *; lia | rewrite E in H2; lia ..]. }
  destruct (G initial) as [(H1 & H2 & H3) H4];
    [repeat split; cbn; lia|].
  cbn in H4. auto.
Qed.


Lemma last_char_nonempty b : b <> "" ->
  forall p q, last_char p b = last_char q b.
Proof.
  induction b as [|c b IH]; intros Hne p q; [congruence|]. cbn [last_char].
  destruct b as [|d b]; [reflexivity|]. apply IH. discriminate.
Qed.

Lemma whole_word_app_r kw t x :
  whole_word kw t -> is_word (first_char x) = false -> whole_word kw (t ++ x).
Proof.
  intros (b & mid & a & -> & Hs & Hb & Ha) Hx.
  exists b, mid, (a ++ x). rewrite !string_app_assoc.
  repeat split; try assumption.
  destruct a; [exact Hx | exact Ha].
Qed.

Lemma whole_word_app_l kw t x :
  whole_word kw t -> is_word (last_char None x) = false ->
  whole_word kw (x ++ t).
Proof.
  intros (b & mid & a & -> & Hs & Hb & Ha) Hx.
  exists (x ++ b), mid, a. rewrite !string_app_assoc.
  repeat split; try assumption.
  rewrite last_char_app. destruct b as [|c b]; [exact Hx|].
  now rewrite (last_char_nonempty (String c b) ltac:(discriminate) _ None).
Qed.

Lemma keyword_nonempty t : contains_keyword t -> t <> "".
Proof.
  intros (kw & Hin & b & mid & a & -> & Hs & _).
  pose proof keywords_word_ends as Hends. rewrite forallb_forall in Hends.
  specialize (Hends kw Hin). unfold word_ends in Hends.
  apply andb_prop in Hends as [_ Hk].
  apply negb_true_iff, String.eqb_neq in Hk.
  pose proof (same_case_nonempty kw mid Hs Hk) as Hm.
  destruct b; [|discriminate]. destruct mid; [congruence | discriminate].
Qed.

Lemma truthy_nonempty t : t <> "" -> truthy (Some t) = true.
Proof. intros H. cbn. now apply negb_true_iff, String.eqb_neq. Qed.

Lemma last_char_space x : is_word (last_char None (x ++ " ")) = false.
Proof. now rewrite last_char_app. Qed.

Lemma getPostText_keeps_keywords record t :
  r_text record = Some t \/ r_embed_record_value_text record = Some t ->
  contains_keyword t -> contains_keyword (getPostText (Some record)).
Proof.
  intros Hsrc Hk. pose proof (keyword_nonempty t Hk) as Hne.
  pose proof (truthy_nonempty t Hne) as Ht.
  destruct Hk as (kw & Hin & Hw). exists kw. split; [exact Hin|].
  unfold getPostText. destruct Hsrc as [E | E]; rewrite E.
  - unfold or_else. rewrite Ht.
    destruct (r_embed_record_value_text record) as [q|]; [|exact Hw].
    destruct (truthy (Some q)); [|exact Hw].
    now apply whole_word_app_r.
  - rewrite Ht. rewrite <- string_app_assoc.
    apply whole_word_app_l; [exact Hw | apply last_char_space].
Qed.

(** X19: a post is included when a keyword stands in its own text or in
    the text of the post it quotes, whatever the handle. *)
Theorem keyword_in_text_or_quote (record : post_record) (t : string)
    (handle : option string) :
  r_text record = Some t \/ r_embed_record_value_text record = Some t ->
  contains_keyword t ->
  include (shouldIncludePost handle (Some (getPostText (Some record)))) = true.
Proof.
  intros Hsrc Hk. apply include_iff. right. eexists. split; [reflexivity|].
  now apply (getPostText_keeps_keywords record t).
Qed.

Lemma keyword_in_text_or_quote_witness :
  include (shouldIncludePost (Some "bob.bsky.social")
             (Some (getPostText (Some quoting_record)))) = true.
Proof.
  apply (keyword_in_text_or_quote quoting_record
           "Legal cannabis sales begin today" (Some "bob.bsky.social")).
  - right. reflexivity.
  - apply test_CANNABIS_REGEX. vm_compute. reflexivity.
Defined.

(** The texts are joined before the test, so a keyword of two words is
    also found across the join. *)
Example keyword_across_the_join :
  let record := {| r_text := Some "so high"; r_handle := None;
                   r_embed_record_value_text := Some "af today";
                   r_createdAt := None |} in
  test CANNABIS_REGEX "so high" = false /\
  test CANNABIS_REGEX "af today" = false /\
  shouldIncludePost None (Some (getPostText (Some record)))
  = {| include := true; reason := "keyword_match" |}.
Proof. vm_compute. repeat split. Qed.

(** X20: Jetstream commits carry no [$handle]: such a post is indexed
    exactly when its text, with the quoted text, holds a keyword. *)
Theorem post_without_handle_indexed_by_keyword (env : Env) (did : string)
    (c : commit) (record : post_record) (st : state) :
  c_record c = Some record ->
  truthy (r_handle record) = false ->
  db_throws env = false ->
  (contains_keyword (getPostText (Some record)) ->
   handleNewPost env did c st
   = Some {| st_stats := {| processed := processed (st_stats st);
                            indexed := S (indexed (st_stats st));
                            deleted := deleted (st_stats st) |};
             st_calls :=
               (st_calls st ++
                [addPost (at_uri did c) (c_cid c) did ""
                         (or_else (r_createdAt record) (now_iso env))])%list |})
  /\
  (~ contains_keyword (getPostText (Some record)) ->
   handleNewPost env did c st = Some st).
Proof.
  intros Hrec Hh Hdb. unfold handleNewPost. rewrite Hrec, Hdb.
  assert (Eh : or_else (r_handle record) "" = "").
  { unfold or_else.
    destruct (r_handle record); [now rewrite Hh | reflexivity]. }
  rewrite Eh.
  pose proof (include_iff (Some "") (Some (getPostText (Some record)))) as I.
  split; intros Hk.
  - replace (include _) with true; [reflexivity|].
    symmetry. apply I. right. eexists. split; [reflexivity | exact Hk].
  - destruct (include _); [|reflexivity].
    exfalso. apply Hk.
    destruct (proj1 I eq_refl)
      as [(h & [= <-] & (f & Hf)) | (t & [= <-] & H)]; [|exact H].
    destruct f; discriminate Hf.
Qed.

Lemma post_without_handle_indexed_by_keyword_witness :
  handleNewPost env_ok "did:plc:bob" (plain_commit "Nice weather today")
                initial
  = Some initial /\
  exists st, handleNewPost env_ok "did:plc:bob"
               (plain_commit "New strain drop") initial = Some st /\
             st_calls st
             = [addPost "at://did:plc:bob/app.bsky.feed.post/3maj3nlms22k7"
                        (Some "bafyreipost") "did:plc:bob" ""
                        "2025-12-24T10:00:00.000Z"].
Proof.
  split.
  - apply (proj2 (post_without_handle_indexed_by_keyword env_ok
             "did:plc:bob" (plain_commit "Nice weather today") _ initial
             eq_refl eq_refl eq_refl)).
    intros H. apply test_CANNABIS_REGEX in H. vm_compute in H. discriminate H.
  - eexists. split.
    + apply (proj1 (post_without_handle_indexed_by_keyword env_ok
               "did:plc:bob" (plain_commit "New strain drop") _ initial
               eq_refl eq_refl eq_refl)).
      apply test_CANNABIS_REGEX. vm_compute. reflexivity.
    + reflexivity.
Defined.

End Indexer.
(* ================================================================== *)
(** ** The Jetstream connection of feed-vps/index.js: reconnecting *)
(* ================================================================== *)
Module Reconnect.
Local Open Scope Z_scope.

(** [let reconnectAttempts = 0] and the delays handed to [setTimeout], in
    order.  Numbers are kept exact; [Math.pow(2, n)] overflows to Infinity
    far beyond the cap, where [Math.min] answers 30000 as well. *)
Record connection := {
  reconnectAttempts : Z;
  timeouts : list Z }.

Definition initial : connection :=
  {| reconnectAttempts := 0; timeouts := [] |}.

(** [scheduleReconnect()] *)
Definition scheduleReconnect (c : connection) : connection :=
  let reconnectAttempts := reconnectAttempts c + 1 in
  let delay := Z.min (1000 * 2 ^ reconnectAttempts) 30000 in
  {| reconnectAttempts := reconnectAttempts;
     timeouts := timeouts c ++ [delay] |}.

(** The events of the WebSocket that [connectJetstream] listens to. *)
Inductive ws_event := ws_open | ws_message | ws_close | ws_error.

Definition on_event (c : connection) (e : ws_event) : connection :=
  match e with
  | ws_open => {| reconnectAttempts := 0; timeouts := timeouts c |}
  | ws_message => c
  | ws_close => scheduleReconnect c
  | ws_error => c
  end.

Definition run (evs : list ws_event) (c : connection) : connection :=
  fold_left on_event evs c.

(** The delay after the [k]-th close in a row. *)
Definition backoff (k : Z) : Z :=
  if k <=? 4 then 1000 * 2 ^ k else 30000.

(** *** Proofs *)

Lemma min_backoff k : 1 <= k -> Z.min (1000 * 2 ^ k) 30000 = backoff k.
Proof.
  intros Hk. unfold backoff. destruct (Z.leb_spec k 4) as [H | H].
  - assert (k = 1 \/ k = 2 \/ k = 3 \/ k = 4) as [-> | [-> | [-> | ->]]] by lia;
      reflexivity.
  - apply Z.min_r.
    assert (2 ^ 5 <= 2 ^ k) by (apply Z.pow_le_mono_r; lia).
    change (2 ^ 5) with 32 in *. lia.
Qed.

Lemma on_event_attempts c e :
  0 <= reconnectAttempts c -> 0 <= reconnectAttempts (on_event c e).
Proof. destruct e; cbn; lia. Qed.

Lemma on_event_timeouts c e :
  0 <= reconnectAttempts c ->
  exists added, timeouts (on_event c e) = timeouts c ++ added /\
                Forall (fun d => 2000 <= d <= 30000) added.
Proof.
  intros H. destruct e; cbn [on_event scheduleReconnect timeouts];
    try (exists []; rewrite app_nil_r; split; [reflexivity | constructor]).
  exists [Z.min (1000 * 2 ^ (reconnectAttempts c + 1)) 30000].
  split; [reflexivity|]. constructor; [|constructor].
  rewrite min_backoff by lia. unfold backoff.
  destruct (Z.leb_spec (reconnectAttempts c + 1) 4) as [L | L]; [|lia].
  assert (2 ^ 1 <= 2 ^ (reconnectAttempts c + 1))
    by (apply Z.pow_le_mono_r; lia).
  assert (2 ^ (reconnectAttempts c + 1) <= 2 ^ 4)
    by (apply Z.pow_le_mono_r; lia).
  change (2 ^ 1) with 2 in *. change (2 ^ 4) with 16 in *. lia.
Qed.

(** X21: whatever the connection goes through, every reconnect is scheduled no
    sooner than 2 seconds and no later than 30 seconds after the close. *)
Theorem reconnect_delay_bounds (evs : list ws_event) :
  Forall (fun d => 2000 <= d <= 30000) (timeouts (run evs initial)).
Proof.
  assert (G : forall c, 0 <= reconnectAttempts c ->
            Forall (fun d => 2000 <= d <= 30000) (timeouts c) ->
            Forall (fun d => 2000 <= d <= 30000) (timeouts (run evs c))).
  { induction evs as [|e evs IH]; intros c Ha Hf; [exact Hf|].
    cbn [run fold_left]. apply IH; [now apply on_event_attempts|].
    destruct (on_event_timeouts c e Ha) as (added & -> & Hadd).
    apply Forall_app. now split. }
  apply G; [cbn; lia | constructor].
Qed.

Lemma run_closes n : forall c,
  0 <= reconnectAttempts c ->
  run (repeat ws_close n) c
  = {| reconnectAttempts := reconnectAttempts c + Z.of_nat n;
       timeouts := timeouts c ++
                   map (fun k => backoff (reconnectAttempts c + Z.of_nat k))
                       (seq 1 n) |}.
Proof.
  induction n as [|n IH]; intros c Hc.
  - cbn. rewrite app_nil_r, Z.add_0_r. now destruct c.
  - cbn [repeat run fold_left on_event]. fold (run (repeat ws_close n)).
    rewrite IH by (cbn; lia).
    cbn [scheduleReconnect reconnectAttempts timeouts].
    rewrite min_backoff by lia. f_equal; [lia|].
    rewrite <- app_assoc. f_equal. cbn [app seq map]. f_equal.
    rewrite <- (seq_shift n 1), map_map. apply map_ext. intros k. f_equal. lia.
Qed.

(** X22: exponential backoff with a cap and a reset: after a connection opened,
    the closes that follow in a row are answered with delays of 2, 4, 8 and
    16 seconds and 30 seconds from the fifth on, whatever happened before
    the open. *)
Theorem backoff_after_open (before : list ws_event) (n : nat) :
  let c := run (before ++ [ws_open]) initial in
  timeouts (run (repeat ws_close n) c)
  = timeouts c ++ map (fun k => backoff (Z.of_nat k)) (seq 1 n).
Proof.
  cbv zeta. unfold run at 2 3. rewrite fold_left_app. cbn [fold_left on_event].
  fold (run before initial).
  rewrite run_closes by (cbn; lia). reflexivity.
Qed.

Example backoff_sample :
  timeouts (run [ws_close; ws_error; ws_close; ws_close; ws_close; ws_close;
                 ws_close; ws_open; ws_message; ws_close] initial)
  = [2000; 4000; 8000; 16000; 30000; 30000; 2000].
Proof. reflexivity. Qed.

End Reconnect.
(* ================================================================== *)
(** ** The Feed Skeleton Service: cursors at the edges *)
(* ================================================================== *)
Module FeedSkeletonFacts.
Import FeedSkeleton.
Local Open Scope string_scope.
Local Open Scope Z_scope.

(** X23: an empty page never carries a cursor, whatever [db.getPosts] is:
    the page size is never 0, so a walk along the cursors ends at the first
    empty page at the latest. *)
Theorem empty_page_has_no_cursor (getPosts : db_getPosts) (date_now : Z)
    (q : query) (r : response) :
  getFeedSkeleton getPosts date_now q = json r ->
  feed r = [] ->
  cursor r = None.
Proof.
  unfold getFeedSkeleton. destruct (getPosts _ _) as [posts|]; [|discriminate].
  intros [= <-]. cbn [feed cursor]. intros ->. cbn [List.length Z.of_nat].
  pose proof (page_size_nonzero q) as Hn.
  destruct (page_size q) as [|s|l]; cbn [strict_equal]; try reflexivity.
  destruct (Z.eqb_spec 0 l) as [E | N]; [|reflexivity].
  exfalso. apply Hn. now rewrite E.
Qed.

Lemma empty_page_has_no_cursor_witness :
  exists r,
    getFeedSkeleton (Sample.getPosts Sample.index) 1766570400000
      {| q_feed := None; q_limit := Some "2";
         q_cursor := Some "1766570400000:4" |} = json r /\
    feed r = [] /\ cursor r = None.
Proof.
  eexists. split; [reflexivity|]. split; [reflexivity|].
  apply (empty_page_has_no_cursor (Sample.getPosts Sample.index)
           1766570400000
           {| q_feed := None; q_limit := Some "2";
              q_cursor := Some "1766570400000:4" |}); reflexivity.
Defined.

Lemma split_part_1_none c : no_colon c = true -> split_part_1 c = None.
Proof.
  induction c as [|x c IH]; [reflexivity|]. cbn [no_colon split_part_1].
  intros H. apply andb_prop in H as [Hx Hc].
  apply negb_true_iff in Hx. rewrite Hx. now apply IH.
Qed.

(** X24: a cursor without a colon, or with nothing after it, is no error: the
    request is served from the start of the index. *)
Theorem cursor_without_offset_starts_over (q : query) (c : string) :
  q_cursor q = Some c \/ q_cursor q = Some (c ++ ":") ->
  no_colon c = true ->
  page_offset q = Num 0.
Proof.
  intros Hq Hc. unfold page_offset. destruct Hq as [-> | ->].
  - destruct (negb (c =? "")%string); [|reflexivity].
    now rewrite split_part_1_none.
  - destruct (negb (c ++ ":" =? "")%string); [|reflexivity].
    replace (split_part_1 (c ++ ":")) with (Some ""%string); [reflexivity|].
    clear -Hc. induction c as [|x c IH]; [reflexivity|].
    cbn [no_colon] in Hc. apply andb_prop in Hc as [Hx Hc].
    apply negb_true_iff in Hx. cbn. rewrite Hx. now apply IH.
Qed.

Lemma cursor_without_offset_starts_over_witness :
  page_offset {| q_feed := None; q_limit := None;
                 q_cursor := Some "1766570400000" |} = Num 0.
Proof.
  apply (cursor_without_offset_starts_over _ "1766570400000");
    [now left | reflexivity].
Defined.

End FeedSkeletonFacts.
